(** * indicxray-evaluator: the client-side evaluation state engine

    A shallow embedding of the score store (stores/evaluation), of the case
    page that hydrates it and submits it (the Index page), of the score
    editor (components/EvaluationMetrics.tsx) and of the two adapter
    functions of services/index.ts the page relies on, followed by the
    properties of the specification proved or refuted on them.

    Conventions.  A JavaScript [number] holding a score of the store is an
    integer [Z]; [null] is [None].  An object used as a dictionary is a
    [gmap string _] of its own properties; where the code reads a key that
    the object may inherit, the inherited names are written out.  Arrays are
    lists.  [===] on strings is [bool_decide (_ = _)]. *)

From Stdlib Require Import ZArith QArith Qminmax Lqa.
From stdpp Require Import gmap strings list pretty.

Open Scope string_scope.
Open Scope list_scope.

(** ** Data model (the shapes of '@/types' as the code uses them) *)

(** One metric record of a response slot: [{ id, name, description?, value }]. *)
Module MetricScore.
Record t := mk {
  id : string;
  name : string;
  description : option string;
  value : option Z
}.
End MetricScore.

(** One response slot of a case's entry: [{ responseId, metrics }]. *)
Module Evaluation.
Record t := mk {
  responseId : string;
  metrics : list MetricScore.t
}.
End Evaluation.

(** A metric of the global metric set: [{ id, name, description }]. *)
Module Metric.
Record t := mk {
  id : string;
  name : string;
  description : string
}.
End Metric.

#[global] Instance MetricScore_eq_dec : EqDecision MetricScore.t.
Proof. solve_decision. Defined.
#[global] Instance Evaluation_eq_dec : EqDecision Evaluation.t.
Proof. solve_decision. Defined.
#[global] Instance Metric_eq_dec : EqDecision Metric.t.
Proof. solve_decision. Defined.

(** ** JavaScript array helpers *)

(** [Array.prototype.findIndex]: the first index whose element satisfies [p];
    [None] stands for the result [-1]. *)
Fixpoint findIndex {A : Type} (p : A → bool) (l : list A) : option nat :=
  match l with
  | [] => None
  | x :: l' => if p x then Some 0%nat else S <$> findIndex p l'
  end.

(** The template string [`model-${index + 1}`]. *)
Definition modelName (index : nat) : string := "model-" +:+ pretty (index + 1)%nat.

(** ** Exceptions

    [throw], [try]/[catch] and the [TypeError] of a property read on
    [undefined]: a computation either returns or throws a message. *)

Inductive result (A : Type) : Type :=
| Ok (a : A)
| Thrown (message : string).
Arguments Ok {A} a.
Arguments Thrown {A} message.

#[global] Instance result_ret : MRet result := λ A a, Ok a.
#[global] Instance result_bind : MBind result :=
  λ A B f m, match m with Ok a => f a | Thrown e => Thrown e end.

(** Reading a property of a value that may be [undefined]. *)
Definition orThrow {A : Type} (message : string) (o : option A) : result A :=
  match o with
  | Some a => Ok a
  | None => Thrown message
  end.

(** ** The store (stores/evaluation): [evaluation] and [doneForId] *)

Module Store.

Record State := mkState {
  evaluation : gmap string (list Evaluation.t);
  doneForId : gmap string bool
}.

(** The argument of [setEvaluation]. *)
Record Payload := mkPayload {
  responseId : string;
  metricId : string;
  value : option Z
}.

(** The initial state of [create]: [evaluation: {}], [doneForId: {}]. *)
Definition initial : State := mkState ∅ ∅.

(** [Array.from({ length: 3 }, (_, index) => ({ responseId: `model-${index + 1}`, metrics: [] }))] *)
Definition defaultEntry : list Evaluation.t :=
  (λ index, Evaluation.mk (modelName index) []) <$> seq 0 3.

(** The record pushed for a metric the slot lacks: [{ id, name: '', value }]. *)
Definition newMetric (payload : Payload) : MetricScore.t :=
  MetricScore.mk (metricId payload) "" None (value payload).

(** [metrics[metricIndex].value = payload.value] *)
Definition setValue (v : option Z) (metric : MetricScore.t) : MetricScore.t :=
  MetricScore.mk (MetricScore.id metric) (MetricScore.name metric)
                 (MetricScore.description metric) v.

(** The second half of [setEvaluation], on the metric list of the slot found. *)
Definition setMetric (payload : Payload) (ms : list MetricScore.t) : list MetricScore.t :=
  match findIndex (λ metric, bool_decide (MetricScore.id metric = metricId payload)) ms with
  | None => ms ++ [newMetric payload]
  | Some metricIndex => alter (setValue (value payload)) metricIndex ms
  end.

(** The body of [setEvaluation] once the entry of the case exists. *)
Definition applyEdit (payload : Payload) (entry : list Evaluation.t) : list Evaluation.t :=
  match findIndex (λ model, bool_decide (Evaluation.responseId model = responseId payload)) entry with
  | None =>
      entry ++ [Evaluation.mk (responseId payload) [newMetric payload]]
  | Some modelIndex =>
      alter (λ model, Evaluation.mk (Evaluation.responseId model)
                                    (setMetric payload (Evaluation.metrics model)))
            modelIndex entry
  end.

(** [evaluation] is a plain object, and [state.evaluation[idx]] also finds
    what every object inherits from [Object.prototype]: for these names the
    read is never [undefined], whether or not the object has an entry of its
    own under the name.  [evaluation state] holds the own properties. *)
Definition inheritedKeys : list string :=
  ["constructor"; "hasOwnProperty"; "isPrototypeOf"; "propertyIsEnumerable";
   "toLocaleString"; "toString"; "valueOf"; "__proto__";
   "__defineGetter__"; "__defineSetter__"; "__lookupGetter__"; "__lookupSetter__"].

Definition inherited (idx : string) : bool := bool_decide (idx ∈ inheritedKeys).

(** What [newEvaluation[idx].findIndex] is called on.  [!state.evaluation[idx]]
    holds exactly when the object has no property [idx], own or inherited
    (an array, even an empty one, is truthy, and so is everything
    inherited); the entry is then the default one.  For an inherited name
    with no entry of its own no entry is made, and the value read is a
    function or [Object.prototype], which has no [findIndex]: the call
    throws. *)
Definition ensureEntry (idx : string) (state : State) : result (list Evaluation.t) :=
  match evaluation state !! idx with
  | Some entry => Ok entry
  | None =>
      if inherited idx
      then Thrown "TypeError: newEvaluation[idx].findIndex is not a function"
      else Ok defaultEntry
  end.

(** [setEvaluation(idx, payload)]: the state it sets, or the error it throws
    (and [set] then leaves the state as it is). *)
Definition setEvaluation (idx : string) (payload : Payload) (state : State) : result State :=
  entry ← ensureEntry idx state;
  Ok (mkState (<[idx := applyEdit payload entry]> (evaluation state)) (doneForId state)).

(** The store after the call, whether it returned or threw: [set] assigns
    nothing when the function it is given throws. *)
Definition afterSetEvaluation (idx : string) (payload : Payload) (state : State) : State :=
  match setEvaluation idx payload state with
  | Ok state' => state'
  | Thrown _ => state
  end.

(** A run of [setEvaluation] calls on one [(idx, responseId, metricId)], one
    call per value, in order. *)
Definition setScores (idx rid mid : string) (values : list (option Z)) (state : State) : State :=
  foldl (λ st v, afterSetEvaluation idx (mkPayload rid mid v) st) state values.

(** [init(initData)] *)
Definition init (initData : gmap string (list Evaluation.t)) (state : State) : State :=
  mkState initData ∅.

(** [initAtId(idx, payload)]: the values the copies hold ([Heap.initAtId]
    below keeps track of which objects they are). *)
Definition initAtId (idx : string) (payload : list Evaluation.t) (state : State) : State :=
  mkState
    (<[idx := (λ model, Evaluation.mk (Evaluation.responseId model)
                          ((λ metric, metric) <$> Evaluation.metrics model)) <$> payload]>
       (evaluation state))
    (doneForId state).

(** [setDoneForId(idx, status)] *)
Definition setDoneForId (idx : string) (status : bool) (state : State) : State :=
  mkState (evaluation state) (<[idx := status]> (doneForId state)).

(** [resetDoneStatus()] *)
Definition resetDoneStatus (state : State) : State :=
  mkState (evaluation state) ∅.

(** Any history of [setEvaluation] calls, on any cases and cells. *)
Definition replay (history : list (string * Payload)) (state : State) : State :=
  foldl (λ st call, afterSetEvaluation call.1 call.2 st) state history.

(** How the metrics table reads a cell (EvaluationMetrics.tsx):
    [activeEvaluation.find(m => m.responseId === id)] and then
    [model.metrics.find(x => x.id === metric.id)?.value].  The outer
    [None] is "no such record" ([undefined]); [Some None] is a stored [null]. *)
Definition cell (entry : list Evaluation.t) (rid mid : string) : option (option Z) :=
  model ← find (λ m, bool_decide (Evaluation.responseId m = rid)) entry;
  MetricScore.value <$> find (λ x, bool_decide (MetricScore.id x = mid)) (Evaluation.metrics model).

Definition storedValue (state : State) (idx rid mid : string) : option (option Z) :=
  entry ← evaluation state !! idx; cell entry rid mid.

(** The metric records of an entry, each with the responseId of its slot. *)
Definition records (entry : list Evaluation.t) : list (string * MetricScore.t) :=
  model ← entry; (λ metric, (Evaluation.responseId model, metric)) <$> Evaluation.metrics model.

Definition isPair (rid mid : string) (x : string * MetricScore.t) : bool :=
  bool_decide (x.1 = rid) && bool_decide (MetricScore.id x.2 = mid).

(** The records of the pair [(rid, mid)] and the others. *)
Definition pairCount (rid mid : string) (entry : list Evaluation.t) : nat :=
  length (List.filter (isPair rid mid) (records entry)).

Definition otherRecords (rid mid : string) (entry : list Evaluation.t)
  : list (string * MetricScore.t) :=
  List.filter (λ x, negb (isPair rid mid x)) (records entry).

(** The invariant of the data model: a responseId names at most one slot of
    an entry, a metric id at most one record of a slot. *)
Definition uniqueIds (entry : list Evaluation.t) : Prop :=
  NoDup (Evaluation.responseId <$> entry)
  ∧ Forall (λ model, NoDup (MetricScore.id <$> Evaluation.metrics model)) entry.

End Store.

(** ** The store as JavaScript objects: who shares what

    [initAtId] is given an array of objects owned by its caller.  To state
    that the stored entry shares nothing with it, objects live in a heap and
    arrays and fields hold references. *)

Module Heap.

Definition loc := positive.

Inductive obj :=
| OMetric (metric : MetricScore.t)              (* { id, name, description?, value } *)
| OModel (responseId : string) (metrics : loc)  (* { responseId, metrics } *)
| OArray (elems : list loc).                    (* an array of objects *)

Abbreviation heap := (gmap loc obj).

Record State := mkState {
  objects : heap;
  evaluation : gmap string loc;
  doneForId : gmap string bool
}.

(** A new object: a reference no object of the heap has. *)
Definition alloc (o : obj) (h : heap) : loc * heap :=
  let l := fresh (dom h) in (l, <[l := o]> h).

(** [({ ...metric })] *)
Definition copyMetric (l : loc) (h : heap) : option (loc * heap) :=
  match h !! l with
  | Some (OMetric metric) => Some (alloc (OMetric metric) h)
  | _ => None
  end.

(** The calls of the callback of [Array.prototype.map], in index order. *)
Fixpoint copyEach (copy : loc → heap → option (loc * heap)) (ls : list loc) (h : heap)
  : option (list loc * heap) :=
  match ls with
  | [] => Some ([], h)
  | l :: ls' =>
      '(l', h1) ← copy l h;
      '(ls'', h2) ← copyEach copy ls' h1;
      Some (l' :: ls'', h2)
  end.

(** [array.map(x => copy(x))]: a new array of the copies. *)
Definition mapArray (copy : loc → heap → option (loc * heap)) (a : loc) (h : heap)
  : option (loc * heap) :=
  match h !! a with
  | Some (OArray ls) => '(ls', h1) ← copyEach copy ls h; Some (alloc (OArray ls') h1)
  | _ => None
  end.

(** [({ ...model, metrics: model.metrics.map(metric => ({ ...metric })) })] *)
Definition copyModel (l : loc) (h : heap) : option (loc * heap) :=
  match h !! l with
  | Some (OModel rid ms) =>
      '(ms', h1) ← mapArray copyMetric ms h; Some (alloc (OModel rid ms') h1)
  | _ => None
  end.

(** [initAtId(idx, payload)]; [None] only when [payload] is not an array of
    response objects (which the type [Evaluation[]] excludes). *)
Definition initAtId (idx : string) (payload : loc) (state : State) : option State :=
  '(entry, h) ← mapArray copyModel payload (objects state);
  Some (mkState h (<[idx := entry]> (evaluation state)) (doneForId state)).

(** The value an object graph holds. *)
Definition readMetric (h : heap) (l : loc) : option MetricScore.t :=
  match h !! l with
  | Some (OMetric metric) => Some metric
  | _ => None
  end.

Definition readArray {A : Type} (read : heap → loc → option A) (h : heap) (a : loc)
  : option (list A) :=
  match h !! a with
  | Some (OArray ls) => mapM (read h) ls
  | _ => None
  end.

Definition readModel (h : heap) (l : loc) : option Evaluation.t :=
  match h !! l with
  | Some (OModel rid ms) => Evaluation.mk rid <$> readArray readMetric h ms
  | _ => None
  end.

Definition readEntry (h : heap) (a : loc) : option (list Evaluation.t) :=
  readArray readModel h a.

(** Every object that [h1] has and [h0] lacked is in [h2] as it is in [h1]:
    whatever happened between [h1] and [h2] left the objects created
    between [h0] and [h1] alone. *)
Definition agreeOnNew (h0 h1 h2 : heap) : Prop :=
  ∀ l o, h0 !! l = None → h1 !! l = Some o → h2 !! l = Some o.

(** [copy] makes, of an object graph that reads as [v], a graph of new
    objects that reads as [v] wherever the new objects are intact. *)
Definition copies {A : Type} (read : heap → loc → option A)
    (copy : loc → heap → option (loc * heap)) : Prop :=
  ∀ h l v, read h l = Some v →
    ∃ l' h', copy l h = Some (l', h') ∧ h ⊆ h' ∧ h !! l' = None
             ∧ ∀ h'', agreeOnNew h h' h'' → read h'' l' = Some v.

(** Reading does not depend on objects allocated later. *)
Definition stable {A : Type} (read : heap → loc → option A) : Prop :=
  ∀ h h' l v, h ⊆ h' → read h l = Some v → read h' l = Some v.

End Heap.

(** ** The adapter (services/index.ts) *)

Module Services.

(** How a request to the backend ends: with a response body, or rejected
    (network failure, timeout, non-2xx status). *)
Inductive Http (A : Type) : Type :=
| Resolved (data : A)
| Rejected.
Arguments Resolved {A} data.
Arguments Rejected {A}.

(** [interface EvaluationData], the fields the page reads. *)
Record EvaluationData := mkEvaluationData {
  model_response : string;
  metric : string;
  score : Z
}.

(** The body of [GET cases/{id}/evaluations]: the list the page expects, or
    anything that has no [filter] method. *)
Inductive EvaluationsBody :=
| EvaluationList (evaluations : list EvaluationData)
| NotAList.

(** [getExistingEvaluations]: [try { return response.data } catch { return [] }]. *)
Definition getExistingEvaluations (response : Http EvaluationsBody) : EvaluationsBody :=
  match response with
  | Resolved data => data
  | Rejected => EvaluationList []
  end.

(** The argument of [updateSingleEvaluation]. *)
Record PersistCall := mkPersistCall {
  caseId : string;
  responseId : string;
  metricId : string;
  evaluatorId : string;
  call_score : Z
}.

(** The body of [POST cases/evaluations/update/], the fields the page
    reads: [{ status, progress?: { completed, total } }]. *)
Record Progress := mkProgress { completed : Z; total : Z }.
Record PersistResponse := mkPersistResponse {
  status : string;
  progress : option Progress
}.

(** [updateSingleEvaluation]: [return response.data], the rejection rethrown. *)
Definition updateSingleEvaluation (response : Http PersistResponse) : Http PersistResponse :=
  match response with
  | Resolved data => Resolved data
  | Rejected => Rejected
  end.

(** *** Ground truth *)

(** A value as the backend's JSON delivers it (a number is an integer here). *)
#[warnings="-register-all"]
Inductive jsval :=
| JUndefined
| JNull
| JBool (b : bool)
| JNumber (z : Z)
| JString (s : string)
| JArray (elems : list jsval)
| JObject (fields : list (string * jsval)).   (* own properties, a key once *)

(** [typeof v === 'object' && v !== null] *)
Definition isObject (v : jsval) : bool :=
  match v with
  | JArray _ | JObject _ => true
  | _ => false
  end.

(** Truthiness, as [||] tests it. *)
Definition truthy (v : jsval) : bool :=
  match v with
  | JUndefined | JNull | JBool false | JNumber 0 | JString "" => false
  | _ => true
  end.

(** [a || b] *)
Definition orElse (a b : jsval) : jsval := if truthy a then a else b.

Fixpoint assoc (key : string) (fields : list (string * jsval)) : jsval :=
  match fields with
  | [] => JUndefined
  | (k, v) :: fields' => if bool_decide (k = key) then v else assoc key fields'
  end.

(** [v.key] for the keys read here ([findings], [impressions],
    [impression], and [id], [name], [description] of a metric): a
    [TypeError] on [null] and [undefined], [undefined] on a value that has
    no such property. *)
Definition getProp (v : jsval) (key : string) : result jsval :=
  match v with
  | JUndefined | JNull => Thrown "TypeError"
  | JObject fields => Ok (assoc key fields)
  | _ => Ok JUndefined
  end.

(** White space that [trim] removes (the ASCII part of it). *)
Definition isSpace (c : Ascii.ascii) : bool :=
  let n := Ascii.nat_of_ascii c in
  bool_decide (n = 32 ∨ 9 ≤ n ≤ 13)%nat.

Fixpoint trimStart (s : string) : string :=
  match s with
  | String c s' => if isSpace c then trimStart s' else s
  | EmptyString => EmptyString
  end.

Definition trimEnd (s : string) : string :=
  String.rev (trimStart (String.rev s)).

Definition trim (s : string) : string := trimEnd (trimStart s).

Definition startsWith (s p : string) : bool := String.prefix p s.

Record GroundTruth := mkGroundTruth {
  findings : jsval;
  impressions : jsval
}.

(** [{ findings: o.findings || '', impressions: o.impressions || o.impression || '' }] *)
Definition extract (o : jsval) : result GroundTruth :=
  f ← getProp o "findings";
  i ← getProp o "impressions";
  i' ← getProp o "impression";
  Ok (mkGroundTruth (orElse f (JString "")) (orElse (orElse i i') (JString ""))).

(** The fields [extract] yields, read as a value (both empty for the values
    that have no properties to read). *)
Definition fieldsOf (o : jsval) : GroundTruth :=
  match extract o with
  | Ok g => g
  | Thrown _ => mkGroundTruth (JString "") (JString "")
  end.

Section GroundTruth.

(** [JSON.parse]; [None] when it throws a [SyntaxError]. *)
Variable JSON_parse : string → option jsval.

(** The [try] block of the [groundTruth] initialiser of [getRecords]. *)
Definition groundTruthTry (groundTruth : jsval) : result GroundTruth :=
  if isObject groundTruth then extract groundTruth
  else
    match groundTruth with
    | JString s =>
        if startsWith (trim s) "{" then
          parsed ← orThrow "SyntaxError" (JSON_parse s);
          extract parsed
        else
          Ok (mkGroundTruth (orElse groundTruth (JString "")) (JString ""))
    | _ => Ok (mkGroundTruth (JString "") (JString ""))
    end.

(** The initialiser with its [catch]:
    [{ findings: typeof groundTruth === 'string' ? groundTruth : '', impressions: '' }]. *)
Definition groundTruth (groundTruth : jsval) : GroundTruth :=
  match groundTruthTry groundTruth with
  | Ok g => g
  | Thrown _ =>
      mkGroundTruth
        (match groundTruth with JString _ => groundTruth | _ => JString "" end)
        (JString "")
  end.

(** The decision table in the words of the specification: object → use
    directly; string parseable as JSON → parse; string otherwise → treat
    as findings; anything else → empty. *)
Definition specGroundTruth (groundTruth : jsval) : GroundTruth :=
  if isObject groundTruth then fieldsOf groundTruth
  else
    match groundTruth with
    | JString s =>
        match JSON_parse s with
        | Some parsed => fieldsOf parsed
        | None => mkGroundTruth groundTruth (JString "")
        end
    | _ => mkGroundTruth (JString "") (JString "")
    end.

End GroundTruth.

End Services.

(** ** The score editor (components/EvaluationMetrics.tsx) *)

Module EvaluationMetrics.

(** The body of the request of [updateEvaluation]; [evaluatorId] is
    [urlParams.get('doctorId')], [null] when the parameter is absent. *)
Record Request := mkRequest {
  caseId : string;
  responseId : string;
  metricId : string;
  evaluatorId : option string;
  score : Z
}.

(** [value !== null && (value < 1 || value > 5)] *)
Definition invalid (value : option Z) : bool :=
  match value with
  | None => false
  | Some v => bool_decide (v < 1)%Z || bool_decide (v > 5)%Z
  end.

(** [updateEvaluation(responseId, metricId, value)]: the store after it and
    the requests it sends.  [setEvaluation] is called inside the [try]: when
    it throws, the [catch] logs and no request is sent.  What comes back from
    the request is logged and handed to [onStatusChange]; the store is not
    touched again. *)
Definition updateEvaluation (activeRecordId : string) (doctorId : option string)
    (responseId metricId : string) (value : option Z) (store : Store.State)
  : Store.State * list Request :=
  if invalid value then (store, [])
  else
    match Store.setEvaluation activeRecordId (Store.mkPayload responseId metricId value) store with
    | Ok store' =>
        (store', [mkRequest activeRecordId responseId metricId doctorId (default 0%Z value)])
    | Thrown _ => (store, [])
    end.

End EvaluationMetrics.

(** ** The case page (the Index component) *)

Module Index.

Import Services.

(** A model output of a record: [{ responseId, response }]. *)
Record ModelOutput := mkModelOutput {
  responseId : string;
  response : string
}.

(** The active record, as far as the page reads it. *)
Record CaseRecord := mkCaseRecord {
  id : string;
  modelOutputs : list ModelOutput
}.

(** A notification: [toast({ title, description, variant })]. *)
Record Toast := mkToast {
  title : string;
  description : string;
  variant : option string
}.

(** What the page holds and changes: the store, the notifications raised so
    far (the latest last) and the [isSubmitting] flag. *)
Record Page := mkPage {
  store : Store.State;
  toasts : list Toast;
  isSubmitting : bool
}.

Definition toast (t : Toast) (page : Page) : Page :=
  mkPage (store page) (toasts page ++ [t]) (isSubmitting page).

Definition setIsSubmitting (b : bool) (page : Page) : Page :=
  mkPage (store page) (toasts page) b.

Definition withStore (f : Store.State → Store.State) (page : Page) : Page :=
  mkPage (f (store page)) (toasts page) (isSubmitting page).

(** [!metrics.length || metrics[0].id === '0'] *)
Definition notReady (metrics : list Metric.t) : bool :=
  match metrics with
  | [] => true
  | m :: _ => bool_decide (Metric.id m = "0")
  end.

(** [existingEvaluations.filter(evaluation => evaluation.model_response === rid)] *)
Definition filterByResponse (rid : string) (existing : EvaluationsBody)
  : result (list EvaluationData) :=
  match existing with
  | EvaluationList evaluations =>
      Ok (List.filter (λ evaluation, bool_decide (model_response evaluation = rid)) evaluations)
  | NotAList => Thrown "TypeError: existingEvaluations.filter is not a function"
  end.

(** [x || null] on a score: 0 is falsy. *)
Definition orNull (s : option Z) : option Z :=
  match s with
  | Some 0%Z | None => None
  | Some v => Some v
  end.

(** [modelEvaluations.find(evaluation => evaluation.metric === metric.id)?.score || null] *)
Definition existingValue (modelEvaluations : list EvaluationData) (metricId : string) : option Z :=
  orNull (score <$> find (λ evaluation, bool_decide (metric evaluation = metricId))
                         modelEvaluations).

(** The score of the remote evaluation of a response and a metric (of the
    first one, when several match). *)
Definition remoteScore (existing : list EvaluationData) (rid mid : string) : option Z :=
  score <$> find (λ e, bool_decide (model_response e = rid) && bool_decide (metric e = mid))
                 existing.

(** The callback of [Array.from({ length: 3 }, ...)] at one index. *)
Definition defaultScore (outputs : list ModelOutput) (metrics : list Metric.t)
    (existing : EvaluationsBody) (index : nat) : result Evaluation.t :=
  let output := outputs !! index in
  modelEvaluations ←
    match output with
    | Some o => filterByResponse (responseId o) existing
    | None => Ok []
    end;
  Ok (Evaluation.mk
        (match output with
         | Some o => if bool_decide (responseId o = "") then modelName index else responseId o
         | None => modelName index
         end)
        ((λ m, MetricScore.mk (Metric.id m) (Metric.name m) (Some (Metric.description m))
                 (existingValue modelEvaluations (Metric.id m))) <$> metrics)).

(** [defaultScores]: the structure handed to [initAtId]. *)
Definition defaultScores (outputs : list ModelOutput) (metrics : list Metric.t)
    (existing : EvaluationsBody) : result (list Evaluation.t) :=
  s0 ← defaultScore outputs metrics existing 0;
  s1 ← defaultScore outputs metrics existing 1;
  s2 ← defaultScore outputs metrics existing 2;
  Ok [s0; s1; s2].

Definition initToast : Toast :=
  mkToast "Error" "Failed to initialize evaluation data. Please refresh the page."
          (Some "destructive").

(** The hydration effect with [initializeEvaluations]; [fetched] is how the
    request of [getExistingEvaluations] ends. *)
Definition initializeEvaluations (activeRecord : CaseRecord) (metrics : list Metric.t)
    (fetched : Http EvaluationsBody) (page : Page) : Page :=
  if bool_decide (id activeRecord = "") || notReady metrics then page
  else
    let page1 := setIsSubmitting true page in
    let existingEvaluations := getExistingEvaluations fetched in
    let page2 :=
      match defaultScores (modelOutputs activeRecord) metrics existingEvaluations with
      | Ok scores => withStore (Store.initAtId (id activeRecord) scores) page1
      | Thrown _ => toast initToast page1
      end in
    setIsSubmitting false page2.

(** [metric.value !== null && metric.value > 0] *)
Definition scored (metric : MetricScore.t) : bool :=
  match MetricScore.value metric with
  | Some v => bool_decide (v > 0)%Z
  | None => false
  end.

(** The arguments of the calls of [updateSingleEvaluation], in the order of
    [currentEvaluations.flatMap(...)]. *)
Definition submissionCalls (caseId evaluatorId : string) (currentEvaluations : list Evaluation.t)
  : list PersistCall :=
  evaluation ← currentEvaluations;
  (λ metric, mkPersistCall caseId (Evaluation.responseId evaluation) (MetricScore.id metric)
               evaluatorId (default 0%Z (MetricScore.value metric)))
    <$> List.filter scored (Evaluation.metrics evaluation).

(** The persist call a record of the score matrix asks for: one when its
    value is not null and greater than 0, none otherwise. *)
Definition persistFor (caseId evaluatorId : string) (x : string * MetricScore.t)
  : option PersistCall :=
  match MetricScore.value x.2 with
  | Some v =>
      if bool_decide (0 < v)%Z
      then Some (mkPersistCall caseId x.1 (MetricScore.id x.2) evaluatorId v)
      else None
  | None => None
  end.

(** [await Promise.all(promises)]: the values in order, or the rejection. *)
Fixpoint promiseAll {A : Type} (promises : list (Http A)) : result (list A) :=
  match promises with
  | [] => Ok []
  | Resolved a :: promises' => rest ← promiseAll promises'; Ok (a :: rest)
  | Rejected :: _ => Thrown "rejected"
  end.

Definition successToast : Toast :=
  mkToast "Success" "All evaluations submitted successfully" None.

(** [`${completed} of ${total} evaluations completed`] *)
Definition partialToast (p : Progress) : Toast :=
  mkToast "Partial Success"
          (pretty (completed p) +:+ " of " +:+ pretty (total p) +:+ " evaluations completed")
          (Some "default").

Definition failureToast : Toast :=
  mkToast "Error" "Failed to submit evaluations. Please try again." (Some "destructive").

(** What a submission did: the page after it and the persist calls it issued. *)
Record Submission := mkSubmission {
  page : Page;
  calls : list PersistCall
}.

(** The [try] block of [handleSubmit].  [backend n call] is how the [n]-th
    call ends.  The calls are all issued before any is awaited.  For a case
    with no entry [evaluation[activeRecord.id]] reads [undefined], or, when
    the id is a name every object inherits, a value that has no [flatMap]:
    the block throws either way. *)
Definition submitTry (caseId : string) (doctorId : option string)
    (backend : nat → PersistCall → Http PersistResponse) (page : Page)
  : list PersistCall * result Page :=
  match doctorId with
  | None | Some "" => ([], Thrown "No evaluator ID found")
  | Some evaluatorId =>
      match Store.evaluation (store page) !! caseId with
      | None =>
          ([], Thrown (if Store.inherited caseId
                       then "TypeError: currentEvaluations.flatMap is not a function"
                       else "No evaluations found for submission"))
      | Some currentEvaluations =>
          let issued := submissionCalls caseId evaluatorId currentEvaluations in
          (issued,
           results ← promiseAll (imap (λ n call, updateSingleEvaluation (backend n call)) issued);
           lastResult ← orThrow "TypeError: lastResult is undefined" (last results);
           if bool_decide (status lastResult = "completed") then
             Ok (withStore (Store.setDoneForId caseId true) (toast successToast page))
           else
             p ← orThrow "TypeError: lastResult.progress is undefined" (progress lastResult);
             Ok (toast (partialToast p) page))
      end
  end.

(** [handleSubmit] *)
Definition handleSubmit (activeRecord : CaseRecord) (doctorId : option string)
    (backend : nat → PersistCall → Http PersistResponse) (page : Page) : Submission :=
  if bool_decide (id activeRecord = "") then mkSubmission page []
  else
    let page1 := setIsSubmitting true page in
    let '(issued, outcome) := submitTry (id activeRecord) doctorId backend page1 in
    let page2 :=
      match outcome with
      | Ok page' => page'
      | Thrown _ => toast failureToast page1
      end in
    mkSubmission (setIsSubmitting false page2) issued.

End Index.

(** ** The store's operations in sequence *)

Module StoreOps.

(** One call of an operation of the store. *)
Inductive Op :=
| SetEvaluation (idx : string) (payload : Store.Payload)
| InitAtId (idx : string) (payload : list Evaluation.t)
| SetDoneForId (idx : string) (status : bool)
| ResetDoneStatus
| Init (initData : gmap string (list Evaluation.t)).

(** The store after one call; a [setEvaluation] that throws leaves it as it
    is. *)
Definition step (state : Store.State) (op : Op) : Store.State :=
  match op with
  | SetEvaluation idx payload => Store.afterSetEvaluation idx payload state
  | InitAtId idx payload => Store.initAtId idx payload state
  | SetDoneForId idx status => Store.setDoneForId idx status state
  | ResetDoneStatus => Store.resetDoneStatus state
  | Init initData => Store.init initData state
  end.

Definition run (ops : list Op) (state : Store.State) : Store.State :=
  foldl step state ops.

(** The operations that write the flag of [idx]. *)
Definition writesFlag (idx : string) (op : Op) : bool :=
  match op with
  | SetDoneForId idx' _ => bool_decide (idx' = idx)
  | ResetDoneStatus | Init _ => true
  | SetEvaluation _ _ | InitAtId _ _ => false
  end.

(** The operations that write the entry of [idx]. *)
Definition writesEntry (idx : string) (op : Op) : bool :=
  match op with
  | SetEvaluation idx' _ | InitAtId idx' _ => bool_decide (idx' = idx)
  | Init _ => true
  | SetDoneForId _ _ | ResetDoneStatus => false
  end.

End StoreOps.

(** ** The metrics table (components/EvaluationMetrics.tsx, the render) *)

Module MetricsTable.

(** A JavaScript number where it need not be whole: a finite value (every
    finite double is a rational), [NaN] or an infinity. *)
Inductive Number :=
| Finite (q : Q)
| NaN
| PosInfinity
| NegInfinity.

Definition ofZ (z : Z) : Number := Finite (inject_Z z).

(** [x < c] and [x > c] for a finite [c]; a comparison with [NaN] is false. *)
Definition lt (x : Number) (c : Q) : bool :=
  match x with
  | Finite q => negb (Qle_bool c q)
  | NegInfinity => true
  | NaN | PosInfinity => false
  end.

Definition gt (x : Number) (c : Q) : bool :=
  match x with
  | Finite q => negb (Qle_bool q c)
  | PosInfinity => true
  | NaN | NegInfinity => false
  end.

(** [value !== null && (value < 1 || value > 5)], the test of
    [updateEvaluation], on any number. *)
Definition invalidNumber (value : option Number) : bool :=
  match value with
  | None => false
  | Some x => lt x 1 || gt x 5
  end.

(** The [colors] object of [getScoreColor]; its keys are 1 to 5. *)
Definition colors : list (Z * string) :=
  [(1, "bg-red-500/20 text-red-500");
   (2, "bg-orange-500/20 text-orange-500");
   (3, "bg-yellow-500/20 text-yellow-500");
   (4, "bg-lime-500/20 text-lime-500");
   (5, "bg-green-500/20 text-green-500")]%Z.

(** [colors[score]]: the property named by the number written as a string,
    which is a key of [colors] for the numbers 1 to 5 and for no other
    (and no name that an object inherits is the string of a number). *)
Definition colorOf (score : Number) : option string :=
  match score with
  | Finite q => snd <$> find (λ kv : Z * string, Qeq_bool q (inject_Z kv.1)) colors
  | NaN | PosInfinity | NegInfinity => None
  end.

(** [getScoreColor(score)]: [colors[score] || ''], [''] for [null]. *)
Definition getScoreColor (score : option Number) : string :=
  match score with
  | None => ""
  | Some x => default "" (colorOf x)
  end.

(** An element of the [modelResponses] prop. *)
Record ModelResponse := mkModelResponse {
  id : string;
  model_name : string;
  response : Index.ModelOutput
}.

(** The [modelResponses] the page hands to the table:
    [Array.from({ length: 3 }, (_, index) => ...)] over [modelReports], the
    shuffled model outputs. *)
Definition modelResponse (modelReports : list Index.ModelOutput) (index : nat) : ModelResponse :=
  let report := modelReports !! index in
  mkModelResponse
    (match report with
     | Some r => if bool_decide (Index.responseId r = "") then modelName index
                 else Index.responseId r
     | None => modelName index
     end)
    ("Model " +:+ pretty (index + 1)%nat)
    (match report with
     | Some r => r
     | None => Index.mkModelOutput (modelName index) ""
     end).

Definition modelResponses (modelReports : list Index.ModelOutput) : list ModelResponse :=
  modelResponse modelReports <$> seq 0 3.

(** [modelResponse.response && modelResponse.response.response] *)
Definition hasText (mr : ModelResponse) : bool :=
  negb (bool_decide (Index.response (response mr) = "")).

(** [activeEvaluation?.find(m => m.responseId === modelResponse.id) || { ... }] *)
Definition rowModel (activeEvaluation : list Evaluation.t) (metrics : list Metric.t)
    (mr : ModelResponse) : Evaluation.t :=
  match find (λ m, bool_decide (Evaluation.responseId m = id mr)) activeEvaluation with
  | Some model => model
  | None =>
      Evaluation.mk (id mr)
        ((λ m, MetricScore.mk (Metric.id m) (Metric.name m) None None) <$> metrics)
  end.

(** [score ?? ''] for [score = model.metrics.find(x => x.id === metric.id)?.value]:
    the value of the select, [None] for the empty option. *)
Definition selected (model : Evaluation.t) (metric : Metric.t) : option Z :=
  match find (λ x, bool_decide (MetricScore.id x = Metric.id metric)) (Evaluation.metrics model) with
  | Some x => MetricScore.value x
  | None => None
  end.

(** A row of the table: the name shown, the responseId its edits carry and
    the value of the select of every metric. *)
Record Row := mkRow {
  row_name : string;
  row_responseId : string;
  row_cells : list (option Z)
}.

Definition row (activeEvaluation : list Evaluation.t) (metrics : list Metric.t)
    (mr : ModelResponse) : Row :=
  let model := rowModel activeEvaluation metrics mr in
  mkRow (model_name mr) (Evaluation.responseId model) (selected model <$> metrics).

(** The values an [onChange] of a select can carry: the empty option and
    the options 1 to 5. *)
Definition selectOptions : list (option Z) :=
  None :: (Some <$> [1; 2; 3; 4; 5]%Z).

End MetricsTable.

(** ** The page's effects on mount (the Index component) *)

Module Session.

(** [URLSearchParams]: the parameters in order; [get] reads the first of a
    name, [delete] removes all of a name. *)
Definition get (name : string) (params : list (string * string)) : option string :=
  snd <$> find (λ kv, bool_decide (kv.1 = name)) params.

Definition delete (name : string) (params : list (string * string)) : list (string * string) :=
  List.filter (λ kv, negb (bool_decide (kv.1 = name))) params.

(** The address of the page: its path and the parameters of its query. *)
Record Location := mkLocation {
  pathname : string;
  search : list (string * string)
}.

(** The first effect: with [force=true], [resetDoneStatus()], then
    [setState({ evaluation: {}, doneForId: {} })], then the address is
    replaced by the path and the parameters left once [force] is deleted. *)
Definition forceReset (location : Location) (store : Store.State) : Location * Store.State :=
  if bool_decide (get "force" (search location) = Some "true") then
    let store1 := Store.resetDoneStatus store in
    (mkLocation (pathname location) (delete "force" (search location)),
     Store.mkState ∅ ∅)
  else (location, store).

(** The fallback metrics of [getMetrics]. *)
Definition fallbackMetrics : list Services.jsval :=
  [Services.JObject [("id", Services.JString "1"); ("name", Services.JString "Accuracy")];
   Services.JObject [("id", Services.JString "2"); ("name", Services.JString "Completeness")];
   Services.JObject [("id", Services.JString "3"); ("name", Services.JString "Relevance")]].

(** [getMetrics] (services/index.ts).  The response is the body of
    [GET metrics/], whatever it is.  The elements of the body when it passes
    [!response.data || !Array.isArray(response.data) || response.data.length === 0],
    that is when it is a non-empty array; the fallback metrics otherwise and
    on any error. *)
Definition getMetrics (response : Services.Http Services.jsval) : list Services.jsval :=
  match response with
  | Services.Resolved (Services.JArray (m :: ms)) => m :: ms
  | _ => fallbackMetrics
  end.

(** An element of the [metrics] state: [{ id, name, description }] with
    whatever the fields hold. *)
Record Formatted := mkFormatted {
  id : Services.jsval;
  name : Services.jsval;
  description : Services.jsval
}.

(** [metric => ({ id: metric.id, name: metric.name, description: metric.description || '' })]:
    reading a field of [null] or [undefined] throws. *)
Definition formatMetric (metric : Services.jsval) : result Formatted :=
  i ← Services.getProp metric "id";
  n ← Services.getProp metric "name";
  d ← Services.getProp metric "description";
  Ok (mkFormatted i n (Services.orElse d (Services.JString ""))).

(** The state [metrics] starts from. *)
Definition initialMetrics : list Formatted :=
  [mkFormatted (Services.JString "0") (Services.JString "Loading...")
               (Services.JString "Loading metrics...")].

Definition noMetricsToast : Index.Toast :=
  Index.mkToast "Error" "No metrics found. Please contact support." (Some "destructive").

Definition loadFailedToast : Index.Toast :=
  Index.mkToast "Error" "Failed to load metrics from the backend" (Some "destructive").

(** The [try] block of [fetchMetrics]: what it hands to [setMetrics], if
    anything, and the notifications it raises. *)
Definition fetchMetricsTry (response : Services.Http Services.jsval)
  : result (option (list Formatted) * list Index.Toast) :=
  match getMetrics response with
  | [] => Ok (None, [noMetricsToast])
  | metricsData =>
      formattedMetrics ← mapM formatMetric metricsData;
      Ok (Some formattedMetrics, [])
  end.

(** [fetchMetrics]: the [metrics] state and the notifications after it. *)
Definition fetchMetrics (response : Services.Http Services.jsval)
    (metrics : list Formatted) (toasts : list Index.Toast)
  : list Formatted * list Index.Toast :=
  match fetchMetricsTry response with
  | Ok (formattedMetrics, raised) => (default metrics formattedMetrics, toasts ++ raised)
  | Thrown _ => (metrics, toasts ++ [loadFailedToast])
  end.

(** A formatted metric as the type [Metric] reads it: its three fields are
    strings. *)
Definition asMetric (metric : Formatted) : option Metric.t :=
  match id metric, name metric, description metric with
  | Services.JString i, Services.JString n, Services.JString d => Some (Metric.mk i n d)
  | _, _, _ => None
  end.

(** A metric as the backend is meant to send it, and the object it is sent
    as. *)
Record RawMetric := mkRawMetric {
  raw_id : string;
  raw_name : string;
  raw_description : option string
}.

Definition sent (metric : RawMetric) : Services.jsval :=
  Services.JObject
    ([("id", Services.JString (raw_id metric)); ("name", Services.JString (raw_name metric))]
     ++ match raw_description metric with
        | Some d => [("description", Services.JString d)]
        | None => []
        end).

(** The element of the [metrics] state that such an object is to become. *)
Definition formatSent (raw : RawMetric) : Formatted :=
  mkFormatted (Services.JString (raw_id raw)) (Services.JString (raw_name raw))
              (Services.JString (default "" (raw_description raw))).

End Session.

(** ** The image viewer (components/ImageViewer.tsx) *)

Module ImageViewer.

(** The zoom level, a rational here: the levels reached are multiples of a
    quarter, which the floating-point numbers of the code hold exactly. *)
Definition initialZoom : Q := 1.

(** [Math.min(prev + 0.25, 3)] *)
Definition handleZoomIn (prev : Q) : Q := Qmin (prev + 0.25) 3.

(** [Math.max(prev - 0.25, 0.5)] *)
Definition handleZoomOut (prev : Q) : Q := Qmax (prev - 0.25) 0.5.

Inductive Click := ZoomIn | ZoomOut.

Definition click (zoomLevel : Q) (c : Click) : Q :=
  match c with
  | ZoomIn => handleZoomIn zoomLevel
  | ZoomOut => handleZoomOut zoomLevel
  end.

Definition clicks (cs : list Click) : Q := foldl click initialZoom cs.

End ImageViewer.

(** ** What an edit may change *)

Module Shape.

(** An entry without its values: the responseId of every slot and the id,
    name and description of every record, in order. *)
Definition shape (entry : list Evaluation.t)
  : list (string * list (string * string * option string)) :=
  (λ model,
     (Evaluation.responseId model,
      (λ x, (MetricScore.id x, MetricScore.name x, MetricScore.description x))
        <$> Evaluation.metrics model)) <$> entry.

(** The number of metric records of an entry. *)
Definition recordCount (entry : list Evaluation.t) : nat := length (Store.records entry).

End Shape.

(** ** More of the adapter (services/index.ts) *)

Module Adapter.

Import Services.

(** What a promise of the adapter is rejected with: the error of the
    transport, with the status of the response when one was received
    ([error.response?.status]), or an error thrown in JavaScript, with its
    message. *)
Inductive Failure :=
| HttpError (status : option Z)
| JsError (message : string).

(** How a request ends. *)
Inductive Reply :=
| Body (data : jsval)
| Failed (status : option Z).

(** How a call of an adapter function ends. *)
Inductive Promise (A : Type) : Type :=
| Fulfilled (a : A)
| RejectedWith (e : Failure).
Arguments Fulfilled {A} a.
Arguments RejectedWith {A} e.

Definition timeoutMessage : string :=
  "Request timeout - the server took too long to respond. Please try again.".

(** The [catch] of [getRecords] and of [getEvaluatorCasesWithDetails]:
    [if (error.response) { if (error.response.status === 504) throw new Error(...) } throw error]. *)
Definition rethrow (e : Failure) : Failure :=
  match e with
  | HttpError (Some 504%Z) => JsError timeoutMessage
  | _ => e
  end.

(** A [try] block that awaits a request and then computes, under that [catch]. *)
Definition attempt {A : Type} (reply : Reply) (body : jsval → result A) : Promise A :=
  match reply with
  | Failed status => RejectedWith (rethrow (HttpError status))
  | Body data =>
      match body data with
      | Ok a => Fulfilled a
      | Thrown message => RejectedWith (rethrow (JsError message))
      end
  end.

(** [(v || []).map(f)]: a [TypeError] when [v] is truthy and has no [map]
    function, that is, when it is not an array. *)
Definition mapOrEmpty {A : Type} (v : jsval) (f : jsval → result A) : result (list A) :=
  match orElse v (JArray []) with
  | JArray elems => mapM f elems
  | _ => Thrown "TypeError"
  end.

(** *** [getEvaluatorCasesWithDetails] *)

(** [interface CaseWithDetails], as the mapping builds it. *)
Record CaseWithDetails := mkCaseWithDetails {
  case_id : jsval;
  case_image_id : jsval;
  case_image_url : jsval;
  case_status : jsval;
  completed_evaluations : jsval;
  total_evaluations : jsval;
  last_updated : jsval
}.

(** What the function resolves with: the body as it is, or the object it
    builds. *)
Inductive CasesResponse :=
| AsReceived (casesData : jsval)
| Rebuilt (cases : list CaseWithDetails)
          (total_cases pending_cases in_progress_cases completed_cases : jsval).

Definition caseWithDetails (caseItem : jsval) : result CaseWithDetails :=
  i ← getProp caseItem "id";
  image_id ← getProp caseItem "image_id";
  image_url ← getProp caseItem "image_url";
  status ← getProp caseItem "status";
  completed ← getProp caseItem "completed_evaluations";
  total ← getProp caseItem "total_evaluations";
  updated ← getProp caseItem "updated_at";
  created ← getProp caseItem "created_at";
  Ok (mkCaseWithDetails i image_id image_url
        (orElse status (JString "pending"))
        (orElse completed (JNumber 0)) (orElse total (JNumber 0))
        (orElse updated created)).

Definition isArray (v : jsval) : bool :=
  match v with
  | JArray _ => true
  | _ => false
  end.

(** The [try] block after the request. *)
Definition casesWithDetails (casesData : jsval) : result CasesResponse :=
  cases ← getProp casesData "cases";
  if truthy cases && isArray cases then Ok (AsReceived casesData)
  else
    rebuilt ← mapOrEmpty cases caseWithDetails;
    total ← getProp casesData "total_cases";
    pending ← getProp casesData "pending_cases";
    in_progress ← getProp casesData "in_progress_cases";
    completed ← getProp casesData "completed_cases";
    Ok (Rebuilt rebuilt (orElse total (JNumber 0)) (orElse pending (JNumber 0))
          (orElse in_progress (JNumber 0)) (orElse completed (JNumber 0))).

Definition getEvaluatorCasesWithDetails (reply : Reply) : Promise CasesResponse :=
  attempt reply casesWithDetails.

(** *** [getRecords] *)

Record EvaluationRecord := mkEvaluationRecord {
  ev_responseId : jsval;
  ev_metricId : jsval;
  ev_metricName : jsval;
  ev_score : jsval
}.

Record OutputRecord := mkOutputRecord {
  out_responseId : jsval;
  out_response : jsval;
  out_evaluations : list EvaluationRecord
}.

Record MetricRecord := mkMetricRecord {
  met_id : jsval;
  met_name : jsval;
  met_description : jsval
}.

(** [recordData], without its [models], which is always the empty array. *)
Record RecordData := mkRecordData {
  rec_id : jsval;
  rec_imageUrl : jsval;
  rec_image_id : jsval;
  rec_status : jsval;
  rec_modelOutputs : list OutputRecord;
  rec_metrics : list MetricRecord;
  rec_evaluations : list EvaluationRecord;
  rec_groundTruth : GroundTruth;
  rec_navigation : jsval
}.

(** [{ responseId, metricId, metricName, score: evaluation.score || 0 }] *)
Definition evaluationRecord (evaluation : jsval) : result EvaluationRecord :=
  r ← getProp evaluation "responseId";
  m ← getProp evaluation "metricId";
  n ← getProp evaluation "metricName";
  s ← getProp evaluation "score";
  Ok (mkEvaluationRecord r m n (orElse s (JNumber 0))).

(** [{ responseId, response: response.response || '', evaluations: (response.evaluations || []).map(...) }] *)
Definition outputRecord (response : jsval) : result OutputRecord :=
  r ← getProp response "responseId";
  text ← getProp response "response";
  evaluations ← getProp response "evaluations";
  evs ← mapOrEmpty evaluations evaluationRecord;
  Ok (mkOutputRecord r (orElse text (JString "")) evs).

Definition metricRecord (metric : jsval) : result MetricRecord :=
  i ← getProp metric "id";
  n ← getProp metric "name";
  d ← getProp metric "description";
  Ok (mkMetricRecord i n d).

Section Records.

Variable JSON_parse : string → option jsval.

(** The record built from a payload; [imageUrlKey] and [imageIdKey] are the
    keys the image is read from ([imageUrl] and [imageId] for a case,
    [image_url] and [image_id] for an item of an evaluator's cases). *)
Definition recordData (imageUrlKey imageIdKey : string) (data : jsval) : result RecordData :=
  i ← getProp data "id";
  imageUrl ← getProp data imageUrlKey;
  image_id ← getProp data imageIdKey;
  status ← getProp data "status";
  modelOutputs ← getProp data "modelOutputs";
  outputs ← mapOrEmpty modelOutputs outputRecord;
  metrics ← getProp data "metrics";
  mets ← mapOrEmpty metrics metricRecord;
  evaluations ← getProp data "evaluations";
  evs ← mapOrEmpty evaluations evaluationRecord;
  gt ← getProp data "groundTruth";
  navigation ← getProp data "navigation";
  Ok (mkRecordData i imageUrl image_id status outputs mets evs
        (groundTruth JSON_parse gt) (orElse navigation JUndefined)).

Definition invalidMessage : string := "Invalid case data structure received from server".

(** The case branch after the request: [!data || !data.imageUrl] throws. *)
Definition caseRecords (data : jsval) : result (list RecordData) :=
  if negb (truthy data) then Thrown invalidMessage
  else
    imageUrl ← getProp data "imageUrl";
    if negb (truthy imageUrl) then Thrown invalidMessage
    else r ← recordData "imageUrl" "imageId" data; Ok [r].

(** The other branch: [casesData.map(...)]. *)
Definition evaluatorRecords (casesData : jsval) : result (list RecordData) :=
  match casesData with
  | JArray items => mapM (recordData "image_url" "image_id") items
  | _ => Thrown "TypeError"
  end.

(** [isCaseId = !doctorId || id !== doctorId] *)
Definition isCaseId (id : string) (doctorId : option string) : bool :=
  match doctorId with
  | None | Some "" => true
  | Some d => negb (bool_decide (id = d))
  end.

(** [getRecords(id)]; [caseReply] is how [GET cases/{id}/full_details/] ends
    and [casesReply] how [GET users/{id}/cases/] ends, for the one of the two
    that is requested. *)
Definition getRecords (id : string) (doctorId : option string)
    (caseReply casesReply : Reply) : Promise (list RecordData) :=
  if isCaseId id doctorId then attempt caseReply caseRecords
  else attempt casesReply evaluatorRecords.

End Records.

(** *** What the records built are like *)

(** Everything the mappings throw is the [TypeError] of a property read or of
    a [map] that is no function. *)
Definition typeErrors {A : Type} (m : result A) : Prop :=
  ∀ e, m = Thrown e → e = "TypeError".

(** [v || default] gave this value. *)
Definition defaulted (default v : jsval) : Prop :=
  truthy v = true ∨ v = default.

Definition scoreSet (e : EvaluationRecord) : Prop :=
  defaulted (JNumber 0) (ev_score e).

(** Every score of the record is a truthy value or [0], every response text
    a truthy value or the empty string. *)
Definition normalised (r : RecordData) : Prop :=
  Forall scoreSet (rec_evaluations r) ∧
  Forall (λ o, defaulted (JString "") (out_response o) ∧ Forall scoreSet (out_evaluations o))
         (rec_modelOutputs r).

(** [data && data.imageUrl] is truthy. *)
Definition hasImageUrl (data : jsval) : bool :=
  truthy data &&
  match getProp data "imageUrl" with
  | Ok v => truthy v
  | Thrown _ => false
  end.

(** The request [getRecords] sends. *)
Definition requested (id : string) (doctorId : option string)
    (caseReply casesReply : Reply) : Reply :=
  if isCaseId id doctorId then caseReply else casesReply.

End Adapter.

(** ** The store on the heap: what [setEvaluation] writes

    [setEvaluation] pushes to the arrays of the entry and assigns to its
    metric records where they are.  The model below does the same on the
    heap of [Heap]; the properties relate it to [Store.setEvaluation], which
    works on the values. *)

Module HeapStore.

Import Heap.

Definition arrayAt (h : heap) (a : loc) : option (list loc) :=
  match h !! a with
  | Some (OArray ls) => Some ls
  | _ => None
  end.

(** The fields of a response object: its [responseId] and the reference its
    [metrics] holds. *)
Definition modelAt (h : heap) (l : loc) : option (string * loc) :=
  match h !! l with
  | Some (OModel rid ms) => Some (rid, ms)
  | _ => None
  end.

(** [array.findIndex(x => p(x))] on an array of objects: the callback reads
    the objects, up to the first that satisfies [p].  The outer [None] is a
    reference that holds no such object (which the types exclude). *)
Fixpoint findIndexOf {A : Type} (read : loc → option A) (p : A → bool) (ls : list loc)
  : option (option nat) :=
  match ls with
  | [] => Some None
  | l :: ls' =>
      x ← read l;
      if p x then Some (Some 0%nat) else fmap (M := option) S <$> findIndexOf read p ls'
  end.

(** [({ responseId: `model-${index + 1}`, metrics: [] })] *)
Definition newSlot (index : nat) (h : heap) : loc * heap :=
  let '(ms, h1) := alloc (OArray []) h in
  alloc (OModel (modelName index) ms) h1.

(** The calls of the callback of [Array.from], in index order. *)
Fixpoint newSlots (indices : list nat) (h : heap) : list loc * heap :=
  match indices with
  | [] => ([], h)
  | index :: indices' =>
      let '(l, h1) := newSlot index h in
      let '(ls, h2) := newSlots indices' h1 in
      (l :: ls, h2)
  end.

(** [Array.from({ length: 3 }, (_, index) => ...)] *)
Definition defaultEntry (h : heap) : loc * heap :=
  let '(ls, h1) := newSlots (seq 0 3) h in
  alloc (OArray ls) h1.

(** [metrics.push({ id, name: '', value })] or [metrics[metricIndex].value = value],
    on the metric array at [ms]. *)
Definition setMetric (payload : Store.Payload) (ms : loc) (h : heap) : option heap :=
  xs ← arrayAt h ms;
  metricIndex ← findIndexOf (readMetric h)
                  (λ metric, bool_decide (MetricScore.id metric = Store.metricId payload)) xs;
  match metricIndex with
  | None =>
      let '(x, h1) := alloc (OMetric (Store.newMetric payload)) h in
      Some (<[ms := OArray (xs ++ [x])]> h1)
  | Some j =>
      x ← xs !! j;
      metric ← readMetric h x;
      Some (<[x := OMetric (Store.setValue (Store.value payload) metric)]> h)
  end.

(** The body of [setEvaluation] once the entry of the case exists, on the
    array at [entry]. *)
Definition applyEdit (payload : Store.Payload) (entry : loc) (h : heap) : option heap :=
  ls ← arrayAt h entry;
  modelIndex ← findIndexOf (modelAt h)
                 (λ model, bool_decide (model.1 = Store.responseId payload)) ls;
  match modelIndex with
  | None =>
      let '(x, h1) := alloc (OMetric (Store.newMetric payload)) h in
      let '(ms, h2) := alloc (OArray [x]) h1 in
      let '(l, h3) := alloc (OModel (Store.responseId payload) ms) h2 in
      Some (<[entry := OArray (ls ++ [l])]> h3)
  | Some i =>
      l ← ls !! i;
      model ← modelAt h l;
      setMetric payload model.2 h
  end.

(** [if (!state.evaluation[idx]) state.evaluation[idx] = Array.from(...)],
    then [newEvaluation[idx].findIndex]: as in [Store.ensureEntry], a case
    with no entry whose id is a name every object inherits gets no default
    entry, and the call throws before it writes anything. *)
Definition ensureEntry (idx : string) (state : State) : result (loc * heap) :=
  match evaluation state !! idx with
  | Some entry => Ok (entry, objects state)
  | None => if Store.inherited idx
            then Thrown "TypeError: newEvaluation[idx].findIndex is not a function"
            else Ok (defaultEntry (objects state))
  end.

(** [setEvaluation(idx, payload)]: the new [evaluation] object holds, for
    [idx], the array it held (or the one just made), written in place.  The
    inner [None] is a reference that holds no object of the type expected. *)
Definition setEvaluation (idx : string) (payload : Store.Payload) (state : State)
  : result (option State) :=
  match ensureEntry idx state with
  | Thrown e => Thrown e
  | Ok (entry, h) =>
      Ok (h' ← applyEdit payload entry h;
          Some (mkState h' (<[idx := entry]> (evaluation state)) (doneForId state)))
  end.

(** The store after the call, whether it returned or threw: the updater of
    a call that throws sets nothing. *)
Definition afterSetEvaluation (idx : string) (payload : Store.Payload) (state : State)
  : option State :=
  match setEvaluation idx payload state with
  | Ok state' => state'
  | Thrown _ => Some state
  end.

(** [setDoneForId(idx, status)] and [resetDoneStatus()] touch no object. *)
Definition setDoneForId (idx : string) (status : bool) (state : State) : State :=
  mkState (objects state) (evaluation state) (<[idx := status]> (doneForId state)).

Definition resetDoneStatus (state : State) : State :=
  mkState (objects state) (evaluation state) ∅.

(** One call of an operation of the store, as the page makes them; the
    payload of [initAtId] is a reference to the caller's array. *)
Inductive Op :=
| SetEvaluation (idx : string) (payload : Store.Payload)
| InitAtId (idx : string) (payload : loc)
| SetDoneForId (idx : string) (status : bool)
| ResetDoneStatus.

Definition step (state : State) (op : Op) : option State :=
  match op with
  | SetEvaluation idx payload => afterSetEvaluation idx payload state
  | InitAtId idx payload => initAtId idx payload state
  | SetDoneForId idx status => Some (setDoneForId idx status state)
  | ResetDoneStatus => Some (resetDoneStatus state)
  end.

Fixpoint run (ops : list Op) (state : State) : option State :=
  match ops with
  | [] => Some state
  | op :: ops' => state' ← step state op; run ops' state'
  end.



(** *** Which objects an entry is made of *)

Definition elems (h : heap) (a : loc) : list loc := default [] (arrayAt h a).






(** *** The objects of an entry, laid out *)

(** A response object at [slotAt], with its [responseId], the metric array
    at [metricsAt], and the metric objects of that array with the records
    they hold. *)
Record Slot := mkSlot {
  slotAt : loc;
  slotId : string;
  metricsAt : loc;
  cellsAt : list (loc * MetricScore.t)
}.

Definition slotLocs (s : Slot) : list loc :=
  slotAt s :: metricsAt s :: (cellsAt s).*1.

Definition entryLocs (entry : loc) (T : list Slot) : list loc :=
  entry :: (T ≫= slotLocs).


Definition holdsCell (h : heap) (c : loc * MetricScore.t) : Prop :=
  h !! c.1 = Some (OMetric c.2).

Definition holdsSlot (h : heap) (s : Slot) : Prop :=
  h !! slotAt s = Some (OModel (slotId s) (metricsAt s)) ∧
  h !! metricsAt s = Some (OArray (cellsAt s).*1) ∧
  Forall (holdsCell h) (cellsAt s).

Definition holds (h : heap) (entry : loc) (T : list Slot) : Prop :=
  h !! entry = Some (OArray (slotAt <$> T)) ∧ Forall (holdsSlot h) T.

End HeapStore.

(** * Properties *)

(** ** The store: [setEvaluation] *)

Section StoreFacts.
Import Store.

Lemma setMetric_nil p : setMetric p [] = [newMetric p].
Proof. reflexivity. Qed.

Lemma setMetric_cons p x ms :
  setMetric p (x :: ms) =
  if bool_decide (MetricScore.id x = metricId p)
  then setValue (value p) x :: ms
  else x :: setMetric p ms.
Proof.
  unfold setMetric; simpl.
  destruct (bool_decide (MetricScore.id x = metricId p)); [reflexivity|].
  destruct (findIndex _ ms); reflexivity.
Qed.

Lemma applyEdit_nil p :
  applyEdit p [] = [Evaluation.mk (responseId p) [newMetric p]].
Proof. reflexivity. Qed.

Lemma applyEdit_cons p m entry :
  applyEdit p (m :: entry) =
  if bool_decide (Evaluation.responseId m = responseId p)
  then Evaluation.mk (Evaluation.responseId m) (setMetric p (Evaluation.metrics m)) :: entry
  else m :: applyEdit p entry.
Proof.
  unfold applyEdit; simpl.
  destruct (bool_decide (Evaluation.responseId m = responseId p)); [reflexivity|].
  destruct (findIndex _ entry); reflexivity.
Qed.

Ltac step_edit :=
  repeat first
    [ rewrite setMetric_cons | rewrite applyEdit_cons
    | rewrite setMetric_nil | rewrite applyEdit_nil
    | progress simpl in * | case_bool_decide ];
  try congruence; try done.

(** The cell just written reads back the value written. *)
Lemma setMetric_find p ms :
  MetricScore.value <$> find (λ x, bool_decide (MetricScore.id x = metricId p)) (setMetric p ms)
  = Some (value p).
Proof. induction ms as [|x ms IH]; step_edit. Qed.

Lemma applyEdit_cell p entry :
  cell (applyEdit p entry) (responseId p) (metricId p) = Some (value p).
Proof.
  unfold cell.
  induction entry as [|m entry IH]; step_edit.
  apply setMetric_find.
Qed.

(** The same edit twice is the edit once. *)
Lemma setMetric_idem p ms : setMetric p (setMetric p ms) = setMetric p ms.
Proof. induction ms as [|x ms IH]; step_edit. Qed.

Lemma applyEdit_idem p entry : applyEdit p (applyEdit p entry) = applyEdit p entry.
Proof.
  induction entry as [|m entry IH]; step_edit.
  by rewrite setMetric_idem.
Qed.

(** The records of the other pairs stay as they are, in their order. *)
Lemma records_cons m entry :
  records (m :: entry) =
  ((λ metric, (Evaluation.responseId m, metric)) <$> Evaluation.metrics m) ++ records entry.
Proof. reflexivity. Qed.

Lemma setMetric_others rid p ms :
  List.filter (λ x, negb (isPair rid (metricId p) x))
    ((λ metric, (rid, metric)) <$> setMetric p ms)
  = List.filter (λ x, negb (isPair rid (metricId p) x)) ((λ metric, (rid, metric)) <$> ms).
Proof.
  unfold isPair.
  induction ms as [|x ms IH]; step_edit.
  f_equal. exact IH.
Qed.

Lemma applyEdit_others p entry :
  otherRecords (responseId p) (metricId p) (applyEdit p entry)
  = otherRecords (responseId p) (metricId p) entry.
Proof.
  unfold otherRecords.
  induction entry as [|m entry IH].
  - rewrite applyEdit_nil. unfold isPair. step_edit.
  - rewrite applyEdit_cons. case_bool_decide as Hm.
    + rewrite !records_cons, !List.filter_app. simpl. f_equal.
      rewrite Hm. apply setMetric_others.
    + rewrite !records_cons, !List.filter_app. by rewrite IH.
Qed.

(** The ids an edit leaves in a slot, and the slots it leaves in an entry. *)
Lemma setMetric_ids p ms y :
  y ∈ MetricScore.id <$> setMetric p ms → y ∈ MetricScore.id <$> ms ∨ y = metricId p.
Proof.
  induction ms as [|x ms IH]; step_edit.
  - rewrite list_elem_of_singleton. auto.
  - auto.
  - rewrite !elem_of_cons. intros [->|Hy]; [auto|]. destruct (IH Hy); auto.
Qed.

Lemma setMetric_NoDup p ms :
  NoDup (MetricScore.id <$> ms) → NoDup (MetricScore.id <$> setMetric p ms).
Proof.
  induction ms as [|x ms IH]; step_edit.
  - intros _. apply NoDup_singleton.
  - rewrite !NoDup_cons. intros [Hx Hms]. split; [|auto].
    intros Hin. destruct (setMetric_ids _ _ _ Hin); done.
Qed.

Lemma applyEdit_ids p entry y :
  y ∈ Evaluation.responseId <$> applyEdit p entry →
  y ∈ Evaluation.responseId <$> entry ∨ y = responseId p.
Proof.
  induction entry as [|m entry IH]; step_edit.
  - rewrite list_elem_of_singleton. auto.
  - auto.
  - rewrite !elem_of_cons. intros [->|Hy]; [auto|]. destruct (IH Hy); auto.
Qed.

Lemma applyEdit_uniqueIds p entry : uniqueIds entry → uniqueIds (applyEdit p entry).
Proof.
  unfold uniqueIds.
  induction entry as [|m entry IH]; step_edit.
  - intros _. split; [apply NoDup_singleton|].
    apply Forall_singleton. simpl. apply NoDup_singleton.
  - rewrite !NoDup_cons, !Forall_cons. intros [[Hm Hn] [Hms Hf]].
    repeat split; auto. simpl. by apply setMetric_NoDup.
  - rewrite !NoDup_cons, !Forall_cons. intros [[Hm Hn] [Hms Hf]].
    destruct IH as [IH1 IH2]; [done|].
    repeat split; auto.
    intros Hin. destruct (applyEdit_ids _ _ _ Hin); done.
Qed.

Lemma defaultEntry_uniqueIds : uniqueIds defaultEntry.
Proof.
  split.
  - refine (bool_decide_unpack _ _). vm_compute. exact I.
  - repeat constructor.
Qed.

(** Under the invariant a pair has at most one record; after an edit of the
    pair it has one. *)
Lemma pairCount_cons rid mid m entry :
  pairCount rid mid (m :: entry) =
  (length (List.filter (isPair rid mid)
             ((λ metric, (Evaluation.responseId m, metric)) <$> Evaluation.metrics m))
   + pairCount rid mid entry)%nat.
Proof. unfold pairCount. by rewrite records_cons, List.filter_app, length_app. Qed.

Lemma slot_filter_cons rid mid rid' x ms :
  List.filter (isPair rid mid) ((λ metric, (rid', metric)) <$> (x :: ms))
  = if bool_decide (rid' = rid) && bool_decide (MetricScore.id x = mid)
    then (rid', x) :: List.filter (isPair rid mid) ((λ metric, (rid', metric)) <$> ms)
    else List.filter (isPair rid mid) ((λ metric, (rid', metric)) <$> ms).
Proof. reflexivity. Qed.

Lemma slot_filter_other rid mid rid' ms :
  rid' ≠ rid → List.filter (isPair rid mid) ((λ metric, (rid', metric)) <$> ms) = [].
Proof.
  intros Hne. induction ms as [|x ms IH]; [done|].
  rewrite slot_filter_cons, bool_decide_false by done. exact IH.
Qed.

Lemma slot_filter_absent rid mid rid' ms :
  mid ∉ MetricScore.id <$> ms →
  List.filter (isPair rid mid) ((λ metric, (rid', metric)) <$> ms) = [].
Proof.
  induction ms as [|x ms IH]; [done|].
  rewrite fmap_cons, not_elem_of_cons. intros [Hne Hn].
  rewrite slot_filter_cons, (bool_decide_false (MetricScore.id x = mid)) by done.
  rewrite andb_false_r. auto.
Qed.

Lemma pairCount_absent rid mid entry :
  rid ∉ Evaluation.responseId <$> entry → pairCount rid mid entry = 0%nat.
Proof.
  induction entry as [|m entry IH]; [done|].
  rewrite fmap_cons, not_elem_of_cons. intros [Hne Hn].
  rewrite pairCount_cons, IH, slot_filter_other by done. done.
Qed.

Lemma slotCount_le rid mid rid' ms :
  NoDup (MetricScore.id <$> ms) →
  (length (List.filter (isPair rid mid) ((λ metric, (rid', metric)) <$> ms)) ≤ 1)%nat.
Proof.
  induction ms as [|x ms IH]; [simpl; lia|].
  rewrite fmap_cons, NoDup_cons. intros [Hx Hms].
  rewrite slot_filter_cons.
  destruct (bool_decide (rid' = rid) && bool_decide (MetricScore.id x = mid)) eqn:Hb; [|auto].
  apply andb_prop in Hb as [_ Hid%bool_decide_eq_true]. subst mid.
  rewrite slot_filter_absent by done. simpl. lia.
Qed.

Lemma pairCount_le rid mid entry : uniqueIds entry → (pairCount rid mid entry ≤ 1)%nat.
Proof.
  unfold uniqueIds.
  induction entry as [|m entry IH]; [intros _; unfold pairCount; simpl; lia|].
  rewrite fmap_cons, NoDup_cons, Forall_cons. intros [[Hm Hn] [Hms Hf]].
  rewrite pairCount_cons.
  destruct (decide (Evaluation.responseId m = rid)) as [<-|Hne].
  - rewrite pairCount_absent by done. rewrite Nat.add_0_r. by apply slotCount_le.
  - rewrite slot_filter_other by done. simpl. auto.
Qed.

Lemma cell_pairCount rid mid entry v :
  cell entry rid mid = Some v → (1 ≤ pairCount rid mid entry)%nat.
Proof.
  unfold cell.
  induction entry as [|m entry IH]; [done|].
  rewrite pairCount_cons. simpl. case_bool_decide as Hm.
  - simpl. intros Hfind. subst rid.
    induction (Evaluation.metrics m) as [|x ms IHm]; [done|].
    rewrite slot_filter_cons, bool_decide_true by done.
    simpl in Hfind. case_bool_decide; simpl; [lia|]. specialize (IHm Hfind). lia.
  - intros Hfind. specialize (IH Hfind). lia.
Qed.

Lemma applyEdit_pairCount p entry :
  uniqueIds entry → pairCount (responseId p) (metricId p) (applyEdit p entry) = 1%nat.
Proof.
  intros Hu.
  pose proof (pairCount_le (responseId p) (metricId p) _ (applyEdit_uniqueIds p _ Hu)).
  pose proof (cell_pairCount _ _ _ _ (applyEdit_cell p entry)).
  lia.
Qed.

(** An edit adds a slot exactly when no slot has the responseId. *)
Lemma applyEdit_length p entry :
  length (applyEdit p entry) =
  if bool_decide (responseId p ∈ Evaluation.responseId <$> entry)
  then length entry else S (length entry).
Proof.
  induction entry as [|m entry IH].
  - rewrite applyEdit_nil, bool_decide_false; [done|].
    rewrite fmap_nil. apply not_elem_of_nil.
  - rewrite applyEdit_cons, fmap_cons.
    destruct (decide (Evaluation.responseId m = responseId p)) as [E|E].
    + rewrite !bool_decide_true; [done | rewrite E; left | done].
    + rewrite (bool_decide_false _ E). simpl. rewrite IH.
      destruct (decide (responseId p ∈ Evaluation.responseId <$> entry)) as [Hin|Hin].
      * rewrite !bool_decide_true; [done | by right | done].
      * rewrite !bool_decide_false; [done | | done].
        rewrite elem_of_cons. intros [Heq|Hin']; [congruence|done].
Qed.

(** A call seen from the entry of the case. *)
Lemma ensureEntry_Some idx st entry :
  evaluation st !! idx = Some entry → ensureEntry idx st = Ok entry.
Proof. intros H. unfold ensureEntry. by rewrite H. Qed.

Lemma ensureEntry_default idx st :
  evaluation st !! idx = None → inherited idx = false → ensureEntry idx st = Ok defaultEntry.
Proof. intros H Hi. unfold ensureEntry. by rewrite H, Hi. Qed.

Lemma ensureEntry_Ok idx st entry :
  ensureEntry idx st = Ok entry →
  evaluation st !! idx = Some entry
  ∨ (evaluation st !! idx = None ∧ inherited idx = false ∧ entry = defaultEntry).
Proof.
  unfold ensureEntry. destruct (evaluation st !! idx) as [entry0|].
  - intros [= <-]. by left.
  - destruct (inherited idx); [done|]. intros [= <-]. by right.
Qed.

Lemma ensureEntry_Thrown idx st e :
  ensureEntry idx st = Thrown e → evaluation st !! idx = None ∧ inherited idx = true.
Proof.
  unfold ensureEntry. destruct (evaluation st !! idx); [done|].
  by destruct (inherited idx).
Qed.

(** The call goes through when the case has an entry or its id is no
    inherited name. *)
Lemma ensureEntry_is_Ok idx st :
  inherited idx = false ∨ is_Some (evaluation st !! idx) →
  ∃ entry, ensureEntry idx st = Ok entry.
Proof.
  unfold ensureEntry. intros [Hi|[entry He]].
  - destruct (evaluation st !! idx) as [entry|]; [by exists entry|].
    rewrite Hi. by exists defaultEntry.
  - rewrite He. by exists entry.
Qed.

Lemma afterSetEvaluation_Ok idx p st entry :
  ensureEntry idx st = Ok entry →
  afterSetEvaluation idx p st
  = mkState (<[idx := applyEdit p entry]> (evaluation st)) (doneForId st).
Proof. intros H. unfold afterSetEvaluation, setEvaluation. by rewrite H. Qed.

Lemma afterSetEvaluation_Thrown idx p st e :
  ensureEntry idx st = Thrown e → afterSetEvaluation idx p st = st.
Proof. intros H. unfold afterSetEvaluation, setEvaluation. by rewrite H. Qed.

Lemma afterSetEvaluation_other idx idx' p st :
  idx' ≠ idx → evaluation (afterSetEvaluation idx p st) !! idx' = evaluation st !! idx'.
Proof.
  intros Hne. destruct (ensureEntry idx st) as [entry|e] eqn:He.
  - rewrite (afterSetEvaluation_Ok _ _ _ _ He). cbn. by rewrite lookup_insert_ne.
  - by rewrite (afterSetEvaluation_Thrown _ _ _ _ He).
Qed.

Lemma afterSetEvaluation_doneForId idx p st :
  doneForId (afterSetEvaluation idx p st) = doneForId st.
Proof.
  destruct (ensureEntry idx st) as [entry|e] eqn:He.
  - by rewrite (afterSetEvaluation_Ok _ _ _ _ He).
  - by rewrite (afterSetEvaluation_Thrown _ _ _ _ He).
Qed.

Lemma ensureEntry_afterSetEvaluation idx p st entry :
  ensureEntry idx st = Ok entry →
  ensureEntry idx (afterSetEvaluation idx p st) = Ok (applyEdit p entry).
Proof.
  intros He. rewrite (afterSetEvaluation_Ok _ _ _ _ He).
  unfold ensureEntry. cbn. by rewrite lookup_insert_eq.
Qed.

Lemma setEvaluation_lookup idx p st entry :
  ensureEntry idx st = Ok entry →
  evaluation (afterSetEvaluation idx p st) !! idx = Some (applyEdit p entry).
Proof.
  intros He. rewrite (afterSetEvaluation_Ok _ _ _ _ He). cbn. by rewrite lookup_insert_eq.
Qed.

Lemma setEvaluation_idem idx p st :
  afterSetEvaluation idx p (afterSetEvaluation idx p st) = afterSetEvaluation idx p st.
Proof.
  destruct (ensureEntry idx st) as [entry|e] eqn:He.
  - rewrite (afterSetEvaluation_Ok _ _ (afterSetEvaluation idx p st) (applyEdit p entry))
      by by apply ensureEntry_afterSetEvaluation.
    rewrite applyEdit_idem, (afterSetEvaluation_Ok _ _ _ _ He). cbn.
    by rewrite insert_insert_eq.
  - by rewrite !(afterSetEvaluation_Thrown _ _ _ _ He).
Qed.

Lemma setScores_cons idx rid mid v vs st :
  setScores idx rid mid (v :: vs) st
  = setScores idx rid mid vs (afterSetEvaluation idx (mkPayload rid mid v) st).
Proof. reflexivity. Qed.

Lemma setScores_snoc idx rid mid vs v st :
  setScores idx rid mid (vs ++ [v]) st
  = afterSetEvaluation idx (mkPayload rid mid v) (setScores idx rid mid vs st).
Proof. unfold setScores. by rewrite foldl_app. Qed.

Lemma setScores_frame idx rid mid vs st :
  (∀ idx', idx' ≠ idx →
     evaluation (setScores idx rid mid vs st) !! idx' = evaluation st !! idx')
  ∧ doneForId (setScores idx rid mid vs st) = doneForId st.
Proof.
  revert st. induction vs as [|v vs IH]; intros st; [done|].
  destruct (IH (afterSetEvaluation idx (mkPayload rid mid v) st)) as [IH1 IH2].
  rewrite setScores_cons. split.
  - intros idx' Hne. rewrite IH1 by done. by apply afterSetEvaluation_other.
  - rewrite IH2. apply afterSetEvaluation_doneForId.
Qed.

(** A run on a case whose calls go through, seen from the entry it began
    with. *)
Lemma setScores_entry idx rid mid vs : ∀ st entry,
  ensureEntry idx st = Ok entry →
  ∃ entry', ensureEntry idx (setScores idx rid mid vs st) = Ok entry'
            ∧ otherRecords rid mid entry' = otherRecords rid mid entry
            ∧ (uniqueIds entry → uniqueIds entry').
Proof.
  induction vs as [|v vs IH]; intros st entry He; [by exists entry|].
  rewrite setScores_cons.
  destruct (IH _ _ (ensureEntry_afterSetEvaluation idx (mkPayload rid mid v) st entry He))
    as (entry' & He' & Hothers & Hu).
  exists entry'. split; [done|]. split.
  - rewrite Hothers. apply (applyEdit_others (mkPayload rid mid v)).
  - intros Huniq. apply Hu. by apply applyEdit_uniqueIds.
Qed.

(** A store that only [setEvaluation] has written obeys the invariant. *)
Lemma afterSetEvaluation_uniqueIds idx0 p st :
  (∀ idx entry, evaluation st !! idx = Some entry → uniqueIds entry) →
  ∀ idx entry, evaluation (afterSetEvaluation idx0 p st) !! idx = Some entry → uniqueIds entry.
Proof.
  intros Hst idx entry.
  destruct (ensureEntry idx0 st) as [entry0|e] eqn:He.
  - rewrite (afterSetEvaluation_Ok _ _ _ _ He). cbn.
    destruct (decide (idx0 = idx)) as [->|Hne].
    + rewrite lookup_insert_eq. intros [= <-]. apply applyEdit_uniqueIds.
      destruct (ensureEntry_Ok _ _ _ He) as [H|(_ & _ & ->)]; [by apply (Hst idx)|].
      apply defaultEntry_uniqueIds.
    + rewrite lookup_insert_ne by done. apply Hst.
  - rewrite (afterSetEvaluation_Thrown _ _ _ _ He). apply Hst.
Qed.

Lemma replay_uniqueIds history : ∀ st,
  (∀ idx entry, evaluation st !! idx = Some entry → uniqueIds entry) →
  ∀ idx entry, evaluation (replay history st) !! idx = Some entry → uniqueIds entry.
Proof.
  induction history as [|[idx0 p] history IH]; intros st Hst; [exact Hst|].
  apply (IH (afterSetEvaluation idx0 p st)). by apply afterSetEvaluation_uniqueIds.
Qed.

End StoreFacts.

(** C4, as the code has it.  A run of [setEvaluation] calls on one (caseId,
    responseId, metricId), the last of them with value [v], on a case that
    has an entry or whose id is not a name every object inherits:
    - the cell reads [v] afterwards (the last write wins);
    - if the entry of the case, when it had one, obeyed the invariant of the
      data model (a responseId names one slot, a metric id one record of a
      slot), the entry has exactly one record for the pair afterwards, and
      still obeys the invariant; so it is for every store that
      [setEvaluation] calls alone have written, from the initial one;
    - the same call once more changes nothing, after the run and after any
      call on any store;
    - the records of all other pairs of the entry are the ones the entry had
      before the run, in their order (none, when the case had no entry); the
      entries of the other cases and the completion flags stay as they are. *)
Theorem setEvaluation_last_write_wins
    (idx rid mid : string) (vs : list (option Z)) (v : option Z) (st : Store.State) :
  Store.inherited idx = false ∨ is_Some (Store.evaluation st !! idx) →
  let st' := Store.setScores idx rid mid (vs ++ [v]) st in
  Store.storedValue st' idx rid mid = Some v
  ∧ ((∀ entry, Store.evaluation st !! idx = Some entry → Store.uniqueIds entry) →
     ∃ entry', Store.evaluation st' !! idx = Some entry'
               ∧ Store.pairCount rid mid entry' = 1%nat
               ∧ Store.uniqueIds entry')
  ∧ (∀ history, st = Store.replay history Store.initial →
     ∃ entry', Store.evaluation st' !! idx = Some entry'
               ∧ Store.pairCount rid mid entry' = 1%nat)
  ∧ Store.afterSetEvaluation idx (Store.mkPayload rid mid v) st' = st'
  ∧ (∀ s p, Store.afterSetEvaluation idx p (Store.afterSetEvaluation idx p s)
            = Store.afterSetEvaluation idx p s)
  ∧ (∃ entry', Store.evaluation st' !! idx = Some entry'
               ∧ Store.otherRecords rid mid entry'
                 = match Store.evaluation st !! idx with
                   | Some entry => Store.otherRecords rid mid entry
                   | None => []
                   end)
  ∧ (∀ idx', idx' ≠ idx → Store.evaluation st' !! idx' = Store.evaluation st !! idx')
  ∧ Store.doneForId st' = Store.doneForId st.
Proof.
  intros Hkey st'. subst st'. rewrite setScores_snoc.
  set (p := Store.mkPayload rid mid v).
  set (st1 := Store.setScores idx rid mid vs st).
  destruct (ensureEntry_is_Ok idx st Hkey) as (entry & He).
  destruct (setScores_entry idx rid mid vs st entry He) as (entry1 & He1 & Hothers & Huniq).
  destruct (setScores_frame idx rid mid vs st) as [Hframe Hdone].
  fold st1 in He1, Hframe, Hdone.
  assert (Store.otherRecords rid mid entry
          = match Store.evaluation st !! idx with
            | Some entry0 => Store.otherRecords rid mid entry0
            | None => []
            end) as Hbefore.
  { destruct (ensureEntry_Ok _ _ _ He) as [->|(-> & _ & ->)]; done. }
  split; [|split; [|split; [|split; [|split; [|split; [|split]]]]]].
  - unfold Store.storedValue. rewrite (setEvaluation_lookup _ _ _ _ He1). cbn.
    apply (applyEdit_cell p).
  - intros Hinv.
    assert (Store.uniqueIds entry1) as Hu.
    { apply Huniq. destruct (ensureEntry_Ok _ _ _ He) as [H|(_ & _ & ->)]; [by apply Hinv|].
      apply defaultEntry_uniqueIds. }
    eexists. split; [by apply setEvaluation_lookup|]. split.
    + by apply (applyEdit_pairCount p).
    + by apply applyEdit_uniqueIds.
  - intros history Hst.
    assert (Store.uniqueIds entry1) as Hu.
    { apply Huniq. destruct (ensureEntry_Ok _ _ _ He) as [H|(_ & _ & ->)];
        [|apply defaultEntry_uniqueIds].
      rewrite Hst in H. by apply (replay_uniqueIds history Store.initial) in H. }
    eexists. split; [by apply setEvaluation_lookup|].
    by apply (applyEdit_pairCount p).
  - apply setEvaluation_idem.
  - intros s q. apply setEvaluation_idem.
  - eexists. split; [by apply setEvaluation_lookup|].
    rewrite <- Hbefore, <- Hothers. apply (applyEdit_others p).
  - intros idx' Hne. rewrite afterSetEvaluation_other by done. by apply Hframe.
  - rewrite afterSetEvaluation_doneForId. exact Hdone.
Qed.

(** The run 4, null, 5 on a store that has a record for the pair. *)
Lemma setEvaluation_last_write_wins_witness :
  ∃ entry',
    Store.evaluation
      (Store.setScores "c1" "model-1" "m1" ([Some 4%Z; None] ++ [Some 5%Z])
         (Store.mkState
            {[ "c1" := [Evaluation.mk "model-1" [MetricScore.mk "m1" "Accuracy" None (Some 3%Z)]] ]}
            ∅)) !! "c1" = Some entry'
    ∧ Store.pairCount "model-1" "m1" entry' = 1%nat
    ∧ Store.uniqueIds entry'.
Proof.
  refine (proj1 (proj2 (setEvaluation_last_write_wins "c1" "model-1" "m1" [Some 4%Z; None]
                          (Some 5%Z) _ _)) _).
  - right. cbn. rewrite lookup_singleton_eq. by eexists.
  - intros entry. cbn. rewrite lookup_singleton_eq. intros [= <-].
    split.
    + apply NoDup_singleton.
    + apply Forall_singleton. apply NoDup_singleton.
Defined.

(** A record whose model outputs are named model-2 and model-3 is hydrated
    to the slots model-2, model-3 and the placeholder model-3: the pair
    (model-3, m1) has two records, and has them still after the run. *)
Lemma setEvaluation_last_write_wins_counterexample :
  let pg := Index.initializeEvaluations
              (Index.mkCaseRecord "c1" [Index.mkModelOutput "model-2" "a";
                                        Index.mkModelOutput "model-3" "b"])
              [Metric.mk "m1" "Accuracy" ""] Services.Rejected
              (Index.mkPage Store.initial [] false) in
  ∃ entry',
    Store.evaluation
      (Store.setScores "c1" "model-3" "m1" ([Some 4%Z] ++ [Some 5%Z]) (Index.store pg)) !! "c1"
    = Some entry'
    ∧ Store.storedValue
        (Store.setScores "c1" "model-3" "m1" ([Some 4%Z] ++ [Some 5%Z]) (Index.store pg))
        "c1" "model-3" "m1" = Some (Some 5%Z)
    ∧ Store.pairCount "model-3" "m1" entry' = 2%nat.
Proof. intros pg. eexists. split; [by vm_compute|]. split; by vm_compute. Qed.

(** C5.  The claim fails for a case id that is a name every object inherits.
    The store has no entry for the case constructor, yet
    [state.evaluation[idx]] reads the inherited property: no entry of three
    slots is made, [findIndex] is called on what was read, and the call
    throws, leaving the store as it was. *)
Theorem setEvaluation_inherited_key :
  let payload := Store.mkPayload "model-1" "m1" (Some 3%Z) in
  Store.evaluation Store.initial !! "constructor" = None
  ∧ Store.setEvaluation "constructor" payload Store.initial
    = Thrown "TypeError: newEvaluation[idx].findIndex is not a function"
  ∧ Store.afterSetEvaluation "constructor" payload Store.initial = Store.initial
  ∧ Store.storedValue (Store.afterSetEvaluation "constructor" payload Store.initial)
      "constructor" "model-1" "m1" = None.
Proof. intros payload. repeat split. Qed.

(** ** The store as objects: [initAtId] shares nothing with its argument *)

Section HeapFacts.
Import Heap.

Lemma alloc_spec o (h : gmap loc obj) l h' :
  alloc o h = (l, h') → h !! l = None ∧ h' = <[l := o]> h.
Proof.
  unfold alloc. intros [= <- <-]. split; [|done].
  apply not_elem_of_dom, is_fresh.
Qed.

Lemma agreeOnNew_weaken (h0 h0' h1 h1' h2 : gmap loc obj) :
  h0 ⊆ h0' → h1' ⊆ h1 → agreeOnNew h0 h1 h2 → agreeOnNew h0' h1' h2.
Proof.
  intros H0 H1 Hag l o Hl Ho. apply Hag.
  - destruct (h0 !! l) eqn:E; [|done].
    by rewrite (lookup_weaken _ _ _ _ E H0) in Hl.
  - by apply (lookup_weaken _ _ _ _ Ho H1).
Qed.

Lemma agreeOnNew_refl (h0 h1 : gmap loc obj) : agreeOnNew h0 h1 h1.
Proof. by intros l o _ Ho. Qed.

(** Overwriting an object that existed before leaves the new ones intact. *)
Lemma agreeOnNew_overwrite (h0 h1 : gmap loc obj) l o :
  is_Some (h0 !! l) → agreeOnNew h0 h1 (<[l := o]> h1).
Proof.
  intros [o0 Hl] l' o' Hnew Ho'.
  rewrite lookup_insert_ne; [done|]. intros ->. congruence.
Qed.

Section Arrays.
Context {A : Type} (read : gmap loc obj → loc → option A)
        (copy : loc → gmap loc obj → option (loc * gmap loc obj)).
Hypothesis copy_ok : copies read copy.
Hypothesis read_stable : stable read.

Lemma mapM_stable (h h' : gmap loc obj) ls vs :
  h ⊆ h' → mapM (read h) ls = Some vs → mapM (read h') ls = Some vs.
Proof.
  intros Hsub. rewrite !mapM_Some. intros Hall.
  eapply Forall2_impl; [exact Hall|]. intros l v. by apply read_stable.
Qed.

Lemma readArray_stable : stable (readArray read).
Proof.
  intros h h' a vs Hsub. unfold readArray.
  destruct (h !! a) as [[| |ls]|] eqn:E; try done.
  rewrite (lookup_weaken _ _ _ _ E Hsub). by apply mapM_stable.
Qed.

Lemma copyEach_spec ls : ∀ (h : gmap loc obj) vs,
  mapM (read h) ls = Some vs →
  ∃ ls' h', copyEach copy ls h = Some (ls', h') ∧ h ⊆ h'
            ∧ ∀ h'', agreeOnNew h h' h'' → mapM (read h'') ls' = Some vs.
Proof.
  induction ls as [|l ls IH]; intros h vs.
  - intros [= <-]. exists [], h. by repeat split.
  - rewrite mapM_Some. intros Hall. inversion Hall as [|? v ? vs' Hl Hls]; subst.
    destruct (copy_ok h l v Hl) as (l' & h1 & Hcopy & Hsub1 & Hfresh & Hread).
    apply mapM_Some in Hls.
    destruct (IH h1 vs' (mapM_stable h h1 _ _ Hsub1 Hls)) as (ls' & h2 & Heach & Hsub2 & Hreads).
    exists (l' :: ls'), h2.
    split; [simpl; rewrite Hcopy; simpl; by rewrite Heach|].
    split; [by etrans|].
    intros h'' Hag. apply mapM_Some. constructor.
    + apply Hread. eapply agreeOnNew_weaken; [reflexivity|exact Hsub2|exact Hag].
    + apply mapM_Some, Hreads.
      eapply agreeOnNew_weaken; [exact Hsub1|reflexivity|exact Hag].
Qed.

Lemma mapArray_spec : copies (readArray read) (mapArray copy).
Proof.
  intros h a vs. unfold readArray, mapArray.
  destruct (h !! a) as [[| |ls]|] eqn:E; try done.
  intros Hls.
  destruct (copyEach_spec ls h vs Hls) as (ls' & h1 & Heach & Hsub1 & Hreads).
  rewrite Heach. simpl.
  destruct (alloc (OArray ls') h1) as [a' h2] eqn:Ha.
  apply alloc_spec in Ha as [Hfresh ->].
  exists a', (<[a' := OArray ls']> h1).
  split; [done|]. split; [|split].
  - etrans; [exact Hsub1|]. by apply insert_subseteq.
  - destruct (h !! a') eqn:E'; [|done].
    by rewrite (lookup_weaken _ _ _ _ E' Hsub1) in Hfresh.
  - intros h'' Hag.
    assert (h !! a' = None) as Hnew.
    { destruct (h !! a') eqn:E'; [|done].
      by rewrite (lookup_weaken _ _ _ _ E' Hsub1) in Hfresh. }
    rewrite (Hag a' (OArray ls') Hnew (lookup_insert_eq _ _ _)).
    apply Hreads.
    eapply agreeOnNew_weaken; [reflexivity| |exact Hag]. by apply insert_subseteq.
Qed.

End Arrays.

Lemma readMetric_stable : stable readMetric.
Proof.
  intros h h' l v Hsub. unfold readMetric.
  destruct (h !! l) as [[m| |]|] eqn:E; try done.
  by rewrite (lookup_weaken _ _ _ _ E Hsub).
Qed.

Lemma copyMetric_spec : copies readMetric copyMetric.
Proof.
  intros h l v. unfold readMetric, copyMetric.
  destruct (h !! l) as [[m| |]|] eqn:E; try done.
  intros [= <-].
  destruct (alloc (OMetric m) h) as [l' h'] eqn:Ha.
  apply alloc_spec in Ha as [Hfresh ->].
  exists l', (<[l' := OMetric m]> h).
  split; [done|]. split; [by apply insert_subseteq|]. split; [done|].
  intros h'' Hag. by rewrite (Hag l' (OMetric m) Hfresh (lookup_insert_eq _ _ _)).
Qed.

Lemma readModel_stable : stable readModel.
Proof.
  intros h h' l v Hsub. unfold readModel.
  destruct (h !! l) as [[|rid ms|]|] eqn:E; try done.
  rewrite (lookup_weaken _ _ _ _ E Hsub).
  destruct (readArray readMetric h ms) as [vs|] eqn:Hms; [|done].
  by rewrite (readArray_stable _ readMetric_stable h h' ms vs Hsub Hms).
Qed.

Lemma copyModel_spec : copies readModel copyModel.
Proof.
  intros h l v. unfold readModel, copyModel.
  destruct (h !! l) as [[|rid ms|]|] eqn:E; try done.
  destruct (readArray readMetric h ms) as [vs|] eqn:Hms; [|done].
  intros [= <-].
  destruct (mapArray_spec _ _ copyMetric_spec readMetric_stable h ms vs Hms)
    as (ms' & h1 & Hcopy & Hsub1 & Hfresh1 & Hread).
  rewrite Hcopy. simpl.
  destruct (alloc (OModel rid ms') h1) as [l' h2] eqn:Ha.
  apply alloc_spec in Ha as [Hfresh ->].
  assert (h !! l' = None) as Hnew.
  { destruct (h !! l') eqn:E'; [|done].
    by rewrite (lookup_weaken _ _ _ _ E' Hsub1) in Hfresh. }
  exists l', (<[l' := OModel rid ms']> h1).
  split; [done|]. split; [|split; [done|]].
  - etrans; [exact Hsub1|]. by apply insert_subseteq.
  - intros h'' Hag.
    rewrite (Hag l' (OModel rid ms') Hnew (lookup_insert_eq _ _ _)).
    rewrite Hread; [done|].
    eapply agreeOnNew_weaken; [reflexivity| |exact Hag]. by apply insert_subseteq.
Qed.

Lemma readEntry_stable : stable readEntry.
Proof. apply readArray_stable, readModel_stable. Qed.

Lemma copyEntry_spec : copies readEntry (mapArray copyModel).
Proof. apply mapArray_spec; [apply copyModel_spec | apply readModel_stable]. Qed.

End HeapFacts.

Lemma Store_initAtId_lookup idx R s :
  Store.evaluation (Store.initAtId idx R s) !! idx = Some R.
Proof.
  unfold Store.initAtId. simpl. rewrite lookup_insert_eq. f_equal.
  induction R as [|[rid ms] R IH]; [done|].
  rewrite fmap_cons, IH. simpl. by rewrite list_fmap_id.
Qed.

(** C8.  [initAtId(idx, payload)] on a well-formed response list that reads
    as [R]: the call succeeds and stores, for [idx], a new array that reads
    as [R] (the value [Store.initAtId] stores); whatever is done afterwards
    to the objects that existed before the call (the array [payload], its
    response objects, their metric arrays and metric records among them),
    the stored entry still reads as [R]; the call itself leaves [payload],
    the other cases and the completion flags as they are. *)
Theorem initAtId_deep_copy
    (idx : string) (payload : Heap.loc) (st : Heap.State) (R : list Evaluation.t) :
  Heap.readEntry (Heap.objects st) payload = Some R →
  ∃ st' entry,
    Heap.initAtId idx payload st = Some st'
    ∧ Heap.evaluation st' !! idx = Some entry
    ∧ Heap.readEntry (Heap.objects st') entry = Some R
    ∧ (∀ s, Store.evaluation (Store.initAtId idx R s) !! idx = Some R)
    ∧ Heap.objects st !! entry = None
    ∧ (∀ h'', Heap.agreeOnNew (Heap.objects st) (Heap.objects st') h'' →
              Heap.readEntry h'' entry = Some R)
    ∧ (∀ l o, is_Some (Heap.objects st !! l) →
              Heap.readEntry (<[l := o]> (Heap.objects st')) entry = Some R)
    ∧ Heap.readEntry (Heap.objects st') payload = Some R
    ∧ (∀ idx', idx' ≠ idx → Heap.evaluation st' !! idx' = Heap.evaluation st !! idx')
    ∧ Heap.doneForId st' = Heap.doneForId st.
Proof.
  intros HR.
  destruct (copyEntry_spec _ _ _ HR) as (entry & h' & Hcopy & Hsub & Hfresh & Hread).
  unfold Heap.initAtId. rewrite Hcopy. simpl.
  eexists _, entry. split; [reflexivity|]. simpl.
  split; [by rewrite lookup_insert_eq|].
  split; [apply Hread, agreeOnNew_refl|].
  split; [intros s; apply Store_initAtId_lookup|].
  split; [done|].
  split; [exact Hread|].
  split; [intros l o Hl; by apply Hread, agreeOnNew_overwrite|].
  split; [by apply (readEntry_stable _ _ _ _ Hsub)|].
  split; [|done].
  intros idx' Hne. by rewrite lookup_insert_ne.
Qed.

(** A list of one response with one metric record. *)
Lemma initAtId_deep_copy_witness :
  let R := [Evaluation.mk "model-1" [MetricScore.mk "m1" "Accuracy" (Some "d") (Some 4%Z)]] in
  let st := Heap.mkState
              (list_to_map
                 [ (1%positive, Heap.OMetric (MetricScore.mk "m1" "Accuracy" (Some "d") (Some 4%Z)));
                   (2%positive, Heap.OArray [1%positive]);
                   (3%positive, Heap.OModel "model-1" 2%positive);
                   (4%positive, Heap.OArray [3%positive]) ]) ∅ ∅ in
  ∃ st' entry,
    Heap.initAtId "c1" 4%positive st = Some st'
    ∧ Heap.evaluation st' !! "c1" = Some entry
    ∧ Heap.readEntry (Heap.objects st') entry = Some R
    ∧ (∀ s, Store.evaluation (Store.initAtId "c1" R s) !! "c1" = Some R)
    ∧ Heap.objects st !! entry = None
    ∧ (∀ h'', Heap.agreeOnNew (Heap.objects st) (Heap.objects st') h'' →
              Heap.readEntry h'' entry = Some R)
    ∧ (∀ l o, is_Some (Heap.objects st !! l) →
              Heap.readEntry (<[l := o]> (Heap.objects st')) entry = Some R)
    ∧ Heap.readEntry (Heap.objects st') 4%positive = Some R
    ∧ (∀ idx', idx' ≠ "c1" → Heap.evaluation st' !! idx' = Heap.evaluation st !! idx')
    ∧ Heap.doneForId st' = Heap.doneForId st.
Proof.
  intros R st. apply (initAtId_deep_copy "c1" 4%positive st R).
  reflexivity.
Defined.

(** The caller sets the value of its metric record to 1 after the call: the
    stored entry still holds 4. *)
Example initAtId_then_mutate :
  let st := Heap.mkState
              (list_to_map
                 [ (1%positive, Heap.OMetric (MetricScore.mk "m1" "Accuracy" (Some "d") (Some 4%Z)));
                   (2%positive, Heap.OArray [1%positive]);
                   (3%positive, Heap.OModel "model-1" 2%positive);
                   (4%positive, Heap.OArray [3%positive]) ]) ∅ ∅ in
  (st' ← Heap.initAtId "c1" 4%positive st;
   entry ← Heap.evaluation st' !! "c1";
   let h'' := <[1%positive := Heap.OMetric (MetricScore.mk "m1" "Accuracy" (Some "d") (Some 1%Z))]>
                (Heap.objects st') in
   stored ← Heap.readEntry h'' entry;
   caller ← Heap.readEntry h'' 4%positive;
   Some (stored, caller))
  = Some ([Evaluation.mk "model-1" [MetricScore.mk "m1" "Accuracy" (Some "d") (Some 4%Z)]],
          [Evaluation.mk "model-1" [MetricScore.mk "m1" "Accuracy" (Some "d") (Some 1%Z)]]).
Proof. vm_compute. reflexivity. Qed.

(** ** Hydration: [initializeEvaluations] *)

Section HydrationFacts.
Import Services Index.

(** [filter] by response and then [find] by metric is [find] by both. *)
Lemma find_filter {A : Type} (p q : A → bool) (l : list A) :
  find q (List.filter p l) = find (λ x, p x && q x) l.
Proof.
  induction l as [|x l IH]; [done|].
  simpl. destruct (p x); simpl; [|done]. by rewrite IH.
Qed.

(** The value hydration gives a metric of a slot that holds a model output. *)
Lemma existingValue_remoteScore rid mid existing :
  existingValue
    (List.filter (λ evaluation, bool_decide (model_response evaluation = rid)) existing) mid
  = orNull (remoteScore existing rid mid).
Proof. unfold existingValue, remoteScore. by rewrite find_filter. Qed.

(** With a list as the body, the three slots are built without exception. *)
Lemma defaultScore_list outputs metrics existing index :
  defaultScore outputs metrics (EvaluationList existing) index
  = Ok (Evaluation.mk
          (match outputs !! index with
           | Some o => if bool_decide (responseId o = "") then modelName index else responseId o
           | None => modelName index
           end)
          ((λ m, MetricScore.mk (Metric.id m) (Metric.name m) (Some (Metric.description m))
                   (match outputs !! index with
                    | Some o => orNull (remoteScore existing (responseId o) (Metric.id m))
                    | None => None
                    end)) <$> metrics)).
Proof.
  unfold defaultScore. destruct (outputs !! index) as [o|]; simpl.
  - f_equal. f_equal. apply list_fmap_ext. intros _ m _.
    by rewrite existingValue_remoteScore.
  - reflexivity.
Qed.

Lemma initializeEvaluations_ready activeRecord metrics fetched pg :
  id activeRecord ≠ "" → notReady metrics = false →
  initializeEvaluations activeRecord metrics fetched pg
  = setIsSubmitting false
      match defaultScores (modelOutputs activeRecord) metrics (getExistingEvaluations fetched) with
      | Ok scores => withStore (Store.initAtId (id activeRecord) scores) (setIsSubmitting true pg)
      | Thrown _ => toast initToast (setIsSubmitting true pg)
      end.
Proof.
  intros Hid Hready. unfold initializeEvaluations.
  by rewrite bool_decide_false, Hready.
Qed.

Lemma initializeEvaluations_ok activeRecord metrics fetched pg entry :
  id activeRecord ≠ "" → notReady metrics = false →
  defaultScores (modelOutputs activeRecord) metrics (getExistingEvaluations fetched) = Ok entry →
  initializeEvaluations activeRecord metrics fetched pg
  = mkPage (Store.initAtId (id activeRecord) entry (store pg)) (toasts pg) false.
Proof.
  intros Hid Hready Hscores.
  rewrite initializeEvaluations_ready by done. by rewrite Hscores.
Qed.

(** The one way into the [catch] of [initializeEvaluations]: a body that is
    not a list, for a record with a model output. *)
Lemma initializeEvaluations_abort activeRecord metrics o pg :
  id activeRecord ≠ "" → notReady metrics = false →
  modelOutputs activeRecord !! 0%nat = Some o →
  initializeEvaluations activeRecord metrics (Resolved NotAList) pg
  = mkPage (store pg) (toasts pg ++ [initToast]) false.
Proof.
  intros Hid Hready Ho.
  rewrite initializeEvaluations_ready by done.
  unfold defaultScores, defaultScore. by rewrite Ho.
Qed.

End HydrationFacts.

(** C2, as the code has it.  A hydration with a ready metric set whose fetch
    resolves with the list [existing] hands [initAtId] exactly three slots.
    The slot at [index] has a record for every metric of the set, in order.
    Its value is the score of the first remote evaluation whose
    [model_response] is the responseId of the model output at [index] and
    whose [metric] is the metric id, when the record has a model output at
    [index] and that score is not 0; it is null otherwise: when no such
    evaluation exists, when its score is 0, and in a slot that stands for a
    missing model output. *)
Theorem hydration_initial_values
    (activeRecord : Index.CaseRecord) (metrics : list Metric.t)
    (existing : list Services.EvaluationData) (pg : Index.Page) :
  Index.id activeRecord ≠ "" → Index.notReady metrics = false →
  let page' := Index.initializeEvaluations activeRecord metrics
                 (Services.Resolved (Services.EvaluationList existing)) pg in
  ∃ entry,
    Index.store page' = Store.initAtId (Index.id activeRecord) entry (Index.store pg)
    ∧ Store.evaluation (Index.store page') !! Index.id activeRecord = Some entry
    ∧ length entry = 3%nat
    ∧ ∀ index slot, entry !! index = Some slot →
        Evaluation.responseId slot
        = match Index.modelOutputs activeRecord !! index with
          | Some o => if bool_decide (Index.responseId o = "")
                      then modelName index else Index.responseId o
          | None => modelName index
          end
        ∧ MetricScore.id <$> Evaluation.metrics slot = Metric.id <$> metrics
        ∧ ∀ k m, metrics !! k = Some m →
            ∃ r, Evaluation.metrics slot !! k = Some r
              ∧ MetricScore.id r = Metric.id m
              ∧ (∀ o s, Index.modelOutputs activeRecord !! index = Some o →
                        Index.remoteScore existing (Index.responseId o) (Metric.id m) = Some s →
                        s ≠ 0%Z → MetricScore.value r = Some s)
              ∧ (∀ o, Index.modelOutputs activeRecord !! index = Some o →
                      Index.remoteScore existing (Index.responseId o) (Metric.id m) = Some 0%Z →
                      MetricScore.value r = None)
              ∧ (∀ o, Index.modelOutputs activeRecord !! index = Some o →
                      Index.remoteScore existing (Index.responseId o) (Metric.id m) = None →
                      MetricScore.value r = None)
              ∧ (Index.modelOutputs activeRecord !! index = None →
                 MetricScore.value r = None).
Proof.
  intros Hid Hready page'. subst page'.
  rewrite initializeEvaluations_ready by done.
  change (Services.getExistingEvaluations (Services.Resolved (Services.EvaluationList existing)))
    with (Services.EvaluationList existing).
  unfold Index.defaultScores. rewrite !defaultScore_list.
  cbn [mbind result_bind].
  match goal with |- context [Store.initAtId _ ?e] => set (entry := e) end.
  exists entry. split; [reflexivity|].
  split; [apply (Store_initAtId_lookup _ entry)|].
  split; [reflexivity|].
  intros index slot Hslot. subst entry.
  assert (slot =
    Evaluation.mk
      (match Index.modelOutputs activeRecord !! index with
       | Some o => if bool_decide (Index.responseId o = "")
                   then modelName index else Index.responseId o
       | None => modelName index
       end)
      ((λ m, MetricScore.mk (Metric.id m) (Metric.name m) (Some (Metric.description m))
               (match Index.modelOutputs activeRecord !! index with
                | Some o => Index.orNull (Index.remoteScore existing (Index.responseId o) (Metric.id m))
                | None => None
                end)) <$> metrics)) as ->.
  { destruct index as [|[|[|index]]]; [injection Hslot as <-; reflexivity ..|done]. }
  simpl. split; [reflexivity|].
  split; [by rewrite <- list_fmap_compose|].
  intros k m Hk. eexists. split; [by rewrite list_lookup_fmap, Hk|].
  simpl. split; [reflexivity|].
  destruct (Index.modelOutputs activeRecord !! index) as [o|].
  - repeat split.
    + intros o' s [= <-] -> Hs. by destruct s.
    + by intros o' [= <-] ->.
    + by intros o' [= <-] ->.
    + done.
  - repeat split; try done.
Qed.

(** The scenario of the specification, for a case whose three model outputs
    are model-1, model-2 and model-3. *)
Example hydration_scenario :
  Index.defaultScores
    [Index.mkModelOutput "model-1" "a"; Index.mkModelOutput "model-2" "b";
     Index.mkModelOutput "model-3" "c"]
    [Metric.mk "m1" "Accuracy" ""; Metric.mk "m2" "Relevance" ""]
    (Services.EvaluationList [Services.mkEvaluationData "model-1" "m1" 4])
  = Ok [Evaluation.mk "model-1" [MetricScore.mk "m1" "Accuracy" (Some "") (Some 4%Z);
                                 MetricScore.mk "m2" "Relevance" (Some "") None];
        Evaluation.mk "model-2" [MetricScore.mk "m1" "Accuracy" (Some "") None;
                                 MetricScore.mk "m2" "Relevance" (Some "") None];
        Evaluation.mk "model-3" [MetricScore.mk "m1" "Accuracy" (Some "") None;
                                 MetricScore.mk "m2" "Relevance" (Some "") None]].
Proof. reflexivity. Qed.

(** The scenario again, through the page. *)
Lemma hydration_initial_values_witness :
  ∃ entry,
    Store.evaluation
      (Index.store
         (Index.initializeEvaluations
            (Index.mkCaseRecord "c1"
               [Index.mkModelOutput "model-1" "a"; Index.mkModelOutput "model-2" "b";
                Index.mkModelOutput "model-3" "c"])
            [Metric.mk "m1" "Accuracy" ""; Metric.mk "m2" "Relevance" ""]
            (Services.Resolved
               (Services.EvaluationList [Services.mkEvaluationData "model-1" "m1" 4]))
            (Index.mkPage Store.initial [] false))) !! "c1" = Some entry
    ∧ length entry = 3%nat.
Proof.
  destruct (hydration_initial_values
              (Index.mkCaseRecord "c1"
                 [Index.mkModelOutput "model-1" "a"; Index.mkModelOutput "model-2" "b";
                  Index.mkModelOutput "model-3" "c"])
              [Metric.mk "m1" "Accuracy" ""; Metric.mk "m2" "Relevance" ""]
              [Services.mkEvaluationData "model-1" "m1" 4]
              (Index.mkPage Store.initial [] false))
    as (entry & _ & Hentry & Hlen & _).
  - discriminate.
  - reflexivity.
  - exists entry. split; assumption.
Defined.

(** C2 as stated fails twice.  For a case with no model outputs the three
    slots are placeholders, and the remote evaluation (model-1, m1, 4), whose
    [model_response] is the responseId of the first slot, is not looked at:
    the cell is null.  For a model output r1 with the remote evaluation
    (r1, m1, 0) the cell is null, not the score 0. *)
Lemma hydration_initial_values_counterexample :
  (let page' :=
     Index.initializeEvaluations (Index.mkCaseRecord "c1" [])
       [Metric.mk "m1" "Accuracy" ""; Metric.mk "m2" "Relevance" ""]
       (Services.Resolved (Services.EvaluationList [Services.mkEvaluationData "model-1" "m1" 4]))
       (Index.mkPage Store.initial [] false) in
   Index.remoteScore [Services.mkEvaluationData "model-1" "m1" 4] "model-1" "m1" = Some 4%Z
   ∧ Store.storedValue (Index.store page') "c1" "model-1" "m1" = Some None)
  ∧ (let page' :=
       Index.initializeEvaluations
         (Index.mkCaseRecord "c1"
            [Index.mkModelOutput "r1" "a"; Index.mkModelOutput "r2" "b";
             Index.mkModelOutput "r3" "c"])
         [Metric.mk "m1" "Accuracy" ""]
         (Services.Resolved (Services.EvaluationList [Services.mkEvaluationData "r1" "m1" 0]))
         (Index.mkPage Store.initial [] false) in
     Index.remoteScore [Services.mkEvaluationData "r1" "m1" 0] "r1" "m1" = Some 0%Z
     ∧ Store.storedValue (Index.store page') "c1" "r1" "m1" = Some None).
Proof. vm_compute. repeat split. Qed.

(** C3, as the code has it.  [getExistingEvaluations] turns a failed fetch
    into the empty list, so a hydration whose fetch fails is the hydration of
    a case with no remote evaluation: [initAtId] is called with three slots
    that hold a null record for every metric, the entry of the case is
    replaced by them, and no notification is raised. *)
Theorem hydration_fetch_failure
    (activeRecord : Index.CaseRecord) (metrics : list Metric.t) (pg : Index.Page) :
  Index.id activeRecord ≠ "" → Index.notReady metrics = false →
  let page' := Index.initializeEvaluations activeRecord metrics Services.Rejected pg in
  page' = Index.initializeEvaluations activeRecord metrics
            (Services.Resolved (Services.EvaluationList [])) pg
  ∧ (∃ entry,
       Index.store page' = Store.initAtId (Index.id activeRecord) entry (Index.store pg)
       ∧ Store.evaluation (Index.store page') !! Index.id activeRecord = Some entry
       ∧ length entry = 3%nat
       ∧ ∀ slot, slot ∈ entry →
           MetricScore.id <$> Evaluation.metrics slot = Metric.id <$> metrics
           ∧ ∀ r, r ∈ Evaluation.metrics slot → MetricScore.value r = None)
  ∧ Index.toasts page' = Index.toasts pg
  ∧ Index.isSubmitting page' = false.
Proof.
  intros Hid Hready page'. subst page'.
  split; [reflexivity|].
  assert (∃ entry,
    Index.defaultScores (Index.modelOutputs activeRecord) metrics
      (Services.getExistingEvaluations Services.Rejected) = Ok entry
    ∧ length entry = 3%nat
    ∧ ∀ slot, slot ∈ entry →
        MetricScore.id <$> Evaluation.metrics slot = Metric.id <$> metrics
        ∧ ∀ r, r ∈ Evaluation.metrics slot → MetricScore.value r = None)
    as (entry & Hentry & Hlen & Hnull).
  { change (Services.getExistingEvaluations Services.Rejected) with (Services.EvaluationList []).
    unfold Index.defaultScores. rewrite !defaultScore_list. cbn [mbind result_bind].
    eexists. split; [reflexivity|]. split; [reflexivity|].
    intros slot Hslot.
    assert (∃ index, slot =
      Evaluation.mk
        (match Index.modelOutputs activeRecord !! index with
         | Some o => if bool_decide (Index.responseId o = "")
                     then modelName index else Index.responseId o
         | None => modelName index
         end)
        ((λ m, MetricScore.mk (Metric.id m) (Metric.name m) (Some (Metric.description m))
                 (match Index.modelOutputs activeRecord !! index with
                  | Some o => Index.orNull (Index.remoteScore [] (Index.responseId o) (Metric.id m))
                  | None => None
                  end)) <$> metrics)) as [index ->].
    { rewrite !elem_of_cons, elem_of_nil in Hslot.
      destruct Hslot as [->|[->|[->|[]]]]; [by exists 0%nat|by exists 1%nat|by exists 2%nat]. }
    simpl. split; [by rewrite <- list_fmap_compose|].
    intros r [m [-> _]]%list_elem_of_fmap. simpl.
    by destruct (Index.modelOutputs activeRecord !! index). }
  rewrite (initializeEvaluations_ok _ _ _ _ entry) by done. simpl.
  split; [|done].
  exists entry. split; [reflexivity|].
  split; [apply Store_initAtId_lookup|]. done.
Qed.

Lemma hydration_fetch_failure_witness :
  let activeRecord :=
    Index.mkCaseRecord "c1"
      [Index.mkModelOutput "r1" "a"; Index.mkModelOutput "r2" "b"; Index.mkModelOutput "r3" "c"] in
  let metrics := [Metric.mk "m1" "Accuracy" ""] in
  let pg := Index.mkPage Store.initial [] false in
  Index.toasts (Index.initializeEvaluations activeRecord metrics Services.Rejected pg)
  = Index.toasts pg.
Proof.
  intros activeRecord metrics pg.
  apply (hydration_fetch_failure activeRecord metrics pg).
  - discriminate.
  - reflexivity.
Defined.

(** C3 as stated fails.  The case c1 holds the score 4 for r1 and m1; the
    fetch of its evaluations fails; after the hydration the cell is null and
    no notification has been raised. *)
Lemma hydration_fetch_failure_counterexample :
  let before :=
    Store.mkState
      {[ "c1" := [Evaluation.mk "r1" [MetricScore.mk "m1" "" None (Some 4%Z)]] ]} ∅ in
  let page' :=
    Index.initializeEvaluations
      (Index.mkCaseRecord "c1"
         [Index.mkModelOutput "r1" "a"; Index.mkModelOutput "r2" "b";
          Index.mkModelOutput "r3" "c"])
      [Metric.mk "m1" "Accuracy" ""] Services.Rejected
      (Index.mkPage before [] false) in
  Store.storedValue before "c1" "r1" "m1" = Some (Some 4%Z)
  ∧ Store.storedValue (Index.store page') "c1" "r1" "m1" = Some None
  ∧ Index.toasts page' = [].
Proof. vm_compute. repeat split. Qed.

(** ** Submission: [handleSubmit] *)

Section SubmissionFacts.
Import Services Index.

Lemma promiseAll_resolved {A : Type} (results : list A) :
  promiseAll (Resolved <$> results) = Ok results.
Proof.
  induction results as [|a results IH]; [done|].
  rewrite fmap_cons. simpl. by rewrite IH.
Qed.

Lemma promiseAll_rejected {A : Type} (promises : list (Http A)) :
  Rejected ∈ promises → promiseAll promises = Thrown "rejected".
Proof.
  induction promises as [|[a|] promises IH]; [by rewrite elem_of_nil| |done].
  rewrite elem_of_cons. intros [Hr|Hin]; [done|].
  simpl. by rewrite IH.
Qed.

Lemma updateSingleEvaluation_id (response : Http PersistResponse) :
  updateSingleEvaluation response = response.
Proof. by destruct response. Qed.

(** The calls issued, read off the records of the matrix. *)
Lemma slot_calls caseId evaluatorId rid ms :
  (λ metric, mkPersistCall caseId rid (MetricScore.id metric) evaluatorId
               (default 0%Z (MetricScore.value metric))) <$> List.filter scored ms
  = omap (persistFor caseId evaluatorId) ((λ metric, (rid, metric)) <$> ms).
Proof.
  induction ms as [|x ms IH]; [done|].
  rewrite fmap_cons. cbn [List.filter omap list_omap]. rewrite <- IH.
  unfold scored at 1, persistFor at 1. simpl.
  destruct (MetricScore.value x) as [v|] eqn:Hv; [|done].
  assert (bool_decide (v > 0)%Z = bool_decide (0 < v)%Z) as ->.
  { apply bool_decide_ext. lia. }
  destruct (bool_decide (0 < v)%Z); [|done].
  rewrite fmap_cons. simpl. by rewrite Hv.
Qed.

Lemma submissionCalls_records caseId evaluatorId currentEvaluations :
  submissionCalls caseId evaluatorId currentEvaluations
  = omap (persistFor caseId evaluatorId) (Store.records currentEvaluations).
Proof.
  induction currentEvaluations as [|m entry IH]; [done|].
  rewrite records_cons, omap_app, <- IH, <- slot_calls. reflexivity.
Qed.

Lemma submissionCalls_none caseId evaluatorId currentEvaluations :
  (∀ x, x ∈ Store.records currentEvaluations → scored x.2 = false) →
  submissionCalls caseId evaluatorId currentEvaluations = [].
Proof.
  rewrite submissionCalls_records.
  induction (Store.records currentEvaluations) as [|x l IH]; [done|].
  intros Hall. cbn [omap list_omap].
  rewrite IH by (intros y Hy; apply Hall; by right).
  specialize (Hall x (list_elem_of_here _ _)).
  unfold scored in Hall. unfold persistFor.
  destruct (MetricScore.value x.2) as [v|]; [|done].
  rewrite bool_decide_false; [done|].
  apply bool_decide_eq_false in Hall. lia.
Qed.

(** [handleSubmit] past its two guards. *)
Lemma handleSubmit_issued activeRecord evaluatorId backend pg currentEvaluations :
  id activeRecord ≠ "" → evaluatorId ≠ "" →
  Store.evaluation (store pg) !! id activeRecord = Some currentEvaluations →
  handleSubmit activeRecord (Some evaluatorId) backend pg
  = let issued := submissionCalls (id activeRecord) evaluatorId currentEvaluations in
    let page1 := setIsSubmitting true pg in
    mkSubmission
      (setIsSubmitting false
         match
           results ← promiseAll (imap (λ n call, backend n call) issued);
           lastResult ← orThrow "TypeError: lastResult is undefined" (last results);
           if bool_decide (status lastResult = "completed") then
             Ok (withStore (Store.setDoneForId (id activeRecord) true) (toast successToast page1))
           else
             p ← orThrow "TypeError: lastResult.progress is undefined" (progress lastResult);
             Ok (toast (partialToast p) page1)
         with
         | Ok page' => page'
         | Thrown _ => toast failureToast page1
         end)
      issued.
Proof.
  intros Hid Hev Hcur. unfold handleSubmit, submitTry.
  rewrite bool_decide_false by done. simpl. rewrite Hcur.
  destruct evaluatorId as [|c ev]; [done|].
  cbv zeta.
  rewrite (imap_ext (λ n call, updateSingleEvaluation (backend n call))
             (λ n call, backend n call))
    by (intros n call _; apply updateSingleEvaluation_id).
  reflexivity.
Qed.

(** A submission that throws before or while waiting reports the failure. *)
Lemma handleSubmit_no_evaluator activeRecord doctorId backend pg :
  id activeRecord ≠ "" → doctorId = None ∨ doctorId = Some "" →
  handleSubmit activeRecord doctorId backend pg
  = mkSubmission (mkPage (store pg) (toasts pg ++ [failureToast]) false) [].
Proof.
  intros Hid Hdoc. unfold handleSubmit, submitTry.
  rewrite bool_decide_false by done. by destruct Hdoc as [->| ->].
Qed.

End SubmissionFacts.




(** C1, as the code has it.  In a submission that passes the guards:
    - when every persist call resolves and the response of the last call in
      submission order has status completed, the success message is raised
      and the completion flag of the case is set to true;
    - when every call resolves and that status is not completed, the store
      (the flag with it) is left as it is, and, if that response carries
      progress counters, the message raised is the partial-progress message
      built from them;
    - when a call rejects, the generic failure message is raised and the
      store is left as it is. *)
Theorem submission_outcome
    (activeRecord : Index.CaseRecord) (evaluatorId : string)
    (backend : nat → Services.PersistCall → Services.Http Services.PersistResponse)
    (pg : Index.Page) (currentEvaluations : list Evaluation.t) :
  Index.id activeRecord ≠ "" → evaluatorId ≠ "" →
  Store.evaluation (Index.store pg) !! Index.id activeRecord = Some currentEvaluations →
  let issued := Index.submissionCalls (Index.id activeRecord) evaluatorId currentEvaluations in
  let responses := imap (λ n call, backend n call) issued in
  let sub := Index.handleSubmit activeRecord (Some evaluatorId) backend pg in
  (∀ results lastResult,
     responses = Services.Resolved <$> results → last results = Some lastResult →
     (Services.status lastResult = "completed" →
      Index.page sub
      = Index.mkPage (Store.setDoneForId (Index.id activeRecord) true (Index.store pg))
                     (Index.toasts pg ++ [Index.successToast]) false)
     ∧ (Services.status lastResult ≠ "completed" →
        Index.store (Index.page sub) = Index.store pg
        ∧ ∀ p, Services.progress lastResult = Some p →
               Index.toasts (Index.page sub) = Index.toasts pg ++ [Index.partialToast p]))
  ∧ (Services.Rejected ∈ responses →
     Index.page sub
     = Index.mkPage (Index.store pg) (Index.toasts pg ++ [Index.failureToast]) false).
Proof.
  intros Hid Hev Hcur issued responses sub. subst sub.
  rewrite (handleSubmit_issued _ _ _ _ _ Hid Hev Hcur). cbv zeta.
  fold issued. fold responses. split.
  - intros results lastResult -> Hlast.
    rewrite promiseAll_resolved. cbn [mbind result_bind]. rewrite Hlast.
    cbn [orThrow mbind result_bind]. split.
    + intros Hs. by rewrite bool_decide_true.
    + intros Hs. rewrite bool_decide_false by done.
      destruct (Services.progress lastResult) as [p|]; simpl.
      * split; [done|]. by intros p' [= <-].
      * done.
  - intros Hrej. by rewrite promiseAll_rejected.
Qed.

Lemma submission_outcome_witness :
  let pg :=
    Index.mkPage
      (Store.mkState
         {[ "c1" := [Evaluation.mk "model-1" [MetricScore.mk "m1" "" None (Some 4%Z);
                                              MetricScore.mk "m2" "" None (Some 2%Z)]] ]} ∅)
      [] false in
  let backend := λ (n : nat) (_ : Services.PersistCall),
    Services.Resolved
      (if bool_decide (n = 0%nat)
       then Services.mkPersistResponse "in_progress" (Some (Services.mkProgress 1 2))
       else Services.mkPersistResponse "completed" None) in
  Index.page (Index.handleSubmit (Index.mkCaseRecord "c1" []) (Some "doctor-7") backend pg)
  = Index.mkPage (Store.setDoneForId "c1" true (Index.store pg)) [Index.successToast] false.
Proof.
  intros pg backend.
  refine (proj1 (proj1 (submission_outcome (Index.mkCaseRecord "c1" []) "doctor-7" backend pg
            [Evaluation.mk "model-1" [MetricScore.mk "m1" "" None (Some 4%Z);
                                      MetricScore.mk "m2" "" None (Some 2%Z)]] _ _ _)
            [Services.mkPersistResponse "in_progress" (Some (Services.mkProgress 1 2));
             Services.mkPersistResponse "completed" None]
            (Services.mkPersistResponse "completed" None) _ _) _);
    first [discriminate | reflexivity].
Defined.

(** C1 as stated fails on a response that is not completed and carries no
    progress: the one call of the submission resolves with status
    in_progress, and the message raised is the generic failure, not a
    partial-progress message. *)
Lemma submission_outcome_counterexample :
  let pg :=
    Index.mkPage
      (Store.mkState
         {[ "c1" := [Evaluation.mk "model-1" [MetricScore.mk "m1" "" None (Some 4%Z)]] ]} ∅)
      [] false in
  let backend := λ (_ : nat) (_ : Services.PersistCall),
    Services.Resolved (Services.mkPersistResponse "in_progress" None) in
  let sub := Index.handleSubmit (Index.mkCaseRecord "c1" []) (Some "doctor-7") backend pg in
  Index.calls sub = [Services.mkPersistCall "c1" "model-1" "m1" "doctor-7" 4]
  ∧ imap backend (Index.calls sub)
    = [Services.Resolved (Services.mkPersistResponse "in_progress" None)]
  ∧ Index.toasts (Index.page sub) = [Index.failureToast]
  ∧ Store.doneForId (Index.store (Index.page sub)) !! "c1" = None.
Proof. vm_compute. repeat split. Qed.

(** A last response in progress, with its counters. *)
Example submission_partial :
  Index.toasts
    (Index.page
       (Index.handleSubmit (Index.mkCaseRecord "c1" []) (Some "doctor-7")
          (λ _ _, Services.Resolved
                    (Services.mkPersistResponse "in_progress" (Some (Services.mkProgress 2 3))))
          (Index.mkPage
             (Store.mkState
                {[ "c1" := [Evaluation.mk "model-1" [MetricScore.mk "m1" "" None (Some 4%Z)]] ]} ∅)
             [] false)))
  = [Index.mkToast "Partial Success" "2 of 3 evaluations completed" (Some "default")].
Proof. vm_compute. reflexivity. Qed.

(** C10.  A submission of a case that has an entry with no record whose
    value is not null and greater than 0 issues no persist call, raises the
    generic failure message and leaves the store, the completion flag of the
    case with it, as it is: whether or not the evaluator id is there. *)
Theorem submission_nothing_scored
    (activeRecord : Index.CaseRecord) (doctorId : option string)
    (backend : nat → Services.PersistCall → Services.Http Services.PersistResponse)
    (pg : Index.Page) (currentEvaluations : list Evaluation.t) :
  Index.id activeRecord ≠ "" →
  Store.evaluation (Index.store pg) !! Index.id activeRecord = Some currentEvaluations →
  (∀ x, x ∈ Store.records currentEvaluations → Index.scored x.2 = false) →
  let sub := Index.handleSubmit activeRecord doctorId backend pg in
  Index.calls sub = []
  ∧ Index.page sub
    = Index.mkPage (Index.store pg) (Index.toasts pg ++ [Index.failureToast]) false
  ∧ Store.doneForId (Index.store (Index.page sub)) = Store.doneForId (Index.store pg).
Proof.
  intros Hid Hcur Hnone sub. subst sub.
  destruct doctorId as [evaluatorId|].
  - destruct (decide (evaluatorId = "")) as [->|Hev].
    + rewrite handleSubmit_no_evaluator by auto. done.
    + rewrite (handleSubmit_issued _ _ _ _ _ Hid Hev Hcur). cbv zeta.
      rewrite submissionCalls_none by done. done.
  - rewrite handleSubmit_no_evaluator by auto. done.
Qed.

(** A case whose scores are null and 0. *)
Lemma submission_nothing_scored_witness :
  let pg :=
    Index.mkPage
      (Store.mkState
         {[ "c1" := [Evaluation.mk "model-1" [MetricScore.mk "m1" "" None None;
                                              MetricScore.mk "m2" "" None (Some 0%Z)]] ]} ∅)
      [] false in
  let sub := Index.handleSubmit (Index.mkCaseRecord "c1" []) (Some "doctor-7")
               (λ _ _, Services.Resolved (Services.mkPersistResponse "completed" None)) pg in
  Index.calls sub = []
  ∧ Index.page sub
    = Index.mkPage (Index.store pg) (Index.toasts pg ++ [Index.failureToast]) false
  ∧ Store.doneForId (Index.store (Index.page sub)) = Store.doneForId (Index.store pg).
Proof.
  intros pg sub. subst sub.
  apply (submission_nothing_scored (Index.mkCaseRecord "c1" []) (Some "doctor-7") _ pg
           [Evaluation.mk "model-1" [MetricScore.mk "m1" "" None None;
                                     MetricScore.mk "m2" "" None (Some 0%Z)]]).
  - discriminate.
  - reflexivity.
  - intros x Hx. simpl in Hx.
    rewrite !elem_of_cons, elem_of_nil in Hx. by destruct Hx as [->|[->|[]]].
Defined.

(** ** The score editor: [updateEvaluation] *)

(** C7.  An edit whose value is a number below 1 or above 5 is dropped: the
    store is the one before and no request is sent.  On a case that has an
    entry (as has every case whose table shows a select) or whose id is not
    a name every object inherits, an edit to null is applied to the store
    with [setEvaluation], after which the cell reads null (and the request
    sent carries the score 0), and an edit to a number from 1 to 5 is applied
    to the store and sent as it is. *)
Theorem updateEvaluation_validation
    (activeRecordId : string) (doctorId : option string) (responseId metricId : string)
    (store : Store.State) :
  (∀ v, (v < 1 ∨ 5 < v)%Z →
     EvaluationMetrics.updateEvaluation activeRecordId doctorId responseId metricId (Some v) store
     = (store, []))
  ∧ (Store.inherited activeRecordId = false ∨ is_Some (Store.evaluation store !! activeRecordId) →
     (∃ store',
        Store.setEvaluation activeRecordId (Store.mkPayload responseId metricId None) store
        = Ok store'
        ∧ EvaluationMetrics.updateEvaluation activeRecordId doctorId responseId metricId None store
          = (store', [EvaluationMetrics.mkRequest activeRecordId responseId metricId doctorId 0])
        ∧ Store.storedValue store' activeRecordId responseId metricId = Some None)
     ∧ (∀ v, (1 ≤ v ≤ 5)%Z →
        ∃ store',
          Store.setEvaluation activeRecordId (Store.mkPayload responseId metricId (Some v)) store
          = Ok store'
          ∧ EvaluationMetrics.updateEvaluation activeRecordId doctorId responseId metricId
              (Some v) store
            = (store', [EvaluationMetrics.mkRequest activeRecordId responseId metricId doctorId v])
          ∧ Store.storedValue store' activeRecordId responseId metricId = Some (Some v))).
Proof.
  unfold EvaluationMetrics.updateEvaluation, EvaluationMetrics.invalid.
  split.
  - intros v Hv.
    destruct Hv; [rewrite (bool_decide_true (v < 1)%Z) by done; done|].
    rewrite (bool_decide_true (v > 5)%Z) by lia. by rewrite orb_true_r.
  - intros Hkey. destruct (ensureEntry_is_Ok _ _ Hkey) as (entry & He).
    unfold Store.setEvaluation. rewrite He. cbn [mbind result_bind]. split.
    + eexists. split; [done|]. split; [done|].
      unfold Store.storedValue. cbn. rewrite lookup_insert_eq. cbn.
      apply (applyEdit_cell (Store.mkPayload responseId metricId None)).
    + intros v Hv. rewrite !bool_decide_false by lia. cbn [orb].
      eexists. split; [done|]. split; [done|].
      unfold Store.storedValue. cbn. rewrite lookup_insert_eq. cbn.
      apply (applyEdit_cell (Store.mkPayload responseId metricId (Some v))).
Qed.

(** The value 6 on a case the store has an entry for. *)
Lemma updateEvaluation_validation_witness :
  let store :=
    Store.mkState
      {[ "c1" := [Evaluation.mk "model-1" [MetricScore.mk "m1" "" None (Some 4%Z)]] ]} ∅ in
  EvaluationMetrics.updateEvaluation "c1" (Some "doctor-7") "model-1" "m1" (Some 6%Z) store
  = (store, []).
Proof.
  intros store.
  apply (proj1 (updateEvaluation_validation "c1" (Some "doctor-7") "model-1" "m1" store)).
  right. reflexivity.
Defined.

(** ** The adapter: [groundTruth] *)

Section GroundTruthFacts.
Import Services.
Variable JSON_parse : string → option jsval.

Lemma fieldsOf_object fields :
  fieldsOf (JObject fields)
  = mkGroundTruth
      (orElse (assoc "findings" fields) (JString ""))
      (orElse (orElse (assoc "impressions" fields) (assoc "impression" fields)) (JString "")).
Proof. reflexivity. Qed.

Lemma extract_fieldsOf o : o ≠ JNull → o ≠ JUndefined → extract o = Ok (fieldsOf o).
Proof. by destruct o. Qed.

Lemma groundTruth_plain s :
  startsWith (trim s) "{" = false →
  groundTruth JSON_parse (JString s) = mkGroundTruth (JString s) (JString "").
Proof.
  intros Hs. unfold groundTruth, groundTruthTry. simpl. rewrite Hs.
  by destruct s.
Qed.

End GroundTruthFacts.

(** C9, as the code has it.  [groundTruth] returns for every payload (it is a
    function: the [catch] leaves no exception).  An object has its fields
    extracted.  A string whose trimmed text starts with an opening brace is
    parsed: when parsing succeeds the fields of the result are extracted,
    when it fails the string is the findings and the impressions are empty.
    Every other string, whether JSON would parse it or not, is the findings,
    with empty impressions.  Anything else gives empty findings and
    impressions.  So the table of the specification holds for every
    payload but a string that parses as JSON and does not start with a
    brace. *)
Theorem groundTruth_table (JSON_parse : string → option Services.jsval)
    (payload : Services.jsval) :
  (Services.isObject payload = true →
   Services.groundTruth JSON_parse payload = Services.fieldsOf payload)
  ∧ (∀ s parsed, payload = Services.JString s →
       Services.startsWith (Services.trim s) "{" = true →
       JSON_parse s = Some parsed →
       parsed ≠ Services.JNull → parsed ≠ Services.JUndefined →
       Services.groundTruth JSON_parse payload = Services.fieldsOf parsed)
  ∧ (∀ s, payload = Services.JString s →
       Services.startsWith (Services.trim s) "{" = true →
       JSON_parse s = None →
       Services.groundTruth JSON_parse payload
       = Services.mkGroundTruth (Services.JString s) (Services.JString ""))
  ∧ (∀ s, payload = Services.JString s →
       Services.startsWith (Services.trim s) "{" = false →
       Services.groundTruth JSON_parse payload
       = Services.mkGroundTruth (Services.JString s) (Services.JString ""))
  ∧ (Services.isObject payload = false → (∀ s, payload ≠ Services.JString s) →
     Services.groundTruth JSON_parse payload
     = Services.mkGroundTruth (Services.JString "") (Services.JString ""))
  ∧ ((∀ s parsed, payload = Services.JString s → JSON_parse s = Some parsed →
        Services.startsWith (Services.trim s) "{" = true
        ∧ parsed ≠ Services.JNull ∧ parsed ≠ Services.JUndefined) →
     Services.groundTruth JSON_parse payload = Services.specGroundTruth JSON_parse payload).
Proof.
  repeat split.
  - intros Hobj. unfold Services.groundTruth, Services.groundTruthTry. rewrite Hobj.
    rewrite extract_fieldsOf; [done|by destruct payload..].
  - intros s parsed -> Hs Hp Hn Hu.
    unfold Services.groundTruth, Services.groundTruthTry. simpl. rewrite Hs, Hp. simpl.
    by rewrite extract_fieldsOf.
  - intros s -> Hs Hp.
    unfold Services.groundTruth, Services.groundTruthTry. simpl. by rewrite Hs, Hp.
  - intros s -> Hs. by apply groundTruth_plain.
  - intros Hobj Hstr.
    unfold Services.groundTruth, Services.groundTruthTry. rewrite Hobj.
    destruct payload; try done. by destruct (Hstr s).
  - intros Hgate.
    unfold Services.specGroundTruth.
    destruct (Services.isObject payload) eqn:Hobj.
    + unfold Services.groundTruth, Services.groundTruthTry. rewrite Hobj.
      rewrite extract_fieldsOf; [done|by destruct payload..].
    + destruct payload; try done.
      destruct (JSON_parse s) as [parsed|] eqn:Hp.
      * destruct (Hgate s parsed eq_refl Hp) as (Hs & Hn & Hu).
        unfold Services.groundTruth, Services.groundTruthTry. simpl. rewrite Hs, Hp. simpl.
        by rewrite extract_fieldsOf.
      * unfold Services.groundTruth, Services.groundTruthTry. simpl. rewrite Hp.
        destruct (Services.startsWith (Services.trim s) "{"); [done|]. by destruct s.
Qed.

(** A report in plain text. *)
Lemma groundTruth_table_witness :
  Services.groundTruth (λ _, None) (Services.JString "Lungs are clear.")
  = Services.mkGroundTruth (Services.JString "Lungs are clear.") (Services.JString "").
Proof.
  refine (proj1 (proj2 (proj2 (proj2 (groundTruth_table (λ _, None)
            (Services.JString "Lungs are clear."))))) "Lungs are clear." _ _);
    reflexivity.
Defined.

(** The empty object in a string, with a [JSON.parse] that knows it. *)
Example groundTruth_parsed :
  let parse := λ s, if bool_decide (s = " {}") then Some (Services.JObject []) else None in
  Services.groundTruth parse (Services.JString " {}")
  = Services.mkGroundTruth (Services.JString "") (Services.JString "").
Proof. reflexivity. Qed.

(** C9 as stated fails on a string that JSON parses and that does not start
    with a brace.  The text [[]] is JSON (an empty array; the [JSON.parse]
    here knows that text and nothing else): by the table of the
    specification it is parsed and has neither findings nor impressions; the
    code takes it as plain text and makes it the findings. *)
Lemma groundTruth_table_counterexample :
  let parse := λ s, if bool_decide (s = "[]") then Some (Services.JArray []) else None in
  parse "[]" = Some (Services.JArray [])
  ∧ Services.specGroundTruth parse (Services.JString "[]")
    = Services.mkGroundTruth (Services.JString "") (Services.JString "")
  ∧ Services.groundTruth parse (Services.JString "[]")
    = Services.mkGroundTruth (Services.JString "[]") (Services.JString "").
Proof. repeat split. Qed.

(** * More of the code *)

(** ** The store: what an edit leaves alone *)

Section EditFacts.
Import Store.

Ltac edit_cases :=
  repeat first
    [ rewrite setMetric_cons | rewrite applyEdit_cons
    | rewrite setMetric_nil | rewrite applyEdit_nil
    | progress simpl in * | case_bool_decide ];
  try congruence; try done.

Lemma setMetric_find_other p ms mid' :
  mid' ≠ metricId p →
  MetricScore.value <$> find (λ x, bool_decide (MetricScore.id x = mid')) (setMetric p ms)
  = MetricScore.value <$> find (λ x, bool_decide (MetricScore.id x = mid')) ms.
Proof. intros Hne. induction ms as [|x ms IH]; edit_cases. Qed.

Lemma cell_frame p entry rid' mid' :
  (rid', mid') ≠ (responseId p, metricId p) →
  cell (applyEdit p entry) rid' mid' = cell entry rid' mid'.
Proof.
  intros Hne. unfold cell.
  induction entry as [|m entry IH]; edit_cases.
  apply setMetric_find_other. congruence.
Qed.

Lemma cell_defaultEntry rid mid : cell defaultEntry rid mid = None.
Proof.
  unfold cell, defaultEntry. simpl.
  repeat (case_bool_decide; simpl; [done|]). done.
Qed.

Lemma storedValue_frame idx p st idx' rid' mid' :
  (idx', rid', mid') ≠ (idx, responseId p, metricId p) →
  storedValue (afterSetEvaluation idx p st) idx' rid' mid' = storedValue st idx' rid' mid'.
Proof.
  intros Hne. unfold storedValue.
  destruct (decide (idx' = idx)) as [->|Hidx]; [|by rewrite afterSetEvaluation_other].
  destruct (ensureEntry idx st) as [entry|e] eqn:He;
    [|by rewrite (afterSetEvaluation_Thrown _ _ _ _ He)].
  rewrite (setEvaluation_lookup _ _ _ _ He). cbn.
  rewrite cell_frame by congruence.
  destruct (ensureEntry_Ok _ _ _ He) as [->|(-> & _ & ->)]; [done|].
  apply cell_defaultEntry.
Qed.

Lemma storedValue_written idx p st entry :
  ensureEntry idx st = Ok entry →
  storedValue (afterSetEvaluation idx p st) idx (responseId p) (metricId p) = Some (value p).
Proof.
  intros He. unfold storedValue. rewrite (setEvaluation_lookup _ _ _ _ He). cbn.
  apply applyEdit_cell.
Qed.

(** Whether a call on [idx] throws is not changed by another call. *)
Lemma ensureEntry_after_Thrown idx idx' q st e :
  ensureEntry idx st = Thrown e → ensureEntry idx (afterSetEvaluation idx' q st) = Thrown e.
Proof.
  intros He. destruct (decide (idx' = idx)) as [->|Hne].
  - by rewrite (afterSetEvaluation_Thrown _ _ _ _ He).
  - unfold ensureEntry in *. by rewrite afterSetEvaluation_other.
Qed.

Lemma ensureEntry_after_Ok idx idx' q st entry :
  ensureEntry idx st = Ok entry →
  ∃ entry', ensureEntry idx (afterSetEvaluation idx' q st) = Ok entry'.
Proof.
  intros He. destruct (decide (idx' = idx)) as [->|Hne].
  - eexists. by apply ensureEntry_afterSetEvaluation.
  - exists entry. unfold ensureEntry in *. by rewrite afterSetEvaluation_other.
Qed.

End EditFacts.

(** X1.  An edit changes what one cell reads and nothing else: after
    [setEvaluation(idx, payload)], whether it returned or threw, every other
    cell, of the case edited or of any other case, reads what it read
    before, a cell that did not exist still does not, and the completion
    flags are the same. *)
Theorem setEvaluation_frame
    (idx : string) (p : Store.Payload) (st : Store.State) :
  (∀ idx' rid' mid',
     (idx', rid', mid') ≠ (idx, Store.responseId p, Store.metricId p) →
     Store.storedValue (Store.afterSetEvaluation idx p st) idx' rid' mid'
     = Store.storedValue st idx' rid' mid')
  ∧ Store.doneForId (Store.afterSetEvaluation idx p st) = Store.doneForId st.
Proof.
  split; [|apply afterSetEvaluation_doneForId].
  intros idx' rid' mid'. apply storedValue_frame.
Qed.

Lemma setEvaluation_frame_witness :
  Store.storedValue
    (Store.afterSetEvaluation "c1" (Store.mkPayload "model-1" "m2" (Some 5%Z))
       (Store.mkState
          {[ "c1" := [Evaluation.mk "model-1" [MetricScore.mk "m1" "" None (Some 3%Z)]] ]} ∅))
    "c1" "model-1" "m1"
  = Some (Some 3%Z).
Proof.
  rewrite (proj1 (setEvaluation_frame "c1" (Store.mkPayload "model-1" "m2" (Some 5%Z)) _)).
  - reflexivity.
  - discriminate.
Defined.

(** X2.  Two edits of different cells can be made in either order: every
    cell of every case reads the same after both orders (also when one of
    the calls, or both, throw). *)
Theorem setEvaluation_order
    (idx idx' : string) (p q : Store.Payload) (st : Store.State) :
  (idx, Store.responseId p, Store.metricId p) ≠ (idx', Store.responseId q, Store.metricId q) →
  ∀ i rid mid,
    Store.storedValue
      (Store.afterSetEvaluation idx p (Store.afterSetEvaluation idx' q st)) i rid mid
    = Store.storedValue
        (Store.afterSetEvaluation idx' q (Store.afterSetEvaluation idx p st)) i rid mid.
Proof.
  assert (∀ idx idx' p q st i rid mid,
            (idx, Store.responseId p, Store.metricId p)
            ≠ (idx', Store.responseId q, Store.metricId q) →
            (i, rid, mid) = (idx, Store.responseId p, Store.metricId p) →
            Store.storedValue
              (Store.afterSetEvaluation idx p (Store.afterSetEvaluation idx' q st)) i rid mid
            = Store.storedValue
                (Store.afterSetEvaluation idx' q (Store.afterSetEvaluation idx p st)) i rid mid)
    as Hcell.
  { clear. intros idx idx' p q st i rid mid Hne [= -> -> ->].
    rewrite (storedValue_frame idx' q) by done.
    destruct (Store.ensureEntry idx st) as [entry|e] eqn:He.
    - destruct (ensureEntry_after_Ok idx idx' q st entry He) as (entry' & He').
      by rewrite (storedValue_written _ _ _ _ He), (storedValue_written _ _ _ _ He').
    - pose proof (ensureEntry_after_Thrown idx idx' q st e He) as He'.
      rewrite (afterSetEvaluation_Thrown _ _ _ _ He), (afterSetEvaluation_Thrown _ _ _ _ He').
      by rewrite storedValue_frame. }
  intros Hne i rid mid.
  destruct (decide ((i, rid, mid) = (idx, Store.responseId p, Store.metricId p))) as [Hp|Hp];
    [by apply Hcell|].
  destruct (decide ((i, rid, mid) = (idx', Store.responseId q, Store.metricId q))) as [Hq|Hq].
  - symmetry. by apply Hcell.
  - by rewrite !storedValue_frame by done.
Qed.

Lemma setEvaluation_order_witness :
  Store.storedValue
    (Store.afterSetEvaluation "c1" (Store.mkPayload "model-1" "m1" (Some 2%Z))
       (Store.afterSetEvaluation "c1" (Store.mkPayload "model-9" "m1" None) Store.initial))
    "c1" "model-9" "m1"
  = Store.storedValue
      (Store.afterSetEvaluation "c1" (Store.mkPayload "model-9" "m1" None)
         (Store.afterSetEvaluation "c1" (Store.mkPayload "model-1" "m1" (Some 2%Z)) Store.initial))
      "c1" "model-9" "m1".
Proof. apply setEvaluation_order. discriminate. Defined.

(** ** The store: what an edit adds *)

Section ShapeFacts.
Import Store Shape.

Ltac shape_cases :=
  repeat first
    [ rewrite setMetric_cons | rewrite applyEdit_cons
    | rewrite setMetric_nil | rewrite applyEdit_nil
    | progress simpl in * | case_bool_decide ];
  try congruence; try done.

Lemma setMetric_same_shape p ms :
  is_Some (find (λ x, bool_decide (MetricScore.id x = metricId p)) ms) →
  (λ x, (MetricScore.id x, MetricScore.name x, MetricScore.description x)) <$> setMetric p ms
  = (λ x, (MetricScore.id x, MetricScore.name x, MetricScore.description x)) <$> ms.
Proof.
  induction ms as [|x ms IH]; shape_cases.
  intros Hfound. f_equal. by apply IH.
Qed.

Lemma setMetric_one_more p ms :
  find (λ x, bool_decide (MetricScore.id x = metricId p)) ms = None →
  length (setMetric p ms) = S (length ms).
Proof. induction ms as [|x ms IH]; shape_cases. intros Hnone. f_equal. by apply IH. Qed.

Lemma recordCount_cons m entry :
  recordCount (m :: entry) = (length (Evaluation.metrics m) + recordCount entry)%nat.
Proof. unfold recordCount. by rewrite records_cons, length_app, length_fmap. Qed.

Lemma applyEdit_same_shape p entry :
  is_Some (cell entry (responseId p) (metricId p)) →
  shape (applyEdit p entry) = shape entry.
Proof.
  unfold cell, shape.
  induction entry as [|m entry IH]; shape_cases.
  - intros Hfound. f_equal. f_equal. apply setMetric_same_shape.
    destruct (find _ (Evaluation.metrics m)); [by eexists|].
    by destruct Hfound.
  - intros Hfound. f_equal. by apply IH.
Qed.

Lemma applyEdit_one_more p entry :
  cell entry (responseId p) (metricId p) = None →
  recordCount (applyEdit p entry) = S (recordCount entry).
Proof.
  unfold cell.
  induction entry as [|m entry IH].
  - intros _. reflexivity.
  - rewrite applyEdit_cons. simpl. case_bool_decide as Hm; simpl.
    + intros Hnone. rewrite !recordCount_cons. simpl.
      rewrite setMetric_one_more; [done|].
      by destruct (find _ (Evaluation.metrics m)).
    + intros Hnone. rewrite !recordCount_cons, IH by done. lia.
Qed.

End ShapeFacts.

(** X3.  What an edit adds.  In a case that has an entry, an edit of a cell
    that exists changes a value and nothing else: the slots, and the id, name
    and description of every record, are the ones before, in their order; an
    edit of a cell that does not exist adds exactly one record.  In a case
    that has no entry and whose id is not a name every object inherits, the
    entry made holds one record, that of the edit.  In a case that has no
    entry and whose id is such a name the call throws and adds nothing. *)
Theorem setEvaluation_shape (idx : string) (p : Store.Payload) (st : Store.State) :
  let st' := Store.afterSetEvaluation idx p st in
  (∀ before, Store.evaluation st !! idx = Some before →
     ∃ after, Store.evaluation st' !! idx = Some after
       ∧ (is_Some (Store.cell before (Store.responseId p) (Store.metricId p)) →
          Shape.shape after = Shape.shape before)
       ∧ (Store.cell before (Store.responseId p) (Store.metricId p) = None →
          Shape.recordCount after = S (Shape.recordCount before)))
  ∧ (Store.evaluation st !! idx = None → Store.inherited idx = false →
     ∃ after, Store.evaluation st' !! idx = Some after
       ∧ Store.records after
         = [(Store.responseId p,
             MetricScore.mk (Store.metricId p) "" None (Store.value p))])
  ∧ (Store.evaluation st !! idx = None → Store.inherited idx = true → st' = st).
Proof.
  intros st'. subst st'. split; [|split].
  - intros before Hbefore. apply ensureEntry_Some in Hbefore.
    exists (Store.applyEdit p before). split; [by apply setEvaluation_lookup|].
    split; [apply applyEdit_same_shape | apply applyEdit_one_more].
  - intros Hnone Hkey. pose proof (ensureEntry_default idx st Hnone Hkey) as He.
    eexists. split; [by apply setEvaluation_lookup|].
    unfold Store.defaultEntry, Store.applyEdit, Store.records. cbn.
    destruct (bool_decide (modelName 0 = Store.responseId p)) eqn:H0; cbn;
      [by apply bool_decide_eq_true in H0 as <-|].
    destruct (bool_decide (modelName 1 = Store.responseId p)) eqn:H1; cbn;
      [by apply bool_decide_eq_true in H1 as <-|].
    destruct (bool_decide (modelName 2 = Store.responseId p)) eqn:H2; cbn;
      [by apply bool_decide_eq_true in H2 as <-|done].
  - intros Hnone Hkey. unfold Store.afterSetEvaluation, Store.setEvaluation, Store.ensureEntry.
    by rewrite Hnone, Hkey.
Qed.

Lemma setEvaluation_shape_witness :
  let st :=
    Store.mkState
      {[ "c1" := [Evaluation.mk "model-1" [MetricScore.mk "m1" "Accuracy" (Some "d") None]] ]} ∅ in
  ∃ after,
    Store.evaluation
      (Store.afterSetEvaluation "c1" (Store.mkPayload "model-1" "m1" (Some 4%Z)) st) !! "c1"
    = Some after
    ∧ (is_Some (Store.cell [Evaluation.mk "model-1" [MetricScore.mk "m1" "Accuracy" (Some "d") None]]
                  "model-1" "m1") →
       Shape.shape after
       = Shape.shape [Evaluation.mk "model-1" [MetricScore.mk "m1" "Accuracy" (Some "d") None]])
    ∧ (Store.cell [Evaluation.mk "model-1" [MetricScore.mk "m1" "Accuracy" (Some "d") None]]
         "model-1" "m1" = None →
       Shape.recordCount after
       = S (Shape.recordCount
              [Evaluation.mk "model-1" [MetricScore.mk "m1" "Accuracy" (Some "d") None]])).
Proof.
  intros st.
  apply (proj1 (setEvaluation_shape "c1" (Store.mkPayload "model-1" "m1" (Some 4%Z)) st)).
  reflexivity.
Defined.

(** X23.  The first edit of a case.  For a case the store has no entry for
    and whose id is not a name every object inherits, [setEvaluation]
    returns; the entry it stores is the three slots model-1, model-2,
    model-3 with no metric record, with the edit applied; the cell edited
    reads the value written; the entry has three slots when the responseId
    edited is one of the three, four otherwise. *)
Theorem setEvaluation_creates_default
    (idx : string) (p : Store.Payload) (st : Store.State) :
  Store.evaluation st !! idx = None → Store.inherited idx = false →
  ∃ st' entry',
    Store.setEvaluation idx p st = Ok st'
    ∧ Store.evaluation st' !! idx = Some entry'
    ∧ entry' = Store.applyEdit p [Evaluation.mk "model-1" []; Evaluation.mk "model-2" [];
                                  Evaluation.mk "model-3" []]
    ∧ Store.storedValue st' idx (Store.responseId p) (Store.metricId p)
      = Some (Store.value p)
    ∧ length entry' =
      (if bool_decide (Store.responseId p ∈ ["model-1"; "model-2"; "model-3"])
       then 3%nat else 4%nat)
    ∧ (∀ idx', idx' ≠ idx → Store.evaluation st' !! idx' = Store.evaluation st !! idx')
    ∧ Store.doneForId st' = Store.doneForId st.
Proof.
  intros Hnone Hkey. unfold Store.setEvaluation, Store.ensureEntry.
  rewrite Hnone, Hkey. cbn [mbind result_bind].
  eexists _, _. split; [done|]. cbn.
  split; [by rewrite lookup_insert_eq|]. split; [done|]. split; [|split; [|split]].
  - unfold Store.storedValue. cbn. rewrite lookup_insert_eq. cbn. apply applyEdit_cell.
  - apply applyEdit_length.
  - intros idx' Hne. by rewrite lookup_insert_ne.
  - done.
Qed.

(** The first edit of a case, on a response the default entry lacks. *)
Lemma setEvaluation_creates_default_witness :
  ∃ st' entry',
    Store.setEvaluation "c1" (Store.mkPayload "resp-9" "m1" (Some 2%Z)) Store.initial = Ok st'
    ∧ Store.evaluation st' !! "c1" = Some entry'
    ∧ entry' = Store.applyEdit (Store.mkPayload "resp-9" "m1" (Some 2%Z))
                 [Evaluation.mk "model-1" []; Evaluation.mk "model-2" [];
                  Evaluation.mk "model-3" []]
    ∧ Store.storedValue st' "c1" "resp-9" "m1" = Some (Some 2%Z)
    ∧ length entry' = 4%nat
    ∧ (∀ idx', idx' ≠ "c1" → Store.evaluation st' !! idx' = Store.evaluation Store.initial !! idx')
    ∧ Store.doneForId st' = Store.doneForId Store.initial.
Proof.
  apply (setEvaluation_creates_default "c1" (Store.mkPayload "resp-9" "m1" (Some 2%Z))
           Store.initial); reflexivity.
Defined.

(** ** The store: flags and entries under any sequence of calls *)

Section OpsFacts.
Import StoreOps.

Lemma step_flag idx op st :
  writesFlag idx op = false →
  Store.doneForId (step st op) !! idx = Store.doneForId st !! idx.
Proof.
  destruct op as [i p|i R|i b| |d]; simpl; try done.
  - intros _. by rewrite afterSetEvaluation_doneForId.
  - intros Hi%bool_decide_eq_false. by rewrite lookup_insert_ne.
Qed.

Lemma step_entry idx op st :
  writesEntry idx op = false →
  Store.evaluation (step st op) !! idx = Store.evaluation st !! idx.
Proof.
  destruct op as [i p|i R|i b| |d]; simpl; try done.
  - intros Hi%bool_decide_eq_false. by apply afterSetEvaluation_other.
  - intros Hi%bool_decide_eq_false. by rewrite lookup_insert_ne.
Qed.

Lemma run_flag idx ops : ∀ st,
  Forall (λ op, writesFlag idx op = false) ops →
  Store.doneForId (run ops st) !! idx = Store.doneForId st !! idx.
Proof.
  induction ops as [|op ops IH]; intros st Hall; [done|].
  apply Forall_cons in Hall as [Hop Hall].
  change (run (op :: ops) st) with (run ops (step st op)).
  by rewrite IH, step_flag.
Qed.

Lemma run_entry idx ops : ∀ st,
  Forall (λ op, writesEntry idx op = false) ops →
  Store.evaluation (run ops st) !! idx = Store.evaluation st !! idx.
Proof.
  induction ops as [|op ops IH]; intros st Hall; [done|].
  apply Forall_cons in Hall as [Hop Hall].
  change (run (op :: ops) st) with (run ops (step st op)).
  by rewrite IH, step_entry.
Qed.

End OpsFacts.

(** X4.  The completion flag of a case and its scores are written by
    different calls.  Through any sequence of store calls that holds no
    [setDoneForId] of the case, no [resetDoneStatus] and no [init], the flag
    of the case is the one before: edits and hydrations, of this case or
    another, never unmark or mark a case.  Through any sequence that holds no
    [setEvaluation] and no [initAtId] of the case and no [init], the entry of
    the case is the one before. *)
Theorem store_calls_independent
    (idx : string) (ops : list StoreOps.Op) (st : Store.State) :
  (Forall (λ op, StoreOps.writesFlag idx op = false) ops →
   Store.doneForId (StoreOps.run ops st) !! idx = Store.doneForId st !! idx)
  ∧ (Forall (λ op, StoreOps.writesEntry idx op = false) ops →
     Store.evaluation (StoreOps.run ops st) !! idx = Store.evaluation st !! idx).
Proof. split; [apply run_flag | apply run_entry]. Qed.

(** A case marked done, then edited, then hydrated again. *)
Lemma store_calls_independent_witness :
  Store.doneForId
    (StoreOps.run
       [StoreOps.SetEvaluation "c1" (Store.mkPayload "model-1" "m1" (Some 2%Z));
        StoreOps.InitAtId "c1" [Evaluation.mk "model-1" []];
        StoreOps.SetDoneForId "c2" false]
       (Store.setDoneForId "c1" true Store.initial)) !! "c1"
  = Store.doneForId (Store.setDoneForId "c1" true Store.initial) !! "c1".
Proof.
  apply (proj1 (store_calls_independent "c1" _ _)).
  repeat constructor.
Defined.

(** ** Hydration and edits *)

Section HydrationEditFacts.
Import Services Index.

Lemma defaultScores_ok outputs metrics existing :
  ∃ entry, defaultScores outputs metrics (EvaluationList existing) = Ok entry
    ∧ length entry = 3%nat
    ∧ ∀ slot, slot ∈ entry →
        MetricScore.id <$> Evaluation.metrics slot = Metric.id <$> metrics.
Proof.
  unfold defaultScores. rewrite !defaultScore_list. cbn [mbind result_bind].
  eexists. split; [reflexivity|]. split; [reflexivity|].
  intros slot Hslot. rewrite !elem_of_cons, elem_of_nil in Hslot.
  destruct Hslot as [->|[->|[->|[]]]]; simpl; by rewrite <- list_fmap_compose.
Qed.

Lemma run_edits_doneForId idx ops : ∀ st,
  Forall (λ op, ∃ p, op = StoreOps.SetEvaluation idx p) ops →
  Store.doneForId (StoreOps.run ops st) = Store.doneForId st.
Proof.
  induction ops as [|op ops IH]; intros st Hall; [done|].
  apply Forall_cons in Hall as [[p ->] Hall].
  change (StoreOps.run (StoreOps.SetEvaluation idx p :: ops) st)
    with (StoreOps.run ops (Store.afterSetEvaluation idx p st)).
  by rewrite IH, afterSetEvaluation_doneForId.
Qed.

Lemma initAtId_after_edits idx entry ops st :
  Forall (λ op, ∃ p, op = StoreOps.SetEvaluation idx p) ops →
  Store.initAtId idx entry (StoreOps.run ops st) = Store.initAtId idx entry st.
Proof.
  intros Hall. unfold Store.initAtId.
  rewrite (run_edits_doneForId idx ops st Hall). f_equal.
  apply map_eq. intros i. destruct (decide (i = idx)) as [->|Hne].
  - by rewrite !lookup_insert_eq.
  - rewrite !lookup_insert_ne by done. apply run_entry.
    eapply Forall_impl; [exact Hall|]. intros op [p ->]. simpl.
    by rewrite bool_decide_false.
Qed.

Lemma find_is_Some {A : Type} (p : A → bool) (l : list A) x :
  x ∈ l → p x = true → is_Some (find p l).
Proof.
  induction l as [|y l IH]; [by rewrite elem_of_nil|].
  rewrite elem_of_cons. simpl. intros [->|Hin] Hp.
  - rewrite Hp. by eexists.
  - destruct (p y); [by eexists|]. by apply IH.
Qed.

Lemma find_Some_elem {A : Type} (p : A → bool) (l : list A) x :
  find p l = Some x → x ∈ l ∧ p x = true.
Proof.
  induction l as [|y l IH]; [done|].
  simpl. destruct (p y) eqn:Hp.
  - intros [= <-]. split; [by left|done].
  - intros Hf. destruct (IH Hf). split; [by right|done].
Qed.

Lemma covered_cell entry rid mid :
  (∀ slot, slot ∈ entry → mid ∈ MetricScore.id <$> Evaluation.metrics slot) →
  rid ∈ Evaluation.responseId <$> entry →
  is_Some (Store.cell entry rid mid).
Proof.
  intros Hcov [slot [-> Hslot]]%list_elem_of_fmap. unfold Store.cell.
  destruct (find_is_Some (λ m, bool_decide (Evaluation.responseId m = Evaluation.responseId slot))
              entry slot Hslot) as [model Hmodel]; [by apply bool_decide_eq_true|].
  rewrite Hmodel. simpl.
  apply find_Some_elem in Hmodel as [Hin _].
  pose proof (Hcov model Hin) as Hm.
  apply list_elem_of_fmap in Hm as [x [-> Hx]].
  destruct (find_is_Some (λ y, bool_decide (MetricScore.id y = MetricScore.id x))
              (Evaluation.metrics model) x Hx) as [y Hy]; [by apply bool_decide_eq_true|].
  rewrite Hy. by eexists.
Qed.

End HydrationEditFacts.

(** X5.  A hydration overwrites the edits made before it: for a record with
    an id, a ready metric set and a fetch that ends with a list or fails, the
    page after hydration is the same whether or not any number of
    [setEvaluation] calls on the case came first. *)
Theorem hydration_discards_edits
    (activeRecord : Index.CaseRecord) (metrics : list Metric.t)
    (fetched : Services.Http Services.EvaluationsBody)
    (existing : list Services.EvaluationData)
    (ops : list StoreOps.Op) (pg : Index.Page) :
  Index.id activeRecord ≠ "" → Index.notReady metrics = false →
  Services.getExistingEvaluations fetched = Services.EvaluationList existing →
  Forall (λ op, ∃ p, op = StoreOps.SetEvaluation (Index.id activeRecord) p) ops →
  Index.initializeEvaluations activeRecord metrics fetched
    (Index.withStore (StoreOps.run ops) pg)
  = Index.initializeEvaluations activeRecord metrics fetched pg.
Proof.
  intros Hid Hready Hbody Hops.
  destruct (defaultScores_ok (Index.modelOutputs activeRecord) metrics existing)
    as (entry & Hentry & _).
  rewrite <- Hbody in Hentry.
  rewrite !(initializeEvaluations_ok _ _ _ _ entry) by done.
  simpl. by rewrite initAtId_after_edits.
Qed.

(** Two edits of the case, then a hydration whose fetch fails. *)
Lemma hydration_discards_edits_witness :
  let activeRecord := Index.mkCaseRecord "c1" [Index.mkModelOutput "r1" "a"] in
  let metrics := [Metric.mk "m1" "Accuracy" ""] in
  let pg := Index.mkPage Store.initial [] false in
  Index.initializeEvaluations activeRecord metrics Services.Rejected
    (Index.withStore
       (StoreOps.run [StoreOps.SetEvaluation "c1" (Store.mkPayload "r1" "m1" (Some 4%Z));
                      StoreOps.SetEvaluation "c1" (Store.mkPayload "r1" "m1" (Some 5%Z))]) pg)
  = Index.initializeEvaluations activeRecord metrics Services.Rejected pg.
Proof.
  intros activeRecord metrics pg.
  apply (hydration_discards_edits activeRecord metrics Services.Rejected []).
  - discriminate.
  - reflexivity.
  - reflexivity.
  - repeat constructor; by eexists.
Defined.

(** X6.  After a hydration every cell of the table exists: the entry has a
    record for every metric of the ready set in every slot.  So an edit of
    any slot and any metric of the set changes a value only: it appends no
    slot and no record, and the entry keeps its three slots. *)
Theorem hydration_covers_metrics
    (outputs : list Index.ModelOutput) (metrics : list Metric.t)
    (existing : list Services.EvaluationData) (entry : list Evaluation.t) :
  Index.defaultScores outputs metrics (Services.EvaluationList existing) = Ok entry →
  ∀ rid mid v,
    rid ∈ Evaluation.responseId <$> entry → mid ∈ Metric.id <$> metrics →
    is_Some (Store.cell entry rid mid)
    ∧ Shape.shape (Store.applyEdit (Store.mkPayload rid mid v) entry) = Shape.shape entry
    ∧ length (Store.applyEdit (Store.mkPayload rid mid v) entry) = 3%nat.
Proof.
  intros Hentry rid mid v Hrid Hmid.
  destruct (defaultScores_ok outputs metrics existing) as (entry' & Hentry' & Hlen & Hids).
  rewrite Hentry in Hentry'. injection Hentry' as <-.
  assert (is_Some (Store.cell entry rid mid)) as Hcell.
  { apply covered_cell; [|done]. intros slot Hslot. by rewrite Hids. }
  split; [done|]. split.
  - by apply (applyEdit_same_shape (Store.mkPayload rid mid v)).
  - rewrite applyEdit_length. simpl. by rewrite bool_decide_true.
Qed.

Lemma hydration_covers_metrics_witness :
  Shape.shape
    (Store.applyEdit (Store.mkPayload "model-2" "m1" (Some 3%Z))
       [Evaluation.mk "r1" [MetricScore.mk "m1" "Accuracy" (Some "") None];
        Evaluation.mk "model-2" [MetricScore.mk "m1" "Accuracy" (Some "") None];
        Evaluation.mk "model-3" [MetricScore.mk "m1" "Accuracy" (Some "") None]])
  = Shape.shape
      [Evaluation.mk "r1" [MetricScore.mk "m1" "Accuracy" (Some "") None];
       Evaluation.mk "model-2" [MetricScore.mk "m1" "Accuracy" (Some "") None];
       Evaluation.mk "model-3" [MetricScore.mk "m1" "Accuracy" (Some "") None]].
Proof.
  refine (proj1 (proj2 (hydration_covers_metrics [Index.mkModelOutput "r1" "a"]
            [Metric.mk "m1" "Accuracy" ""] [] _ _ "model-2" "m1" (Some 3%Z) _ _))).
  - reflexivity.
  - simpl. rewrite !elem_of_cons. auto.
  - simpl. rewrite !elem_of_cons. auto.
Defined.

(** ** The metrics table *)

Section TableFacts.
Import MetricsTable.

Lemma fallback_selected metrics mid :
  match find (λ x, bool_decide (MetricScore.id x = mid))
          ((λ m, MetricScore.mk (Metric.id m) (Metric.name m) None None) <$> metrics) with
  | Some x => MetricScore.value x
  | None => None
  end = None.
Proof.
  induction metrics as [|m metrics IH]; [done|].
  rewrite fmap_cons. simpl. by case_bool_decide.
Qed.

(** The select of a row and a metric shows the cell of the store, and the
    empty option when the store has no such cell. *)
Lemma selected_cell entry metrics mr metric :
  selected (rowModel entry metrics mr) metric
  = default None (Store.cell entry (id mr) (Metric.id metric)).
Proof.
  unfold selected, rowModel, Store.cell.
  destruct (find _ entry) as [model|]; simpl.
  - by destruct (find _ (Evaluation.metrics model)).
  - apply fallback_selected.
Qed.

Lemma rowModel_responseId entry metrics mr :
  Evaluation.responseId (rowModel entry metrics mr) = id mr.
Proof.
  unfold rowModel. destruct (find _ entry) as [model|] eqn:Hfind; [|done].
  apply find_Some_elem in Hfind as [_ Hid]. by apply bool_decide_eq_true in Hid.
Qed.

End TableFacts.

(** X7.  The colours, the validation of an edit and the options of a
    select.  A score has a colour exactly when it is one of the numbers 1,
    2, 3, 4, 5.  A score that has a colour is not null and passes the
    validation of [updateEvaluation].  For whole numbers the converse holds:
    a whole number passes the validation exactly when it has a colour.  It
    does not hold for every number: 2.5 and NaN pass the validation and have
    no colour.  Every value a select can send (null and 1 to 5) passes the
    validation. *)
Theorem getScoreColor_accepted :
  (∀ score, MetricsTable.getScoreColor score ≠ "" ↔
     ∃ v q, (1 ≤ v ≤ 5)%Z ∧ score = Some (MetricsTable.Finite q) ∧ (q == inject_Z v)%Q)
  ∧ (∀ score, MetricsTable.getScoreColor score ≠ "" →
       score ≠ None ∧ MetricsTable.invalidNumber score = false)
  ∧ (∀ value : option Z,
       MetricsTable.invalidNumber (MetricsTable.ofZ <$> value) = EvaluationMetrics.invalid value
       ∧ (MetricsTable.getScoreColor (MetricsTable.ofZ <$> value) ≠ "" ↔
          value ≠ None ∧ EvaluationMetrics.invalid value = false))
  ∧ (MetricsTable.invalidNumber (Some (MetricsTable.Finite (5 # 2))) = false
     ∧ MetricsTable.getScoreColor (Some (MetricsTable.Finite (5 # 2))) = ""
     ∧ MetricsTable.invalidNumber (Some MetricsTable.NaN) = false
     ∧ MetricsTable.getScoreColor (Some MetricsTable.NaN) = "")
  ∧ (∀ value, value ∈ MetricsTable.selectOptions → EvaluationMetrics.invalid value = false).
Proof.
  assert (∀ score, MetricsTable.getScoreColor score ≠ "" ↔
            ∃ v q, (1 ≤ v ≤ 5)%Z ∧ score = Some (MetricsTable.Finite q) ∧ (q == inject_Z v)%Q)
    as Hcol.
  { intros score. split.
    - destruct score as [[q| | |]|]; try done. cbn.
      destruct (Qeq_bool q (inject_Z 1)) eqn:H1;
        [intros _; exists 1%Z, q; split; [lia|]; split; [done|]; by apply Qeq_bool_iff|].
      destruct (Qeq_bool q (inject_Z 2)) eqn:H2;
        [intros _; exists 2%Z, q; split; [lia|]; split; [done|]; by apply Qeq_bool_iff|].
      destruct (Qeq_bool q (inject_Z 3)) eqn:H3;
        [intros _; exists 3%Z, q; split; [lia|]; split; [done|]; by apply Qeq_bool_iff|].
      destruct (Qeq_bool q (inject_Z 4)) eqn:H4;
        [intros _; exists 4%Z, q; split; [lia|]; split; [done|]; by apply Qeq_bool_iff|].
      destruct (Qeq_bool q (inject_Z 5)) eqn:H5;
        [intros _; exists 5%Z, q; split; [lia|]; split; [done|]; by apply Qeq_bool_iff|].
      done.
    - intros (v & q & Hv & -> & Hq). apply Qeq_bool_iff in Hq. cbn.
      assert (v = 1 ∨ v = 2 ∨ v = 3 ∨ v = 4 ∨ v = 5)%Z as Hcases by lia.
      destruct Hcases as [->|[->|[->|[->| ->]]]]; rewrite Hq; clear Hq;
        repeat (destruct (Qeq_bool q _)); by cbn. }
  assert (∀ value : option Z,
            MetricsTable.invalidNumber (MetricsTable.ofZ <$> value)
            = EvaluationMetrics.invalid value) as Hinv.
  { intros [v|]; [|done]. cbn. f_equal.
    - apply eq_true_iff_eq. rewrite negb_true_iff, bool_decide_eq_true.
      rewrite <- not_true_iff_false, Qle_bool_iff.
      change 1%Q with (inject_Z 1). rewrite <- Zle_Qle. lia.
    - apply eq_true_iff_eq. rewrite negb_true_iff, bool_decide_eq_true.
      rewrite <- not_true_iff_false, Qle_bool_iff.
      change 5%Q with (inject_Z 5). rewrite <- Zle_Qle. lia. }
  assert (∀ v, (1 ≤ v ≤ 5)%Z ↔ EvaluationMetrics.invalid (Some v) = false) as Hrange.
  { intros v. cbn. rewrite orb_false_iff, !bool_decide_eq_false. lia. }
  split; [exact Hcol|]. split; [|split; [|split]].
  - intros score (v & q & Hv & -> & Hq)%Hcol. split; [done|].
    cbn. apply orb_false_iff. rewrite !negb_false_iff, !Qle_bool_iff, Hq.
    change 1%Q with (inject_Z 1). change 5%Q with (inject_Z 5).
    rewrite <- !Zle_Qle. lia.
  - intros value. split; [apply Hinv|]. rewrite Hcol. split.
    + intros (v & q & Hv & Hvalue & Hq). destruct value as [v'|]; [|done].
      injection Hvalue as <-. apply inject_Z_injective in Hq as ->.
      split; [done|]. by apply Hrange.
    + intros [Hsome Hvalid]. destruct value as [v|]; [|done].
      exists v, (inject_Z v). split; [by apply Hrange|]. split; [done|]. reflexivity.
  - repeat split.
  - intros value. unfold MetricsTable.selectOptions. simpl.
    rewrite !elem_of_cons, elem_of_nil.
    intros [->|[->|[->|[->|[->|[->|[]]]]]]]; reflexivity.
Qed.

(** X8.  What the user picks is what the table shows.  In a case that has
    an entry, after the edit a select sends for a row and a metric (any
    accepted value), the select of that row and metric shows the value, and
    the select of every other row and metric shows what it showed. *)
Theorem table_edit_round_trip
    (activeRecordId : string) (doctorId : option string) (store : Store.State)
    (entry : list Evaluation.t) (metrics : list Metric.t)
    (mr : MetricsTable.ModelResponse) (metric : Metric.t) (value : option Z) :
  Store.evaluation store !! activeRecordId = Some entry →
  EvaluationMetrics.invalid value = false →
  ∃ entry',
    Store.evaluation
      (EvaluationMetrics.updateEvaluation activeRecordId doctorId
         (MetricsTable.row_responseId (MetricsTable.row entry metrics mr))
         (Metric.id metric) value store).1 !! activeRecordId = Some entry'
    ∧ MetricsTable.selected (MetricsTable.rowModel entry' metrics mr) metric = value
    ∧ ∀ mr' metric',
        (MetricsTable.id mr', Metric.id metric') ≠ (MetricsTable.id mr, Metric.id metric) →
        MetricsTable.selected (MetricsTable.rowModel entry' metrics mr') metric'
        = MetricsTable.selected (MetricsTable.rowModel entry metrics mr') metric'.
Proof.
  intros Hentry Hvalid.
  unfold EvaluationMetrics.updateEvaluation, Store.setEvaluation, Store.ensureEntry.
  rewrite Hvalid, Hentry. simpl.
  rewrite rowModel_responseId.
  set (p := Store.mkPayload (MetricsTable.id mr) (Metric.id metric) value).
  exists (Store.applyEdit p entry).
  split; [|split].
  - by rewrite lookup_insert_eq.
  - rewrite selected_cell. by rewrite (applyEdit_cell p).
  - intros mr' metric' Hne. rewrite !selected_cell.
    by rewrite (cell_frame p).
Qed.

Lemma table_edit_round_trip_witness :
  let entry := [Evaluation.mk "r1" [MetricScore.mk "m1" "Accuracy" (Some "") None]] in
  let store := Store.mkState {[ "c1" := entry ]} ∅ in
  let metrics := [Metric.mk "m1" "Accuracy" ""] in
  let mr := MetricsTable.mkModelResponse "r1" "Model 1" (Index.mkModelOutput "r1" "text") in
  ∃ entry',
    Store.evaluation
      (EvaluationMetrics.updateEvaluation "c1" (Some "doctor-7")
         (MetricsTable.row_responseId (MetricsTable.row entry metrics mr))
         "m1" (Some 4%Z) store).1 !! "c1" = Some entry'
    ∧ MetricsTable.selected (MetricsTable.rowModel entry' metrics mr)
        (Metric.mk "m1" "Accuracy" "") = Some 4%Z.
Proof.
  intros entry store metrics mr.
  destruct (table_edit_round_trip "c1" (Some "doctor-7") store entry metrics mr
              (Metric.mk "m1" "Accuracy" "") (Some 4%Z)) as (entry' & H1 & H2 & _).
  - reflexivity.
  - reflexivity.
  - exists entry'. split; assumption.
Defined.

Section RowFacts.
Import MetricsTable.

Lemma defaultScores_slot outputs metrics existing entry j o :
  Index.defaultScores outputs metrics (Services.EvaluationList existing) = Ok entry →
  outputs !! j = Some o → (j < 3)%nat → Index.responseId o ≠ "" →
  Index.responseId o ∈ Evaluation.responseId <$> entry.
Proof.
  unfold Index.defaultScores. rewrite !defaultScore_list. cbn [mbind result_bind].
  intros [= <-] Ho Hj Hid.
  destruct j as [|[|[|j]]]; [| | |lia]; rewrite !fmap_cons; simpl; rewrite Ho;
    rewrite (bool_decide_false _ Hid), !elem_of_cons; auto.
Qed.

Lemma modelResponses_elem modelReports mr :
  mr ∈ modelResponses modelReports →
  ∃ index, (index < 3)%nat ∧ mr = modelResponse modelReports index.
Proof.
  unfold modelResponses. intros [index [-> Hin]]%list_elem_of_fmap.
  exists index. split; [|done]. apply elem_of_seq in Hin. lia.
Qed.

End RowFacts.

(** X9.  The rows of the table and the slots of a hydrated entry.  For a
    record with at most three model outputs, each with a responseId, shown
    in any order ([modelReports] is a permutation of them): every row the
    table renders is the row of a model output with text, never of a
    placeholder; the hydrated entry has a slot for it, so the row shows that
    slot and not the all-null fallback; and the responseId its edits carry is
    that of the model output. *)
Theorem rows_have_slots
    (outputs modelReports : list Index.ModelOutput) (metrics : list Metric.t)
    (existing : list Services.EvaluationData) (entry : list Evaluation.t) :
  modelReports ≡ₚ outputs → (length outputs ≤ 3)%nat →
  Forall (λ o, Index.responseId o ≠ "") outputs →
  Index.defaultScores outputs metrics (Services.EvaluationList existing) = Ok entry →
  ∀ mr, In mr (List.filter MetricsTable.hasText (MetricsTable.modelResponses modelReports)) →
    MetricsTable.response mr ∈ outputs
    ∧ Index.response (MetricsTable.response mr) ≠ ""
    ∧ MetricsTable.id mr = Index.responseId (MetricsTable.response mr)
    ∧ MetricsTable.rowModel entry metrics mr ∈ entry
    ∧ MetricsTable.row_responseId (MetricsTable.row entry metrics mr)
      = Index.responseId (MetricsTable.response mr).
Proof.
  intros Hperm Hlen Hids Hentry mr [Hmr Htext]%List.filter_In.
  apply list_elem_of_In, modelResponses_elem in Hmr as (index & Hindex & ->).
  unfold MetricsTable.hasText, MetricsTable.modelResponse in Htext |- *. simpl in *.
  destruct (modelReports !! index) as [r|] eqn:Hr; [|done].
  assert (r ∈ outputs) as Hin.
  { rewrite <- Hperm. by eapply list_elem_of_lookup_2. }
  assert (Index.responseId r ≠ "") as Hid.
  { by apply (proj1 (Forall_forall _ _) Hids). }
  rewrite (bool_decide_false _ Hid).
  apply negb_true_iff, bool_decide_eq_false in Htext.
  destruct (proj1 (list_elem_of_lookup _ _) Hin) as [j Hj].
  assert (j < 3)%nat as Hj3 by (apply lookup_lt_Some in Hj; lia).
  pose proof (defaultScores_slot _ _ _ _ _ _ Hentry Hj Hj3 Hid) as Hslot.
  repeat split; try done.
  - unfold MetricsTable.rowModel. simpl.
    apply list_elem_of_fmap in Hslot as [slot [Hrid Hslot]].
    destruct (find_is_Some (λ m, bool_decide (Evaluation.responseId m = Index.responseId r))
                entry slot Hslot) as [model Hmodel]; [by apply bool_decide_eq_true|].
    rewrite Hmodel. by apply find_Some_elem in Hmodel as [? _].
  - unfold MetricsTable.row. simpl. by rewrite rowModel_responseId.
Qed.

(** One model output with text, hydrated and shown. *)
Lemma rows_have_slots_witness :
  let outputs := [Index.mkModelOutput "r1" "Lungs are clear."] in
  let metrics := [Metric.mk "m1" "Accuracy" ""] in
  let entry := [Evaluation.mk "r1" [MetricScore.mk "m1" "Accuracy" (Some "") None];
                Evaluation.mk "model-2" [MetricScore.mk "m1" "Accuracy" (Some "") None];
                Evaluation.mk "model-3" [MetricScore.mk "m1" "Accuracy" (Some "") None]] in
  MetricsTable.rowModel entry metrics (MetricsTable.modelResponse outputs 0) ∈ entry.
Proof.
  intros outputs metrics entry.
  refine (proj1 (proj2 (proj2 (proj2 (rows_have_slots outputs outputs metrics [] entry
            _ _ _ _ (MetricsTable.modelResponse outputs 0) _))))).
  - reflexivity.
  - simpl. lia.
  - repeat constructor. discriminate.
  - reflexivity.
  - simpl. left. reflexivity.
Defined.

(** ** The page's effects on mount *)

Section SessionFacts.
Import Session.

Lemma get_delete name params : get name (delete name params) = None.
Proof.
  unfold get, delete.
  induction params as [|[k v] params IH]; [done|].
  simpl. case_bool_decide as Hk; simpl; [done|].
  by rewrite bool_decide_false.
Qed.

Lemma get_delete_ne name name' params :
  name ≠ name' → get name (delete name' params) = get name params.
Proof.
  intros Hne. unfold get, delete.
  induction params as [|[k v] params IH]; [done|].
  simpl. destruct (decide (k = name')) as [->|Hk].
  - rewrite (bool_decide_true (name' = name')) by done. simpl.
    by rewrite (bool_decide_false (name' = name)).
  - rewrite (bool_decide_false (k = name')) by done. simpl.
    by case_bool_decide.
Qed.

Lemma mapM_result_length {A B : Type} (f : A → result B) (l : list A) (k : list B) :
  mapM f l = Ok k → length k = length l.
Proof.
  revert k. induction l as [|x l IH]; intros k; cbn [mapM].
  - by intros [= <-].
  - destruct (f x) as [y|e]; [|done]. cbn.
    destruct (mapM f l) as [k'|e]; [|done]. cbn. intros [= <-]. cbn. by rewrite (IH k').
Qed.

Lemma formatMetric_Thrown metric e :
  formatMetric metric = Thrown e → metric = Services.JNull ∨ metric = Services.JUndefined.
Proof. destruct metric; cbn; try done; auto. Qed.

Lemma formatMetric_null metric :
  metric = Services.JNull ∨ metric = Services.JUndefined →
  formatMetric metric = Thrown "TypeError".
Proof. by intros [->| ->]. Qed.

Lemma mapM_formatMetric_Thrown elems e :
  mapM formatMetric elems = Thrown e →
  Services.JNull ∈ elems ∨ Services.JUndefined ∈ elems.
Proof.
  induction elems as [|x elems IH]; [done|]. cbn [mapM].
  destruct (formatMetric x) as [y|e'] eqn:Hx.
  - cbn. destruct (mapM formatMetric elems) as [k|e'']; [done|]. cbn.
    intros He. destruct (IH He) as [?|?]; [left|right]; by apply elem_of_cons; right.
  - intros _. apply formatMetric_Thrown in Hx as [->| ->]; [left|right]; by apply elem_of_cons; left.
Qed.

Lemma mapM_formatMetric_null elems :
  Services.JNull ∈ elems ∨ Services.JUndefined ∈ elems →
  mapM formatMetric elems = Thrown "TypeError".
Proof.
  induction elems as [|x elems IH]; [by rewrite !elem_of_nil; intros [[]|[]]|].
  rewrite !elem_of_cons. intros Hin. cbn [mapM].
  destruct (formatMetric x) as [y|e] eqn:Hx.
  - cbn. rewrite IH; [done|].
    destruct Hin as [[Heq|?]|[Heq|?]]; auto; by rewrite <- Heq in Hx.
  - apply formatMetric_Thrown in Hx as Hx'. rewrite (formatMetric_null x Hx') in Hx.
    by injection Hx as <-.
Qed.

Lemma fetchMetrics_null elems metrics toasts :
  Services.JNull ∈ elems ∨ Services.JUndefined ∈ elems →
  fetchMetrics (Services.Resolved (Services.JArray elems)) metrics toasts
  = (metrics, toasts ++ [loadFailedToast]).
Proof.
  intros Hnull. unfold fetchMetrics, fetchMetricsTry.
  destruct elems as [|m ms]; [by rewrite !elem_of_nil in Hnull; destruct Hnull|].
  cbn [getMetrics]. by rewrite (mapM_formatMetric_null _ Hnull).
Qed.

Lemma formatMetric_sent raw : formatMetric (sent raw) = Ok (formatSent raw).
Proof.
  destruct raw as [i n [d|]]; unfold formatMetric, sent, formatSent; cbn; [|done].
  by destruct d.
Qed.

Lemma asMetric_formatSent raw :
  asMetric (formatSent raw)
  = Some (Metric.mk (raw_id raw) (raw_name raw) (default "" (raw_description raw))).
Proof. done. Qed.

End SessionFacts.

(** X10.  The forced reset.  With [force=true] in the address (as the first
    [force] parameter) the effect leaves the score map and the completion map
    empty, whatever they held, and an address with no [force] parameter at
    all; with anything else it changes nothing.  Either way the path and
    every other parameter (the [doctorId] among them) read as before, and
    running the effect again changes nothing: the reset does not repeat. *)
Theorem forceReset_once (location : Session.Location) (store : Store.State) :
  let after := Session.forceReset location store in
  (Session.get "force" (Session.search location) = Some "true" →
   after.2 = Store.mkState ∅ ∅
   ∧ Session.get "force" (Session.search after.1) = None)
  ∧ (Session.get "force" (Session.search location) ≠ Some "true" →
     after = (location, store))
  ∧ Session.pathname after.1 = Session.pathname location
  ∧ (∀ name, name ≠ "force" →
       Session.get name (Session.search after.1) = Session.get name (Session.search location))
  ∧ Session.forceReset after.1 after.2 = after.
Proof.
  intros after. subst after. unfold Session.forceReset.
  case_bool_decide as Hforce; simpl.
  - split; [intros _; split; [done|apply get_delete]|].
    split; [done|]. split; [done|].
    split; [intros name Hne; by apply get_delete_ne|].
    by rewrite get_delete.
  - split; [done|]. split; [done|]. split; [done|]. split; [done|].
    by rewrite bool_decide_false.
Qed.

(** The address [?doctorId=doctor-7&force=true] and a store that holds a
    flag. *)
Lemma forceReset_once_witness :
  let location := Session.mkLocation "/case/c1" [("doctorId", "doctor-7"); ("force", "true")] in
  let store := Store.setDoneForId "c1" true Store.initial in
  (Session.forceReset location store).2 = Store.mkState ∅ ∅
  ∧ Session.get "force" (Session.search (Session.forceReset location store).1) = None.
Proof.
  intros location store.
  apply (proj1 (forceReset_once location store)).
  reflexivity.
Defined.

(** X11.  Loading the metrics.  [getMetrics] never throws and never returns
    an empty list: it returns the elements of the body when the body is a
    non-empty array, the three fallback metrics otherwise and when the
    request fails.  So [fetchMetrics] never raises the no-metrics
    notification, and it ends in one of two ways.  It fails, raises Failed
    to load metrics from the backend and leaves the metric list as it was
    (the loading placeholder on the first load), exactly when the body is an
    array that holds null or undefined as an element.  Otherwise it raises
    nothing and sets a metric list as long as the list returned: the three
    fallback metrics, which are ready, when the request fails or the body is
    not a non-empty array; and for a body that is a non-empty array of
    metric objects, those metrics in order, with the empty string for a
    description that is missing or empty, ready exactly when the id of the
    first is not 0. *)
Theorem fetchMetrics_outcome
    (response : Services.Http Services.jsval)
    (metrics : list Session.Formatted) (toasts : list Index.Toast) :
  let after := Session.fetchMetrics response metrics toasts in
  let nullElement :=
    ∃ elems, response = Services.Resolved (Services.JArray elems)
             ∧ (Services.JNull ∈ elems ∨ Services.JUndefined ∈ elems) in
  Session.getMetrics response ≠ []
  ∧ (nullElement ↔ after = (metrics, toasts ++ [Session.loadFailedToast]))
  ∧ (¬ nullElement →
     after.2 = toasts ∧ length after.1 = length (Session.getMetrics response))
  ∧ ((∀ m ms, response ≠ Services.Resolved (Services.JArray (m :: ms))) →
     after.2 = toasts
     ∧ mapM Session.asMetric after.1
       = Some [Metric.mk "1" "Accuracy" ""; Metric.mk "2" "Completeness" "";
               Metric.mk "3" "Relevance" ""]
     ∧ Index.notReady [Metric.mk "1" "Accuracy" ""; Metric.mk "2" "Completeness" "";
                       Metric.mk "3" "Relevance" ""] = false)
  ∧ (∀ m ms, response = Services.Resolved (Services.JArray (Session.sent <$> m :: ms)) →
       let shown := (λ raw, Metric.mk (Session.raw_id raw) (Session.raw_name raw)
                              (default "" (Session.raw_description raw))) <$> m :: ms in
       after.2 = toasts
       ∧ mapM Session.asMetric after.1 = Some shown
       ∧ (Index.notReady shown = true ↔ Session.raw_id m = "0")).
Proof.
  intros after nullElement. subst after nullElement.
  split; [|split; [|split; [|split]]].
  - by destruct response as [[| | | | |[|m ms]|]|].
  - split; [intros (elems & -> & Hnull); by rewrite (fetchMetrics_null elems metrics toasts Hnull)|].
    unfold Session.fetchMetrics, Session.fetchMetricsTry.
    destruct (Session.getMetrics response) as [|m ms] eqn:Hget;
      [by destruct response as [[| | | | |[|m ms]|]|]|].
    destruct (mapM Session.formatMetric (m :: ms)) as [formatted|e] eqn:Hmap.
    + cbn. intros [= _ Htoasts]. by apply app_inv_head in Htoasts.
    + intros _. rewrite <- Hget in Hmap.
      destruct response as [[| | | | |[|m' ms']|]|]; try done.
      apply mapM_formatMetric_Thrown in Hmap. by exists (m' :: ms').
  - intros Hnot. unfold Session.fetchMetrics, Session.fetchMetricsTry.
    destruct (Session.getMetrics response) as [|m ms] eqn:Hget;
      [by destruct response as [[| | | | |[|m ms]|]|]|].
    destruct (mapM Session.formatMetric (m :: ms)) as [formatted|e] eqn:Hmap.
    + cbn. split; [by rewrite app_nil_r|]. by apply mapM_result_length in Hmap.
    + destruct Hnot. rewrite <- Hget in Hmap.
      destruct response as [[| | | | |[|m' ms']|]|]; try done.
      apply mapM_formatMetric_Thrown in Hmap. by exists (m' :: ms').
  - intros Hne.
    assert (Session.getMetrics response = Session.fallbackMetrics) as Hget.
    { destruct response as [[| | | | |[|m ms]|]|]; try done. by destruct (Hne m ms). }
    unfold Session.fetchMetrics, Session.fetchMetricsTry. rewrite Hget. cbn.
    by rewrite app_nil_r.
  - intros m ms -> shown. subst shown.
    unfold Session.fetchMetrics, Session.fetchMetricsTry.
    rewrite fmap_cons. cbn [Session.getMetrics]. rewrite <- fmap_cons.
    assert (∀ raws, mapM Session.formatMetric (Session.sent <$> raws)
                    = Ok (Session.formatSent <$> raws)) as Hfmt.
    { induction raws as [|raw raws IH]; [done|].
      rewrite !fmap_cons. cbn [mapM]. rewrite IH, formatMetric_sent. done. }
    assert (∀ raws, mapM Session.asMetric (Session.formatSent <$> raws)
                    = Some ((λ raw, Metric.mk (Session.raw_id raw) (Session.raw_name raw)
                                      (default "" (Session.raw_description raw))) <$> raws))
      as Has.
    { induction raws as [|raw raws IH]; [done|].
      rewrite !fmap_cons. cbn [mapM]. rewrite IH, asMetric_formatSent. done. }
    destruct (Session.sent <$> m :: ms) as [|x xs] eqn:Hsent; [done|].
    rewrite <- Hsent, Hfmt. cbn [mbind result_bind default fst snd].
    split; [by rewrite app_nil_r|]. split; [apply Has|].
    rewrite fmap_cons. cbn. apply bool_decide_eq_true.
Qed.

(** The request is rejected while the page still shows the loading metric. *)
Lemma fetchMetrics_outcome_witness :
  mapM Session.asMetric (Session.fetchMetrics Services.Rejected Session.initialMetrics []).1
  = Some [Metric.mk "1" "Accuracy" ""; Metric.mk "2" "Completeness" "";
          Metric.mk "3" "Relevance" ""].
Proof.
  refine (proj1 (proj2 (proj1 (proj2 (proj2 (proj2 (fetchMetrics_outcome Services.Rejected
            Session.initialMetrics [])))) _))).
  intros m ms. discriminate.
Defined.

(** A body that holds null: the request fails to load and the loading
    metric stays. *)
Example fetchMetrics_null_body :
  Session.fetchMetrics (Services.Resolved (Services.JArray [Services.JNull]))
    Session.initialMetrics []
  = (Session.initialMetrics, [Session.loadFailedToast]).
Proof. reflexivity. Qed.

(** ** The image viewer *)

Section ZoomFacts.
Import ImageViewer.

Lemma handleZoomIn_quarters (z : Q) (k : Z) :
  z == k # 4 → (2 ≤ k ≤ 12)%Z →
  ∃ k', handleZoomIn z == k' # 4 ∧ (2 ≤ k' ≤ 12)%Z
        ∧ k' = Z.min (k + 1) 12.
Proof.
  intros Hz Hk. unfold handleZoomIn.
  destruct (Q.min_spec (z + 0.25) 3) as [[Hlt Hmin]|[Hle Hmin]].
  - exists (k + 1)%Z. rewrite Hz in Hlt.
    assert (k + 1 < 12)%Z.
    { unfold Qlt, Qplus in Hlt. simpl in Hlt. lia. }
    split; [|lia]. rewrite Hmin, Hz. unfold Qeq, Qplus. simpl. lia.
  - exists 12%Z. rewrite Hz in Hle.
    assert (12 ≤ k + 1)%Z.
    { unfold Qle, Qplus in Hle. simpl in Hle. lia. }
    split; [|lia]. rewrite Hmin. reflexivity.
Qed.

Lemma handleZoomOut_quarters (z : Q) (k : Z) :
  z == k # 4 → (2 ≤ k ≤ 12)%Z →
  ∃ k', handleZoomOut z == k' # 4 ∧ (2 ≤ k' ≤ 12)%Z
        ∧ k' = Z.max (k - 1) 2.
Proof.
  intros Hz Hk. unfold handleZoomOut.
  destruct (Q.max_spec (z - 0.25) 0.5) as [[Hlt Hmax]|[Hle Hmax]].
  - exists 2%Z. rewrite Hz in Hlt.
    assert (k - 1 < 2)%Z.
    { unfold Qlt, Qminus, Qplus, Qopp in Hlt. simpl in Hlt. lia. }
    split; [|lia]. rewrite Hmax. reflexivity.
  - exists (k - 1)%Z. rewrite Hz in Hle.
    assert (2 ≤ k - 1)%Z.
    { unfold Qle, Qminus, Qplus, Qopp in Hle. simpl in Hle. lia. }
    split; [|lia]. rewrite Hmax, Hz. unfold Qeq, Qminus, Qplus, Qopp. simpl. lia.
Qed.

Lemma clicks_quarters cs :
  ∃ k, clicks cs == k # 4 ∧ (2 ≤ k ≤ 12)%Z.
Proof.
  induction cs as [|c cs IH] using rev_ind.
  - exists 4%Z. split; [reflexivity|lia].
  - destruct IH as (k & Hk & Hrange).
    unfold clicks. rewrite foldl_app. simpl. fold (clicks cs).
    destruct c.
    + destruct (handleZoomIn_quarters _ _ Hk Hrange) as (k' & ? & ? & _). by exists k'.
    + destruct (handleZoomOut_quarters _ _ Hk Hrange) as (k' & ? & ? & _). by exists k'.
Qed.

End ZoomFacts.

(** X12.  The zoom level stays in range.  After any sequence of zoom-in and
    zoom-out clicks, from the initial level 1, the level is a whole number of
    quarters between 0.5 and 3; at 3 a zoom-in and at 0.5 a zoom-out change
    nothing; and anywhere else in that range a zoom-in undoes a zoom-out and
    a zoom-out a zoom-in. *)
Theorem zoom_in_range (cs : list ImageViewer.Click) :
  (∃ k : Z, (ImageViewer.clicks cs == k # 4)%Q ∧ (2 ≤ k ≤ 12)%Z)
  ∧ (0.5 <= ImageViewer.clicks cs <= 3)%Q
  ∧ (ImageViewer.handleZoomIn 3 == 3)%Q
  ∧ (ImageViewer.handleZoomOut 0.5 == 0.5)%Q
  ∧ ((ImageViewer.clicks cs < 3)%Q →
     (ImageViewer.handleZoomOut (ImageViewer.handleZoomIn (ImageViewer.clicks cs))
      == ImageViewer.clicks cs)%Q)
  ∧ ((0.5 < ImageViewer.clicks cs)%Q →
     (ImageViewer.handleZoomIn (ImageViewer.handleZoomOut (ImageViewer.clicks cs))
      == ImageViewer.clicks cs)%Q).
Proof.
  destruct (clicks_quarters cs) as (k & Hk & Hrange).
  assert (0.5 <= ImageViewer.clicks cs <= 3)%Q as Hbounds.
  { rewrite Hk. unfold Qle. simpl. lia. }
  split; [by exists k|]. split; [exact Hbounds|].
  split; [reflexivity|]. split; [reflexivity|].
  split.
  - intros Hlt.
    destruct (handleZoomIn_quarters _ _ Hk Hrange) as (k1 & Hk1 & Hr1 & ->).
    destruct (handleZoomOut_quarters _ _ Hk1 Hr1) as (k2 & Hk2 & _ & ->).
    rewrite Hk2, Hk. rewrite Hk in Hlt.
    assert (k < 12)%Z by (unfold Qlt in Hlt; simpl in Hlt; lia).
    unfold Qeq. simpl. lia.
  - intros Hlt.
    destruct (handleZoomOut_quarters _ _ Hk Hrange) as (k1 & Hk1 & Hr1 & ->).
    destruct (handleZoomIn_quarters _ _ Hk1 Hr1) as (k2 & Hk2 & _ & ->).
    rewrite Hk2, Hk. rewrite Hk in Hlt.
    assert (2 < k)%Z by (unfold Qlt in Hlt; simpl in Hlt; lia).
    unfold Qeq. simpl. lia.
Qed.

(** Nine zoom-ins and a zoom-out. *)
Lemma zoom_in_range_witness :
  (ImageViewer.handleZoomIn
     (ImageViewer.handleZoomOut
        (ImageViewer.clicks (repeat ImageViewer.ZoomIn 9 ++ [ImageViewer.ZoomOut])))
   == ImageViewer.clicks (repeat ImageViewer.ZoomIn 9 ++ [ImageViewer.ZoomOut]))%Q.
Proof.
  apply (proj2 (proj2 (proj2 (proj2 (proj2
           (zoom_in_range (repeat ImageViewer.ZoomIn 9 ++ [ImageViewer.ZoomOut]))))))).
  reflexivity.
Defined.

(** ** The adapter: what [getRecords] and [getEvaluatorCasesWithDetails] resolve with *)

Section AdapterFacts.

Import Services Adapter.

Lemma bind_Ok {A B : Type} (m : result A) (f : A → result B) (b : B) :
  m ≫= f = Ok b → ∃ a, m = Ok a ∧ f a = Ok b.
Proof. destruct m as [a|e]; [by exists a | done]. Qed.

Ltac unbind :=
  repeat match goal with
  | H : (_ ≫= _) = Ok _ |- _ =>
      let a := fresh "v" in let Ha := fresh "Hv" in
      apply bind_Ok in H as (a & Ha & H)
  end.

Lemma mapM_Ok {A B : Type} (f : A → result B) (l : list A) (k : list B) :
  mapM f l = Ok k → Forall2 (λ x y, f x = Ok y) l k.
Proof.
  revert k. induction l as [|x l IH]; intros k H.
  - injection H as <-. constructor.
  - cbn [mapM] in H. unbind. injection H as <-. constructor; [done | by apply IH].
Qed.

Lemma mapOrEmpty_falsy {A : Type} (v : jsval) (f : jsval → result A) :
  truthy v = false → mapOrEmpty v f = Ok [].
Proof. intros Hv. unfold mapOrEmpty, orElse. by rewrite Hv. Qed.

Lemma mapOrEmpty_truthy {A : Type} (v : jsval) (f : jsval → result A) (l : list A) :
  truthy v = true → mapOrEmpty v f = Ok l → isArray v = true.
Proof. intros Hv. unfold mapOrEmpty, orElse. rewrite Hv. by destruct v. Qed.

Lemma mapOrEmpty_Forall {A : Type} (P : A → Prop) (v : jsval) (f : jsval → result A) (l : list A) :
  (∀ x y, f x = Ok y → P y) → mapOrEmpty v f = Ok l → Forall P l.
Proof.
  intros Hf. unfold mapOrEmpty. destruct (orElse v (JArray [])); try done.
  intros H%mapM_Ok. induction H; constructor; eauto.
Qed.

Lemma orElse_defaulted (v d : jsval) : defaulted d (orElse v d).
Proof. unfold defaulted, orElse. destruct (truthy v) eqn:Hv; [by left | by right]. Qed.

Lemma evaluationRecord_scoreSet (x : jsval) (e : EvaluationRecord) :
  evaluationRecord x = Ok e → scoreSet e.
Proof.
  unfold evaluationRecord. intros H. unbind. injection H as <-.
  apply orElse_defaulted.
Qed.

Lemma outputRecord_normal (x : jsval) (o : OutputRecord) :
  outputRecord x = Ok o →
  defaulted (JString "") (out_response o) ∧ Forall scoreSet (out_evaluations o).
Proof.
  unfold outputRecord. intros H. unbind. injection H as <-. split.
  - apply orElse_defaulted.
  - cbn. eapply mapOrEmpty_Forall; [apply evaluationRecord_scoreSet | done].
Qed.

Lemma recordData_spec (JSON_parse : string → option jsval) (urlKey idKey : string)
    (data : jsval) (r : RecordData) :
  recordData JSON_parse urlKey idKey data = Ok r →
  getProp data urlKey = Ok (rec_imageUrl r) ∧ normalised r ∧
  ∃ gt, getProp data "groundTruth" = Ok gt ∧ rec_groundTruth r = groundTruth JSON_parse gt.
Proof.
  unfold recordData. intros H. unbind. injection H as <-. cbn. split; [done|]. split.
  - split; cbn.
    + eapply mapOrEmpty_Forall; [apply evaluationRecord_scoreSet | done].
    + eapply mapOrEmpty_Forall; [apply outputRecord_normal | done].
  - eauto.
Qed.

Lemma attempt_Fulfilled {A : Type} (reply : Reply) (body : jsval → result A) (a : A) :
  attempt reply body = Fulfilled a → ∃ data, reply = Body data ∧ body data = Ok a.
Proof.
  destruct reply as [data|status]; cbn; [|done].
  destruct (body data) eqn:Hb; [|done]. intros [= <-]. eauto.
Qed.

Lemma hasImageUrl_caseRecords (JSON_parse : string → option jsval) (data : jsval) :
  hasImageUrl data = false → caseRecords JSON_parse data = Thrown invalidMessage.
Proof.
  unfold hasImageUrl, caseRecords. destruct (truthy data) eqn:Hd; [|done]. cbn.
  destruct (getProp data "imageUrl") as [v|e] eqn:Hp.
  - cbn. by intros ->.
  - by destruct data.
Qed.

Lemma caseRecords_hasImageUrl (JSON_parse : string → option jsval) (data : jsval) :
  hasImageUrl data = true →
  caseRecords JSON_parse data = (r ← recordData JSON_parse "imageUrl" "imageId" data; Ok [r]).
Proof.
  unfold hasImageUrl, caseRecords. destruct (truthy data) eqn:Hd; [|done]. cbn.
  destruct (getProp data "imageUrl") as [v|e] eqn:Hp; [|done].
  cbn. by intros ->.
Qed.

Lemma bind_Thrown {A B : Type} (m : result A) (f : A → result B) (e : string) :
  m ≫= f = Thrown e → m = Thrown e ∨ ∃ a, m = Ok a ∧ f a = Thrown e.
Proof. destruct m as [a|e']; intros H; [right; by exists a | left; by injection H as ->]. Qed.

Lemma typeErrors_bind {A B : Type} (m : result A) (f : A → result B) :
  typeErrors m → (∀ a, typeErrors (f a)) → typeErrors (m ≫= f).
Proof.
  intros Hm Hf e [H|(a & _ & H)]%bind_Thrown; [by apply Hm | by apply (Hf a)].
Qed.

Lemma typeErrors_Ok {A : Type} (a : A) : typeErrors (Ok a).
Proof. by intros e. Qed.

Lemma typeErrors_getProp (v : jsval) (key : string) : typeErrors (getProp v key).
Proof. intros e. destruct v; cbn; congruence. Qed.

Lemma typeErrors_mapM {A B : Type} (f : A → result B) (l : list A) :
  (∀ x, typeErrors (f x)) → typeErrors (mapM f l).
Proof.
  intros Hf. induction l as [|x l IH]; [apply typeErrors_Ok|].
  cbn [mapM]. apply typeErrors_bind; [apply Hf|]. intros y.
  apply typeErrors_bind; [apply IH|]. intros k. apply typeErrors_Ok.
Qed.

Lemma typeErrors_mapOrEmpty {A : Type} (v : jsval) (f : jsval → result A) :
  (∀ x, typeErrors (f x)) → typeErrors (mapOrEmpty v f).
Proof.
  intros Hf. unfold mapOrEmpty.
  destruct (orElse v (JArray [])); try (intros e; congruence).
  by apply typeErrors_mapM.
Qed.

Ltac type_errors :=
  repeat first
    [ apply typeErrors_Ok
    | apply typeErrors_getProp
    | apply typeErrors_bind; [|intros ?]
    | apply typeErrors_mapOrEmpty; intros ? ].

Lemma typeErrors_evaluationRecord (x : jsval) : typeErrors (evaluationRecord x).
Proof. unfold evaluationRecord. type_errors. Qed.

Lemma typeErrors_outputRecord (x : jsval) : typeErrors (outputRecord x).
Proof.
  unfold outputRecord. type_errors.
Qed.

Lemma typeErrors_metricRecord (x : jsval) : typeErrors (metricRecord x).
Proof. unfold metricRecord. type_errors. Qed.

Lemma typeErrors_recordData (JSON_parse : string → option jsval) (urlKey idKey : string)
    (data : jsval) :
  typeErrors (recordData JSON_parse urlKey idKey data).
Proof.
  unfold recordData. type_errors.
Qed.

Lemma typeErrors_caseWithDetails (x : jsval) : typeErrors (caseWithDetails x).
Proof. unfold caseWithDetails. type_errors. Qed.

Lemma attempt_RejectedWith {A : Type} (data : jsval) (body : jsval → result A) (e : Failure) :
  typeErrors (body data) →
  attempt (Body data) body = RejectedWith e → e = JsError "TypeError".
Proof.
  intros Hb. cbn. destruct (body data) as [a|message] eqn:H; [done|].
  rewrite (Hb message eq_refl). by intros [= <-].
Qed.

Lemma rethrow_HttpError (status : option Z) :
  rethrow (HttpError status) =
  if bool_decide (status = Some 504%Z) then JsError timeoutMessage else HttpError status.
Proof.
  case_bool_decide as Hs; [by subst|].
  destruct status as [s|]; [|done].
  destruct s as [|p|p]; try done.
  repeat (destruct p as [p|p|]; try done).
Qed.

End AdapterFacts.

(** X13.  [getRecords] on a case ([doctorId] absent, empty or different from
    [id]): when it resolves, the case request returned a body with a truthy
    [imageUrl], and the result is exactly one record, holding that
    [imageUrl], in which every score is a truthy value or [0], every response
    text a truthy value or the empty string, and the ground truth is the one
    normalised from the body's [groundTruth]. *)
Theorem getRecords_case (JSON_parse : string → option Services.jsval)
    (id : string) (doctorId : option string) (caseReply casesReply : Adapter.Reply)
    (records : list Adapter.RecordData) :
  Adapter.isCaseId id doctorId = true →
  Adapter.getRecords JSON_parse id doctorId caseReply casesReply = Adapter.Fulfilled records →
  ∃ data r gt,
    caseReply = Adapter.Body data ∧ records = [r] ∧
    Adapter.hasImageUrl data = true ∧
    Services.getProp data "imageUrl" = Ok (Adapter.rec_imageUrl r) ∧
    Adapter.normalised r ∧
    Services.getProp data "groundTruth" = Ok gt ∧
    Adapter.rec_groundTruth r = Services.groundTruth JSON_parse gt.
Proof.
  intros Hcase. unfold Adapter.getRecords. rewrite Hcase.
  intros (data & -> & Hbody)%attempt_Fulfilled.
  destruct (Adapter.hasImageUrl data) eqn:Hurl.
  - rewrite caseRecords_hasImageUrl in Hbody by done.
    apply bind_Ok in Hbody as (r & Hr & [= <-]).
    apply recordData_spec in Hr as (Hu & Hn & gt & Hg & Hgt).
    by exists data, r, gt.
  - by rewrite hasImageUrl_caseRecords in Hbody.
Qed.

Lemma getRecords_case_witness :
  let data := Services.JObject [("id", Services.JString "c1");
                                ("imageUrl", Services.JString "x.png");
                                ("evaluations", Services.JArray [Services.JObject [("score", Services.JNull)]])] in
  ∃ data' r gt,
    Adapter.Body data = Adapter.Body data' ∧
    [Adapter.mkRecordData (Services.JString "c1") (Services.JString "x.png") Services.JUndefined
       Services.JUndefined [] []
       [Adapter.mkEvaluationRecord Services.JUndefined Services.JUndefined Services.JUndefined
          (Services.JNumber 0)]
       (Services.mkGroundTruth (Services.JString "") (Services.JString "")) Services.JUndefined] = [r] ∧
    Adapter.hasImageUrl data' = true ∧
    Services.getProp data' "imageUrl" = Ok (Adapter.rec_imageUrl r) ∧
    Adapter.normalised r ∧
    Services.getProp data' "groundTruth" = Ok gt ∧
    Adapter.rec_groundTruth r = Services.groundTruth (λ _, None) gt.
Proof.
  intros data.
  exact (getRecords_case (λ _, None) "c1" None (Adapter.Body data) (Adapter.Failed None) _
           eq_refl eq_refl).
Defined.

(** X14.  [getRecords] on an evaluator ([doctorId] is [id], not empty): when
    it resolves, the request for the evaluator's cases returned an array, and
    the result has one record per item, in order, with the item's
    [image_url] whatever it is (there is no check of it here), scores and
    texts defaulted and the ground truth normalised as for a case. *)
Theorem getRecords_evaluator (JSON_parse : string → option Services.jsval)
    (id : string) (caseReply casesReply : Adapter.Reply)
    (records : list Adapter.RecordData) :
  id ≠ "" →
  Adapter.getRecords JSON_parse id (Some id) caseReply casesReply = Adapter.Fulfilled records →
  ∃ items,
    casesReply = Adapter.Body (Services.JArray items) ∧
    Forall2 (λ item r,
        Services.getProp item "image_url" = Ok (Adapter.rec_imageUrl r) ∧
        Adapter.normalised r ∧
        ∃ gt, Services.getProp item "groundTruth" = Ok gt ∧
              Adapter.rec_groundTruth r = Services.groundTruth JSON_parse gt)
      items records.
Proof.
  intros Hid. unfold Adapter.getRecords.
  assert (Adapter.isCaseId id (Some id) = false) as ->.
  { unfold Adapter.isCaseId. destruct id; [done|]. by rewrite bool_decide_eq_true_2. }
  intros (data & -> & Hbody)%attempt_Fulfilled.
  destruct data as [| | | | |items|]; try done. exists items. split; [done|].
  apply mapM_Ok in Hbody.
  eapply Forall2_impl; [exact Hbody|]. intros item r Hr. by apply recordData_spec in Hr.
Qed.

Lemma getRecords_evaluator_witness :
  let item := Services.JObject [("id", Services.JString "c1")] in
  ∃ items,
    Adapter.Body (Services.JArray [item]) = Adapter.Body (Services.JArray items) ∧
    Forall2 (λ item r,
        Services.getProp item "image_url" = Ok (Adapter.rec_imageUrl r) ∧
        Adapter.normalised r ∧
        ∃ gt, Services.getProp item "groundTruth" = Ok gt ∧
              Adapter.rec_groundTruth r = Services.groundTruth (λ _, None) gt)
      items
      [Adapter.mkRecordData (Services.JString "c1") Services.JUndefined Services.JUndefined
         Services.JUndefined [] [] []
         (Services.mkGroundTruth (Services.JString "") (Services.JString "")) Services.JUndefined].
Proof.
  intros item.
  refine (getRecords_evaluator (λ _, None) "d1" (Adapter.Failed None)
            (Adapter.Body (Services.JArray [item])) _ _ eq_refl).
  done.
Defined.

(** X15.  How [getRecords] is rejected.  When the request fails, with the
    time-out message for a response of status 504 and with the error of the
    request otherwise; on a case, with the message of an invalid case when
    the body is falsy or has no truthy [imageUrl]; and in no other way than
    with a [TypeError] thrown by the mapping. *)
Theorem getRecords_rejected (JSON_parse : string → option Services.jsval)
    (id : string) (doctorId : option string) (caseReply casesReply : Adapter.Reply) :
  let outcome := Adapter.getRecords JSON_parse id doctorId caseReply casesReply in
  match Adapter.requested id doctorId caseReply casesReply with
  | Adapter.Failed status =>
      outcome = Adapter.RejectedWith
                  (if bool_decide (status = Some 504%Z)
                   then Adapter.JsError Adapter.timeoutMessage
                   else Adapter.HttpError status)
  | Adapter.Body data =>
      if Adapter.isCaseId id doctorId && negb (Adapter.hasImageUrl data)
      then outcome = Adapter.RejectedWith (Adapter.JsError Adapter.invalidMessage)
      else ∀ e, outcome = Adapter.RejectedWith e → e = Adapter.JsError "TypeError"
  end.
Proof.
  intros outcome. subst outcome. unfold Adapter.getRecords, Adapter.requested.
  destruct (Adapter.isCaseId id doctorId) eqn:Hroute.
  - destruct caseReply as [data|status].
    + destruct (Adapter.hasImageUrl data) eqn:Hurl; cbn [andb negb].
      * intros e. apply attempt_RejectedWith.
        rewrite caseRecords_hasImageUrl by done.
        apply typeErrors_bind; [apply typeErrors_recordData | intros r; apply typeErrors_Ok].
      * cbn. by rewrite hasImageUrl_caseRecords.
    + cbn [Adapter.attempt]. by rewrite rethrow_HttpError.
  - destruct casesReply as [data|status].
    + cbn [andb]. intros e. apply attempt_RejectedWith.
      destruct data; try (intros m; cbn; congruence).
      apply typeErrors_mapM. intros x. apply typeErrors_recordData.
    + cbn [Adapter.attempt]. by rewrite rethrow_HttpError.
Qed.

(** X16.  What [getEvaluatorCasesWithDetails] does with the body it gets.  A
    body whose [cases] is an array is returned as it is, nothing defaulted.
    Otherwise the function resolves only when [cases] is falsy, and then with
    an empty [cases]: the defaults written for the fields of a case are never
    applied.  A failed request is rejected as in [getRecords], anything else
    with a [TypeError]. *)
Theorem getEvaluatorCasesWithDetails_outcomes (reply : Adapter.Reply) :
  match Adapter.getEvaluatorCasesWithDetails reply with
  | Adapter.Fulfilled (Adapter.AsReceived casesData) =>
      reply = Adapter.Body casesData ∧
      ∃ items, Services.getProp casesData "cases" = Ok (Services.JArray items)
  | Adapter.Fulfilled (Adapter.Rebuilt cases _ _ _ _) =>
      cases = [] ∧
      ∃ casesData v, reply = Adapter.Body casesData ∧
        Services.getProp casesData "cases" = Ok v ∧ Services.truthy v = false
  | Adapter.RejectedWith e =>
      match reply with
      | Adapter.Failed status =>
          e = if bool_decide (status = Some 504%Z)
              then Adapter.JsError Adapter.timeoutMessage
              else Adapter.HttpError status
      | Adapter.Body casesData =>
          e = Adapter.JsError "TypeError" ∧
          ∀ v, Services.getProp casesData "cases" = Ok v →
               Services.truthy v = true ∧ Adapter.isArray v = false
      end
  end.
Proof.
  unfold Adapter.getEvaluatorCasesWithDetails.
  destruct reply as [casesData|status]; [|cbn [Adapter.attempt]; by rewrite rethrow_HttpError].
  cbn [Adapter.attempt]. unfold Adapter.casesWithDetails.
  destruct (Services.getProp casesData "cases") as [v|m] eqn:Hcases; cbn [mbind result_bind].
  - destruct (Services.truthy v) eqn:Hv; cbn [andb].
    + destruct (Adapter.isArray v) eqn:Harr.
      * split; [done|]. destruct v; try done. eauto.
      * assert (Adapter.mapOrEmpty v Adapter.caseWithDetails = Thrown "TypeError") as ->.
        { unfold Adapter.mapOrEmpty, Services.orElse. rewrite Hv. by destruct v. }
        cbn. split; [done|]. by intros ? [= <-].
    + rewrite mapOrEmpty_falsy by done. cbn [mbind result_bind].
      assert (∀ key, ∃ w, Services.getProp casesData key = Ok w) as Hkey.
      { intros key. destruct casesData; cbn in *; try done; eauto. }
      destruct (Hkey "total_cases") as [? ->], (Hkey "pending_cases") as [? ->],
        (Hkey "in_progress_cases") as [? ->], (Hkey "completed_cases") as [? ->].
      cbn. split; [done|]. eauto.
  - cbn. rewrite (typeErrors_getProp _ _ _ Hcases). by split.
Qed.

(** ** The store on the heap *)

Section HeapStoreFacts.

Import Heap HeapStore.

Implicit Types (h : gmap loc obj) (T : list Slot) (s : Slot).





(** *** Layouts *)

Lemma holdsCell_frame h h' c :
  h' !! c.1 = h !! c.1 → holdsCell h c → holdsCell h' c.
Proof. unfold holdsCell. by intros ->. Qed.

Lemma holdsSlot_allocated h s l :
  holdsSlot h s → l ∈ slotLocs s → is_Some (h !! l).
Proof.
  intros (Hl & Hms & Hcells). unfold slotLocs.
  rewrite !elem_of_cons, list_elem_of_fmap.
  intros [->|[->|(c & -> & Hc)]]; [by eexists | by eexists|].
  rewrite Forall_forall in Hcells. specialize (Hcells c Hc). by eexists.
Qed.

Lemma holds_allocated h a T l :
  holds h a T → l ∈ entryLocs a T → is_Some (h !! l).
Proof.
  intros (Ha & HT). unfold entryLocs.
  rewrite elem_of_cons, list_elem_of_bind.
  intros [->|(s & Hl & Hs)]; [by eexists|].
  rewrite Forall_forall in HT. eapply holdsSlot_allocated; eauto.
Qed.

Lemma holdsSlot_frame h h' s :
  (∀ l, l ∈ slotLocs s → h' !! l = h !! l) → holdsSlot h s → holdsSlot h' s.
Proof.
  intros Hf (Hl & Hms & Hcells). unfold slotLocs in Hf. repeat split.
  - rewrite Hf; [done | set_solver].
  - rewrite Hf; [done | set_solver].
  - rewrite Forall_forall in Hcells |- *. intros c Hc. unfold holdsCell.
    rewrite Hf; [by apply Hcells|].
    rewrite !elem_of_cons, list_elem_of_fmap. right; right. by exists c.
Qed.

Lemma holds_frame h h' a T :
  (∀ l, l ∈ entryLocs a T → h' !! l = h !! l) → holds h a T → holds h' a T.
Proof.
  intros Hf (Ha & HT). unfold entryLocs in Hf. split.
  - rewrite Hf; [done | set_solver].
  - rewrite Forall_forall in HT |- *. intros s Hs.
    apply (holdsSlot_frame h); [|by apply HT].
    intros l Hl. apply Hf. rewrite elem_of_cons, list_elem_of_bind. right. by exists s.
Qed.

Lemma holds_weaken h h' a T : h ⊆ h' → holds h a T → holds h' a T.
Proof.
  intros Hsub HT. apply (holds_frame h); [|done].
  intros l Hl. destruct (holds_allocated _ _ _ _ HT Hl) as [o Ho].
  rewrite Ho. by apply (lookup_weaken h).
Qed.









(** *** One edit, on the layout *)







(** *** New entries: the default one and the copy of [initAtId] *)





Section CopyLayout.

Context {V L : Type} (read : gmap loc obj → loc → option V)
        (copy : loc → gmap loc obj → option (loc * gmap loc obj))
        (rootOf : L → loc) (valueOf : L → V) (locsOf : L → list loc)
        (held : gmap loc obj → L → Prop).
Hypothesis held_weaken : ∀ h h' t, h ⊆ h' → held h t → held h' t.
Hypothesis held_allocated : ∀ h t l, held h t → l ∈ locsOf t → is_Some (h !! l).
Hypothesis read_stable : stable read.
Hypothesis copy_layout : ∀ h l v, read h l = Some v →
  ∃ t h', copy l h = Some (rootOf t, h') ∧ valueOf t = v ∧ held h' t ∧
          NoDup (locsOf t) ∧ (∀ x, x ∈ locsOf t → h !! x = None) ∧ h ⊆ h'.



End CopyLayout.






(** *** The store: one call *)



Lemma Store_initAtId_eq idx R (V : Store.State) :
  Store.initAtId idx R V =
  Store.mkState (<[idx := R]> (Store.evaluation V)) (Store.doneForId V).
Proof.
  unfold Store.initAtId. do 2 f_equal.
  induction R as [|[rid ms] R IH]; [done|].
  rewrite fmap_cons, IH. cbn. by rewrite list_fmap_id.
Qed.





(** *** The store: any series of calls, from a store with no entry *)


End HeapStoreFacts.





(** ** What a submission sends and how it ends *)

Section SubmitFacts.

Import Services Index.

Lemma find_unique {A : Type} (key : A → string) (l : list A) (x : A) :
  NoDup (key <$> l) → x ∈ l → find (λ y, bool_decide (key y = key x)) l = Some x.
Proof.
  induction l as [|y l IH]; [by rewrite elem_of_nil|].
  rewrite fmap_cons, NoDup_cons, elem_of_cons. intros [Hy Hnd] Hx. cbn [find].
  case_bool_decide as Hk.
  - destruct Hx as [->|Hx]; [done|]. destruct Hy. rewrite Hk.
    apply list_elem_of_fmap. by exists x.
  - destruct Hx as [->|Hx]; [done|]. by apply IH.
Qed.

Lemma elem_of_records rid metric entry :
  (rid, metric) ∈ Store.records entry ↔
  ∃ model, model ∈ entry ∧ Evaluation.responseId model = rid ∧
           metric ∈ Evaluation.metrics model.
Proof.
  unfold Store.records. rewrite list_elem_of_bind. split.
  - intros (model & (m & [= -> ->] & Hm)%list_elem_of_fmap & Hmodel). by exists model.
  - intros (model & Hmodel & <- & Hm). exists model. split; [|done].
    apply list_elem_of_fmap. by exists metric.
Qed.

(** Under the invariant of the data model, the records of an entry are the
    cells the table reads. *)
Lemma records_cell rid metric entry :
  Store.uniqueIds entry → (rid, metric) ∈ Store.records entry →
  Store.cell entry rid (MetricScore.id metric) = Some (MetricScore.value metric).
Proof.
  intros [Hrids Hmids] (model & Hmodel & <- & Hm)%elem_of_records.
  unfold Store.cell.
  rewrite (find_unique Evaluation.responseId entry model Hrids Hmodel). cbn.
  rewrite Forall_forall in Hmids.
  by rewrite (find_unique MetricScore.id _ metric (Hmids model Hmodel) Hm).
Qed.

Lemma cell_records rid mid v entry :
  Store.cell entry rid mid = Some v →
  ∃ metric, (rid, metric) ∈ Store.records entry ∧ MetricScore.id metric = mid ∧
            MetricScore.value metric = v.
Proof.
  unfold Store.cell.
  destruct (find _ entry) as [model|] eqn:Hmodel; [|done]. cbn.
  destruct (find _ (Evaluation.metrics model)) as [metric|] eqn:Hmetric; [|done]. cbn.
  intros [= <-].
  apply find_Some_elem in Hmodel as [Hmodel Hrid%bool_decide_eq_true].
  apply find_Some_elem in Hmetric as [Hmetric Hmid%bool_decide_eq_true].
  exists metric. split; [|done]. apply elem_of_records. by exists model.
Qed.

Lemma persistFor_Some caseId evaluatorId x c :
  persistFor caseId evaluatorId x = Some c ↔
  ∃ v, MetricScore.value x.2 = Some v ∧ (0 < v)%Z ∧
       c = mkPersistCall caseId x.1 (MetricScore.id x.2) evaluatorId v.
Proof.
  unfold persistFor. destruct (MetricScore.value x.2) as [v|].
  - case_bool_decide as Hv; split.
    + intros [= <-]. by exists v.
    + by intros (v' & [= <-] & _ & ->).
    + done.
    + intros (v' & [= <-] & Hpos & _). done.
  - split; [done|]. by intros (v' & Hv & _).
Qed.

Lemma records_keys_NoDup entry :
  Store.uniqueIds entry →
  NoDup ((λ x, (x.1, MetricScore.id x.2)) <$> Store.records entry).
Proof.
  intros [Hrids Hmids]. induction entry as [|model entry IH]; [constructor|].
  rewrite fmap_cons in Hrids. apply NoDup_cons in Hrids as [Hrid Hrids].
  apply Forall_cons in Hmids as [Hmid Hmids].
  rewrite records_cons, fmap_app. apply NoDup_app. split; [|split; [|by apply IH]].
  - rewrite <- list_fmap_compose.
    assert (NoDup ((λ i, (Evaluation.responseId model, i)) <$>
                   (MetricScore.id <$> Evaluation.metrics model))) as Hnd.
    { apply NoDup_fmap_2; [|done]. by intros i j [= ->]. }
    by rewrite <- list_fmap_compose in Hnd.
  - intros k. rewrite <- list_fmap_compose.
    intros (metric & -> & _)%list_elem_of_fmap ([rid m] & [= Heq _] & Hin)%list_elem_of_fmap.
    cbn in Heq. apply elem_of_records in Hin as (model' & Hmodel' & Hr & _).
    apply Hrid. apply list_elem_of_fmap. exists model'. split; [congruence|done].
Qed.

Lemma omap_keys_NoDup {A B K : Type} (f : A → K) (g : A → option B) (k : B → K)
    (l : list A) :
  (∀ x c, g x = Some c → k c = f x) → NoDup (f <$> l) → NoDup (k <$> omap g l).
Proof.
  intros Hk. induction l as [|x l IH]; [constructor|].
  rewrite fmap_cons, NoDup_cons. intros [Hx Hnd]. cbn [omap list_omap].
  destruct (g x) as [c|] eqn:Hg; [|by apply IH].
  rewrite fmap_cons. apply NoDup_cons. split; [|by apply IH].
  rewrite (Hk x c Hg). intros (c' & Hc' & (y & Hy & Hgy)%list_elem_of_omap)%list_elem_of_fmap.
  apply Hx. apply list_elem_of_fmap. exists y. split; [|done].
  by rewrite Hc', (Hk y c' Hgy).
Qed.

Lemma promiseAll_length {A : Type} (promises : list (Http A)) (results : list A) :
  promiseAll promises = Ok results → length results = length promises.
Proof.
  revert results. induction promises as [|[a|] promises IH]; intros results.
  - by intros [= <-].
  - cbn. destruct (promiseAll promises) as [rest|]; [|done]. cbn.
    intros [= <-]. cbn. by rewrite (IH rest).
  - done.
Qed.

End SubmitFacts.

(** X19.  What a submission sends is what the table shows.  For a
    submission that passes the guards of [handleSubmit] (the record has an
    id, the evaluator id is there and not empty, the case has an entry), of
    a case whose entry names every slot and every metric of a slot once:
    there is a persist call for a response and a metric, with a score,
    exactly when the cell of that response and metric holds that score and
    it is greater than 0; no cell is sent twice; and every call carries the
    id of the case and of the evaluator.  A submission with no evaluator id,
    or an empty one, sends nothing. *)
Theorem submission_sends_shown_cells
    (activeRecord : Index.CaseRecord) (evaluatorId : string)
    (backend : nat → Services.PersistCall → Services.Http Services.PersistResponse)
    (pg : Index.Page) (entry : list Evaluation.t) :
  Index.id activeRecord ≠ "" → evaluatorId ≠ "" →
  Store.evaluation (Index.store pg) !! Index.id activeRecord = Some entry →
  Store.uniqueIds entry →
  let calls := Index.calls (Index.handleSubmit activeRecord (Some evaluatorId) backend pg) in
  (∀ rid mid v,
     Services.mkPersistCall (Index.id activeRecord) rid mid evaluatorId v ∈ calls ↔
     Store.cell entry rid mid = Some (Some v) ∧ (0 < v)%Z)
  ∧ NoDup ((λ c, (Services.responseId c, Services.metricId c)) <$> calls)
  ∧ (∀ c, c ∈ calls →
          Services.caseId c = Index.id activeRecord ∧ Services.evaluatorId c = evaluatorId)
  ∧ Index.calls (Index.handleSubmit activeRecord None backend pg) = []
  ∧ Index.calls (Index.handleSubmit activeRecord (Some "") backend pg) = [].
Proof.
  intros Hid Hev Hentry Hu calls. subst calls.
  rewrite (handleSubmit_no_evaluator activeRecord None) by auto.
  rewrite (handleSubmit_no_evaluator activeRecord (Some "")) by auto.
  rewrite (handleSubmit_issued _ _ _ _ _ Hid Hev Hentry). cbn.
  rewrite submissionCalls_records. split; [|split; [|split; [|done]]].
  - intros rid mid v. rewrite list_elem_of_omap. split.
    + intros ([rid' metric] & Hin & (v' & Hv & Hpos & [= -> -> ->])%persistFor_Some).
      cbn in *. split; [|done]. rewrite <- Hv. by apply records_cell.
    + intros [(metric & Hin & Hmid & Hv)%cell_records Hpos].
      exists (rid, metric). split; [done|]. apply persistFor_Some. exists v.
      cbn. by rewrite Hmid.
  - apply (omap_keys_NoDup (λ x, (x.1, MetricScore.id x.2))); [|by apply records_keys_NoDup].
    by intros x c (v & _ & _ & ->)%persistFor_Some.
  - by intros c (x & _ & (v & _ & _ & ->)%persistFor_Some)%list_elem_of_omap.
Qed.

Lemma submission_sends_shown_cells_witness :
  let entry := [Evaluation.mk "r1" [MetricScore.mk "m1" "" None (Some 4%Z);
                                    MetricScore.mk "m2" "" None None];
                Evaluation.mk "r2" [MetricScore.mk "m1" "" None (Some 0%Z)]] in
  let pg := Index.mkPage (Store.mkState {[ "c1" := entry ]} ∅) [] false in
  let calls := Index.calls
                 (Index.handleSubmit (Index.mkCaseRecord "c1" []) (Some "d7")
                    (λ _ _, Services.Rejected) pg) in
  (∀ rid mid v,
     Services.mkPersistCall "c1" rid mid "d7" v ∈ calls ↔
     Store.cell entry rid mid = Some (Some v) ∧ (0 < v)%Z)
  ∧ NoDup ((λ c, (Services.responseId c, Services.metricId c)) <$> calls)
  ∧ (∀ c, c ∈ calls → Services.caseId c = "c1" ∧ Services.evaluatorId c = "d7")
  ∧ Index.calls (Index.handleSubmit (Index.mkCaseRecord "c1" []) None
                   (λ _ _, Services.Rejected) pg) = []
  ∧ Index.calls (Index.handleSubmit (Index.mkCaseRecord "c1" []) (Some "")
                   (λ _ _, Services.Rejected) pg) = [].
Proof.
  intros entry pg.
  apply (submission_sends_shown_cells (Index.mkCaseRecord "c1" []) "d7"
           (λ _ _, Services.Rejected) pg entry); [done|done|done|].
  split.
  - refine (bool_decide_unpack _ _). vm_compute. exact I.
  - repeat constructor; refine (bool_decide_unpack _ _); vm_compute; exact I.
Defined.

(** X20.  How [handleSubmit] ends, whatever the store holds and however the
    calls end: it does nothing (no record id); or it leaves the store as it
    was, clears the submitting flag and raises the failure message, or a
    partial-progress message; or it raises the success message, clears the
    submitting flag and sets the completion flag of the case, which happens
    only after at least one persist call.  So a submission never changes a
    score, never clears a completion flag, never touches the flag of another
    case, and raises at most one message. *)
Theorem handleSubmit_ends
    (activeRecord : Index.CaseRecord) (doctorId : option string)
    (backend : nat → Services.PersistCall → Services.Http Services.PersistResponse)
    (pg : Index.Page) :
  let sub := Index.handleSubmit activeRecord doctorId backend pg in
  (Index.id activeRecord = "" ∧ sub = Index.mkSubmission pg [])
  ∨ Index.page sub
    = Index.mkPage (Index.store pg) (Index.toasts pg ++ [Index.failureToast]) false
  ∨ (∃ p, Index.page sub
          = Index.mkPage (Index.store pg) (Index.toasts pg ++ [Index.partialToast p]) false)
  ∨ (Index.page sub
     = Index.mkPage (Store.setDoneForId (Index.id activeRecord) true (Index.store pg))
                    (Index.toasts pg ++ [Index.successToast]) false
     ∧ Index.calls sub ≠ []).
Proof.
  intros sub. subst sub. unfold Index.handleSubmit.
  case_bool_decide as Hid; [by left|]. right.
  unfold Index.submitTry.
  destruct doctorId as [[|c evaluatorId]|]; [by left| |by left].
  destruct (Store.evaluation _ !! _) as [entry|] eqn:Hentry; [|by left].
  set (issued := Index.submissionCalls _ _ entry).
  destruct (Index.promiseAll _) as [results|] eqn:Hall; [|by left].
  cbn [mbind result_bind].
  destruct (last results) as [lastResult|] eqn:Hlast; [|by left].
  cbn [orThrow mbind result_bind].
  case_bool_decide as Hstatus.
  - right; right. split; [done|]. cbn. intros Hnil.
    apply promiseAll_length in Hall. rewrite length_imap in Hall.
    fold issued in Hall. rewrite Hnil in Hall. by destruct results.
  - destruct (Services.progress lastResult) as [p|]; [|by left].
    right; left. by exists p.
Qed.

(** ** The invariant of the data model, from the code *)

Section UniqueFacts.

Import Services Index.

Lemma defaultScore_shape outputs metrics existing index slot :
  defaultScore outputs metrics existing index = Ok slot →
  Evaluation.responseId slot
  = match outputs !! index with
    | Some o => if bool_decide (responseId o = "") then modelName index else responseId o
    | None => modelName index
    end
  ∧ MetricScore.id <$> Evaluation.metrics slot = Metric.id <$> metrics.
Proof.
  unfold defaultScore. cbv zeta.
  destruct (outputs !! index) as [o|].
  - destruct (filterByResponse (responseId o) existing) as [evs|]; [|done].
    cbn [mbind result_bind]. intros [= <-]. cbn. split; [done|].
    by rewrite <- list_fmap_compose.
  - cbn [mbind result_bind]. intros [= <-]. cbn. split; [done|].
    by rewrite <- list_fmap_compose.
Qed.

Lemma slot_ids_NoDup (outputs : list ModelOutput) :
  NoDup (responseId <$> outputs) →
  Forall (λ o, responseId o ∉ "" :: (modelName <$> seq 0 3)) outputs →
  NoDup ((λ index, match outputs !! index with
                   | Some o => if bool_decide (responseId o = "") then modelName index
                               else responseId o
                   | None => modelName index
                   end) <$> seq 0 3).
Proof.
  intros Hnd Hall.
  assert (∀ i o, outputs !! i = Some o →
            responseId o ≠ "" ∧ responseId o ≠ modelName 0 ∧
            responseId o ≠ modelName 1 ∧ responseId o ≠ modelName 2) as Hout.
  { intros i o Ho. rewrite Forall_forall in Hall.
    specialize (Hall o (list_elem_of_lookup_2 _ _ _ Ho)).
    cbn in Hall. rewrite !not_elem_of_cons in Hall. tauto. }
  assert (∀ i j oi oj, i ≠ j → outputs !! i = Some oi → outputs !! j = Some oj →
            responseId oi ≠ responseId oj) as Hdist.
  { intros i j oi oj Hne Hi Hj Heq. apply Hne.
    apply (NoDup_lookup _ i j (responseId oi) Hnd); rewrite list_lookup_fmap.
    - by rewrite Hi.
    - rewrite Hj. cbn. by rewrite Heq. }
  cbn [fmap list_fmap seq].
  destruct (outputs !! 0%nat) as [o0|] eqn:H0; destruct (outputs !! 1%nat) as [o1|] eqn:H1;
    destruct (outputs !! 2%nat) as [o2|] eqn:H2;
    repeat match goal with
    | H : outputs !! ?i = Some ?o |- _ =>
        lazymatch goal with
        | _ : responseId o ≠ "" |- _ => fail
        | _ => destruct (Hout i o H) as (? & ? & ? & ?)
        end
    end;
    rewrite ?bool_decide_false by done;
    repeat (apply NoDup_cons; split; [rewrite ?not_elem_of_cons; repeat split;
              try apply not_elem_of_nil; try done; try (eapply Hdist; [|eassumption|eassumption]; done); try (by apply not_eq_sym) |]);
    try apply NoDup_nil_2.
Qed.

Lemma defaultScores_uniqueIds outputs metrics existing scores :
  NoDup (Metric.id <$> metrics) → NoDup (responseId <$> outputs) →
  Forall (λ o, responseId o ∉ "" :: (modelName <$> seq 0 3)) outputs →
  defaultScores outputs metrics existing = Ok scores → Store.uniqueIds scores.
Proof.
  intros Hm Hr Hall. unfold defaultScores.
  destruct (defaultScore outputs metrics existing 0) as [s0|] eqn:H0; [|done].
  destruct (defaultScore outputs metrics existing 1) as [s1|] eqn:H1; [|done].
  destruct (defaultScore outputs metrics existing 2) as [s2|] eqn:H2; [|done].
  cbn [mbind result_bind]. intros [= <-].
  apply defaultScore_shape in H0 as [R0 M0]. apply defaultScore_shape in H1 as [R1 M1].
  apply defaultScore_shape in H2 as [R2 M2]. split.
  - cbn [fmap list_fmap]. rewrite R0, R1, R2. exact (slot_ids_NoDup outputs Hr Hall).
  - repeat constructor; congruence.
Qed.

End UniqueFacts.

(** X21.  The invariant of the data model is kept by the page.  If every
    entry of the store names each slot once and each metric of a slot once,
    it still does after a hydration, whatever the request for the existing
    evaluations returned, followed by any edits of any cases: provided the
    metric ids are distinct and the responseIds of the model outputs are
    distinct, not empty and none of the placeholder names. *)
Theorem hydration_keeps_ids_unique
    (activeRecord : Index.CaseRecord) (metrics : list Metric.t)
    (fetched : Services.Http Services.EvaluationsBody) (pg : Index.Page)
    (history : list (string * Store.Payload)) (idx : string) (entry : list Evaluation.t) :
  (∀ idx' entry', Store.evaluation (Index.store pg) !! idx' = Some entry' →
                  Store.uniqueIds entry') →
  NoDup (Metric.id <$> metrics) →
  NoDup (Index.responseId <$> Index.modelOutputs activeRecord) →
  Forall (λ o, Index.responseId o ∉ "" :: (modelName <$> seq 0 3))
         (Index.modelOutputs activeRecord) →
  Store.evaluation
    (Store.replay history
       (Index.store (Index.initializeEvaluations activeRecord metrics fetched pg))) !! idx
  = Some entry →
  Store.uniqueIds entry.
Proof.
  intros Hstore Hm Hr Hall. apply replay_uniqueIds. clear idx entry.
  intros idx entry. unfold Index.initializeEvaluations.
  destruct (bool_decide _ || Index.notReady metrics); [by apply Hstore|].
  destruct (Index.defaultScores _ _ _) as [scores|] eqn:Hscores; [|cbn; by apply Hstore].
  cbn [Index.store Index.setIsSubmitting Index.withStore].
  rewrite Store_initAtId_eq. cbn.
  destruct (decide (idx = Index.id activeRecord)) as [->|Hne].
  - rewrite lookup_insert_eq. intros [= <-].
    by apply (defaultScores_uniqueIds _ _ _ _ Hm Hr Hall Hscores).
  - rewrite lookup_insert_ne by done. by apply Hstore.
Qed.

Lemma hydration_keeps_ids_unique_witness :
  Store.uniqueIds
    [Evaluation.mk "r1" [MetricScore.mk "m1" "Accuracy" (Some "d") (Some 4%Z)];
     Evaluation.mk "model-2" [MetricScore.mk "m1" "Accuracy" (Some "d") None];
     Evaluation.mk "model-3" [MetricScore.mk "m1" "Accuracy" (Some "d") None]].
Proof.
  apply (hydration_keeps_ids_unique
           (Index.mkCaseRecord "c1" [Index.mkModelOutput "r1" "text"])
           [Metric.mk "m1" "Accuracy" "d"] Services.Rejected
           (Index.mkPage Store.initial [] false)
           [("c1", Store.mkPayload "r1" "m1" (Some 4%Z))] "c1").
  - intros idx' entry'. cbn. by rewrite lookup_empty.
  - refine (bool_decide_unpack _ _). vm_compute. exact I.
  - refine (bool_decide_unpack _ _). vm_compute. exact I.
  - repeat constructor. refine (bool_decide_unpack _ _). vm_compute. exact I.
  - by vm_compute.
Defined.

(** ** An edit, saved and read back *)

Section ReloadFacts.

Import Services Index.

Lemma orNull_sent (value : option Z) :
  EvaluationMetrics.invalid value = false → orNull (Some (default 0%Z value)) = value.
Proof.
  destruct value as [v|]; [|done]. cbn.
  rewrite orb_false_iff, !bool_decide_eq_false. intros [H1 H5].
  destruct v; [lia|done|lia].
Qed.

Lemma hydrated_cell outputs metrics existing entry j o m :
  NoDup (Metric.id <$> metrics) → NoDup (responseId <$> outputs) →
  Forall (λ o, responseId o ∉ "" :: (modelName <$> seq 0 3)) outputs →
  defaultScores outputs metrics (EvaluationList existing) = Ok entry →
  (j < 3)%nat → outputs !! j = Some o → m ∈ metrics →
  Store.cell entry (responseId o) (Metric.id m)
  = Some (orNull (remoteScore existing (responseId o) (Metric.id m))).
Proof.
  intros Hm Hr Hall Hentry Hj Ho Hin.
  pose proof (defaultScores_uniqueIds _ _ _ _ Hm Hr Hall Hentry) as Hu.
  set (record := MetricScore.mk (Metric.id m) (Metric.name m) (Some (Metric.description m))
                   (orNull (remoteScore existing (responseId o) (Metric.id m)))).
  apply (records_cell (responseId o) record entry Hu).
  assert (responseId o ≠ "") as Hne.
  { rewrite Forall_forall in Hall. specialize (Hall o (list_elem_of_lookup_2 _ _ _ Ho)).
    apply not_elem_of_cons in Hall as [Hall _]. done. }
  apply elem_of_records.
  unfold defaultScores in Hentry. rewrite !defaultScore_list in Hentry.
  cbn [mbind result_bind] in Hentry. injection Hentry as <-.
  eexists. split; [|split].
  - destruct j as [|[|[|j]]]; [| | |lia].
    + apply elem_of_cons. left. reflexivity.
    + apply elem_of_cons. right. apply elem_of_cons. left. reflexivity.
    + do 2 (apply elem_of_cons; right). apply elem_of_cons. left. reflexivity.
  - destruct j as [|[|[|j]]]; [| | |lia]; cbn; rewrite Ho; by rewrite bool_decide_false.
  - destruct j as [|[|[|j]]]; [| | |lia]; cbn; rewrite Ho;
      apply list_elem_of_fmap; by exists m.
Qed.

End ReloadFacts.

(** X22.  An edit that was saved reads the same after a reload.  For a
    record whose model outputs have distinct responseIds, none empty or a
    placeholder name, and a ready metric set of distinct ids: if the editor
    sent a request for a cell of one of the first three model outputs, and
    the evaluation the backend later lists first for that response and
    metric carries the score of that request, then after the hydration the
    cell holds the value that was picked: the number, or null for a cleared
    cell (sent as 0, read back as null). *)
Theorem edit_survives_reload
    (activeRecord : Index.CaseRecord) (metrics : list Metric.t)
    (existing : list Services.EvaluationData) (j : nat) (o : Index.ModelOutput)
    (m : Metric.t) (value : option Z) (doctorId : option string)
    (st : Store.State) (pg : Index.Page) (r : EvaluationMetrics.Request) :
  Index.id activeRecord ≠ "" → Index.notReady metrics = false →
  NoDup (Metric.id <$> metrics) →
  NoDup (Index.responseId <$> Index.modelOutputs activeRecord) →
  Forall (λ o, Index.responseId o ∉ "" :: (modelName <$> seq 0 3))
         (Index.modelOutputs activeRecord) →
  (j < 3)%nat → Index.modelOutputs activeRecord !! j = Some o → m ∈ metrics →
  r ∈ (EvaluationMetrics.updateEvaluation (Index.id activeRecord) doctorId
         (Index.responseId o) (Metric.id m) value st).2 →
  Index.remoteScore existing (Index.responseId o) (Metric.id m)
  = Some (EvaluationMetrics.score r) →
  Store.storedValue
    (Index.store (Index.initializeEvaluations activeRecord metrics
                    (Services.Resolved (Services.EvaluationList existing)) pg))
    (Index.id activeRecord) (Index.responseId o) (Metric.id m)
  = Some value.
Proof.
  intros Hid Hready Hm Hr Hall Hj Ho Hin Hsent Hremote.
  unfold EvaluationMetrics.updateEvaluation in Hsent.
  destruct (EvaluationMetrics.invalid value) eqn:Hvalid; [by apply elem_of_nil in Hsent|].
  destruct (Store.setEvaluation _ _ st) as [store'|e]; [|by apply elem_of_nil in Hsent].
  apply list_elem_of_singleton in Hsent as ->. cbn in Hremote.
  destruct (defaultScores_ok (Index.modelOutputs activeRecord) metrics existing)
    as (entry & Hentry & _).
  rewrite (initializeEvaluations_ok activeRecord metrics
             (Services.Resolved (Services.EvaluationList existing)) pg entry Hid Hready Hentry).
  unfold Store.storedValue. cbn [Index.store].
  rewrite Store_initAtId_lookup. cbn [mbind option_bind].
  rewrite (hydrated_cell _ _ _ _ j o m Hm Hr Hall Hentry Hj Ho Hin), Hremote.
  by rewrite orNull_sent.
Qed.

Lemma edit_survives_reload_witness :
  Store.storedValue
    (Index.store
       (Index.initializeEvaluations
          (Index.mkCaseRecord "c1" [Index.mkModelOutput "r1" "text"])
          [Metric.mk "m1" "Accuracy" "d"]
          (Services.Resolved (Services.EvaluationList [Services.mkEvaluationData "r1" "m1" 0]))
          (Index.mkPage Store.initial [] false)))
    "c1" "r1" "m1"
  = Some None.
Proof.
  apply (edit_survives_reload
           (Index.mkCaseRecord "c1" [Index.mkModelOutput "r1" "text"])
           [Metric.mk "m1" "Accuracy" "d"]
           [Services.mkEvaluationData "r1" "m1" 0] 0
           (Index.mkModelOutput "r1" "text") (Metric.mk "m1" "Accuracy" "d") None
           (Some "d7") Store.initial (Index.mkPage Store.initial [] false)
           (EvaluationMetrics.mkRequest "c1" "r1" "m1" (Some "d7") 0)).
  - done.
  - done.
  - refine (bool_decide_unpack _ _). vm_compute. exact I.
  - refine (bool_decide_unpack _ _). vm_compute. exact I.
  - repeat constructor. refine (bool_decide_unpack _ _). vm_compute. exact I.
  - lia.
  - done.
  - apply list_elem_of_singleton. reflexivity.
  - apply list_elem_of_singleton. reflexivity.
  - reflexivity.
Defined.
